(** * tau: realtime audio engine (src/tau/tau.c)

    A shallow embedding of the engine's data model and operations, and the
    verification of the properties stated about them.

    Layout:
    - [FloatOps]: the arithmetic the C code performs on [float], as an
      interface with two instances: IEEE-754 binary32 (what the program
      computes) and the real numbers (the exact arithmetic the two-time-constant
      decay model is designed in).
    - the DSP leaves: [svf_process], [channel_stereo], [slot_tick],
      [voice_tick], and the render callback [data_cb];
    - the control plane: [srv_add_subscriber], [srv_broadcast],
      [process_command], and the OSC handlers;
    - the theorems. *)

From Stdlib Require Import ZArith QArith Bool List String Ascii Lia Lra.
From Stdlib Require Import Numbers.DecimalString Floats.SpecFloat.
From Stdlib Require Import Reals Qreals.
Import ListNotations.

Open Scope Z_scope.

(** ** Constants (tau.c, lines 40-47) *)

Definition NUM_CHANNELS : Z := 4.
Definition NUM_SLOTS : Z := 16.
Definition NUM_VOICES : Z := 8.
Definition MAX_SUBSCRIBERS : Z := 32.

(** C [int] and [uint32_t] arithmetic, with the wrap-around written out.
    Atomic read-modify-write on a signed [int] wraps in two's complement. *)
Definition wrap_int (z : Z) : Z := (z + 2 ^ 31) mod 2 ^ 32 - 2 ^ 31.
Definition wrap_u32 (z : Z) : Z := z mod 2 ^ 32.
Definition INT_MAX : Z := 2 ^ 31 - 1.

(** C truth value of an [int]. *)
Definition truthy (z : Z) : bool := negb (z =? 0).

Definition clampi (v lo hi : Z) : Z :=
  if v <? lo then lo else if v >? hi then hi else v.

(** ** The [float] interface

    [flit] is a decimal literal with suffix [f]; [of_int] is the conversion
    [(float)i]; [to_uint32] is the conversion [(uint32_t)x]; the comparisons
    are the C operators [==], [<], [<=] (all false on NaN).  [downmix xs ch]
    is the expression [(float)(acc / (double)ch)] of [slot_load_path], where
    [acc] is the double-precision sum of [xs]. *)
Class FloatOps (F : Type) : Type := {
  flit : Q -> F;
  of_int : Z -> F;
  to_uint32 : F -> Z;
  fadd : F -> F -> F;
  fsub : F -> F -> F;
  fmul : F -> F -> F;
  fdiv : F -> F -> F;
  feqb : F -> F -> bool;
  fltb : F -> F -> bool;
  fleb : F -> F -> bool;
  fmaxf : F -> F -> F;
  sqrtf : F -> F;
  downmix : list F -> Z -> F
}.

(** libm's single-precision transcendental functions. *)
Class Libm (F : Type) : Type := {
  expf : F -> F;
  sinf : F -> F;
  tanf : F -> F
}.

Declare Scope flt_scope.
Delimit Scope flt_scope with flt.
Infix "+" := fadd : flt_scope.
Infix "-" := fsub : flt_scope.
Infix "*" := fmul : flt_scope.
Infix "/" := fdiv : flt_scope.
Infix "==" := feqb (at level 70, no associativity) : flt_scope.
Infix "<?" := fltb : flt_scope.
Infix "<=?" := fleb : flt_scope.

(** ** Updating the fixed-size arrays

    [G.ch[i]], [G.slots[i]] and [G.voices[i]] are only written after the index
    has been validated, so an out-of-range update never happens; the model
    leaves the list unchanged there. *)
Fixpoint upd {A : Type} (i : nat) (f : A -> A) (l : list A) : list A :=
  match l, i with
  | [], _ => []
  | x :: r, O => f x :: r
  | x :: r, S j => x :: upd j f r
  end.

Section DSP.

Context {F : Type} {ops : FloatOps F} {lm : Libm F}.

(** *** small utils (lines 50-51) *)

Definition clampf (x lo hi : F) : F :=
  if (x <? lo)%flt then lo else if (hi <? x)%flt then hi else x.

(** *** State Variable Filter (lines 54-102) *)

Definition F_OFF : Z := 0.
Definition F_LP : Z := 1.
Definition F_HP : Z := 2.
Definition F_BP : Z := 3.

Record SVF : Type := mkSVF {
  f_type : Z;
  f_cutoff : F;
  f_q : F;
  f_ic1eq : F;
  f_ic2eq : F;
  f_g : F;
  f_k : F;
  f_sr : F;
  f_prev_cutoff : F;
  f_prev_q : F
}.

(** [(float)M_PI] *)
Definition M_PI_f : F := flit 3.14159265358979323846.
(** [TWO_PI] *)
Definition TWO_PI : F := flit 6.28318530717958647692.

Definition svf_init (sr : F) : SVF :=
  {| f_type := F_OFF; f_cutoff := flit 1000; f_q := flit 0.7071;
     f_ic1eq := flit 0; f_ic2eq := flit 0; f_g := flit 0; f_k := flit 0;
     f_sr := sr; f_prev_cutoff := flit (-1); f_prev_q := flit (-1) |}.

Definition svf_update_coeffs (f : SVF) : SVF :=
  let cutoff := f_cutoff f in
  let q := clampf (f_q f) (flit 0.1) (flit 20) in
  if negb (cutoff == f_prev_cutoff f)%flt || negb (q == f_prev_q f)%flt then
    let w := (M_PI_f * (cutoff / (f_sr f * flit 0.5)))%flt in
    {| f_type := f_type f; f_cutoff := f_cutoff f; f_q := f_q f;
       f_ic1eq := f_ic1eq f; f_ic2eq := f_ic2eq f;
       f_g := tanf w; f_k := (flit 1 / q)%flt;
       f_sr := f_sr f; f_prev_cutoff := cutoff; f_prev_q := q |}
  else f.

(** The two trapezoidal integrator outputs computed by one call. *)
Definition svf_v1 (f : SVF) (x : F) : F :=
  ((f_ic1eq f + f_g f * (x - f_ic2eq f))
   / (flit 1 + f_g f * (f_g f + f_k f)))%flt.

Definition svf_v2 (f : SVF) (x : F) : F :=
  (f_ic2eq f + f_g f * svf_v1 f x)%flt.

(** [svf_process f x] returns the output sample and the filter after the
    call. *)
Definition svf_process (f : SVF) (x : F) : F * SVF :=
  let type := f_type f in
  if type =? F_OFF then (x, f)
  else
    let f1 := svf_update_coeffs f in
    let k := f_k f1 in
    let v0 := x in
    let v1 := svf_v1 f1 v0 in
    let v2 := svf_v2 f1 v0 in
    let f2 :=
      {| f_type := f_type f1; f_cutoff := f_cutoff f1; f_q := f_q f1;
         f_ic1eq := (flit 2 * v1 - f_ic1eq f1)%flt;
         f_ic2eq := (flit 2 * v2 - f_ic2eq f1)%flt;
         f_g := f_g f1; f_k := f_k f1; f_sr := f_sr f1;
         f_prev_cutoff := f_prev_cutoff f1; f_prev_q := f_prev_q f1 |} in
    if type =? F_LP then (v2, f2)
    else if type =? F_HP then ((v0 - k * v1 - v2)%flt, f2)
    else if type =? F_BP then (v1, f2)
    else (v0, f2).

(** *** Mixer Channel (lines 105-125) *)

Record Channel : Type := mkChannel {
  ch_gain : F;
  ch_pan : F;
  ch_filt : SVF
}.

Definition channel_init (sr : F) : Channel :=
  {| ch_gain := flit 1; ch_pan := flit 0; ch_filt := svf_init sr |}.

(** [channel_stereo c mono (L, R)] returns the channel after the call and
    the two accumulators [*L], [*R] after the call. *)
Definition channel_stereo (c : Channel) (mono : F) (LR : F * F)
  : Channel * (F * F) :=
  let g := ch_gain c in
  let p := clampf (ch_pan c) (flit (-1)) (flit 1) in
  let '(y, filt') := svf_process (ch_filt c) mono in
  let m := (y * g)%flt in
  let lgain := sqrtf (flit 0.5 * (flit 1 - p))%flt in
  let rgain := sqrtf (flit 0.5 * (flit 1 + p))%flt in
  ({| ch_gain := ch_gain c; ch_pan := ch_pan c; ch_filt := filt' |},
   ((fst LR + m * lgain)%flt, (snd LR + m * rgain)%flt)).

(** *** Sample Slot (lines 128-212)

    [s_data] is the heap buffer: [None] is the NULL pointer.  The opaque
    [ma_decoder] is not part of the model; [s_haveDecoder] is. *)

Record SampleSlot : Type := mkSlot {
  s_assignedCh : Z;
  s_loaded : Z;
  s_playing : Z;
  s_loop : Z;
  s_gain : F;
  s_data : option (list F);
  s_length : Z;
  s_pos : Z;
  s_haveDecoder : Z
}.

Definition slot_init : SampleSlot :=
  {| s_assignedCh := 0; s_loaded := 0; s_playing := 0; s_loop := 0;
     s_gain := flit 1; s_data := None; s_length := 0; s_pos := 0;
     s_haveDecoder := 0 |}.

Definition slot_free (s : SampleSlot) : SampleSlot :=
  {| s_assignedCh := s_assignedCh s; s_loaded := 0; s_playing := 0;
     s_loop := s_loop s; s_gain := s_gain s; s_data := None;
     s_length := s_length s; s_pos := s_pos s; s_haveDecoder := 0 |}.

(** What the decoder library and the allocator answer during one
    [slot_load_path]: whether [ma_decoder_init_file] succeeds, the frame count
    reported by [ma_decoder_get_length_in_pcm_frames] ([None] on failure),
    the output channel count, the interleaved frames the decoder yields before
    it first reads nothing, and whether each of the two [malloc]s succeeds. *)
Record decoder_env : Type := mkDecoderEnv {
  dec_init_ok : bool;
  dec_frames : option Z;
  dec_channels : Z;
  dec_pcm : list (list F);
  dec_malloc_tmp_ok : bool;
  dec_malloc_data_ok : bool
}.

(** [slot_load_path] returns the status code and the slot after the call. *)
Definition slot_load_path (s : SampleSlot) (d : decoder_env) : Z * SampleSlot :=
  let s0 := slot_free s in
  if negb (dec_init_ok d) then (-1, s0)
  else
    let s1 :=
      {| s_assignedCh := s_assignedCh s0; s_loaded := s_loaded s0;
         s_playing := s_playing s0; s_loop := s_loop s0; s_gain := s_gain s0;
         s_data := s_data s0; s_length := s_length s0; s_pos := s_pos s0;
         s_haveDecoder := 1 |} in
    match dec_frames d with
    | None => (-2, slot_free s1)
    | Some frames =>
      let ch := dec_channels d in
      if negb (dec_malloc_tmp_ok d) then (-3, slot_free s1)
      else
        let tmp := firstn (Z.to_nat frames) (dec_pcm d) in
        let read := Z.of_nat (List.length tmp) in
        let len := wrap_u32 read in
        let s2 :=
          {| s_assignedCh := s_assignedCh s1; s_loaded := s_loaded s1;
             s_playing := s_playing s1; s_loop := s_loop s1;
             s_gain := s_gain s1; s_data := s_data s1; s_length := len;
             s_pos := s_pos s1; s_haveDecoder := s_haveDecoder s1 |} in
        if negb (dec_malloc_data_ok d) then (-4, slot_free s2)
        else
          let data := map (fun frame => downmix frame ch)
                          (firstn (Z.to_nat len) tmp) in
          (0,
           {| s_assignedCh := s_assignedCh s2; s_loaded := 1;
              s_playing := s_playing s2; s_loop := s_loop s2;
              s_gain := s_gain s2; s_data := Some data; s_length := len;
              s_pos := 0; s_haveDecoder := s_haveDecoder s2 |})
    end.

(** [slot_tick] returns the sample and the slot after the call; [None] is
    a read of [s->data[pos]] outside the buffer. *)
Definition slot_tick (s : SampleSlot) : option (F * SampleSlot) :=
  if negb (truthy (s_playing s)) || negb (truthy (s_loaded s))
  then Some (flit 0, s)
  else
    match s_data s with
    | None => Some (flit 0, s)
    | Some data =>
      let pos := s_pos s in
      let play (pos : Z) :=
        match nth_error data (Z.to_nat pos) with
        | None => None
        | Some x =>
          Some ((x * s_gain s)%flt,
                {| s_assignedCh := s_assignedCh s; s_loaded := s_loaded s;
                   s_playing := s_playing s; s_loop := s_loop s;
                   s_gain := s_gain s; s_data := s_data s;
                   s_length := s_length s; s_pos := wrap_u32 (pos + 1);
                   s_haveDecoder := s_haveDecoder s |})
        end in
      if pos >=? s_length s then
        if truthy (s_loop s) then play 0
        else
          Some (flit 0,
                {| s_assignedCh := s_assignedCh s; s_loaded := s_loaded s;
                   s_playing := 0; s_loop := s_loop s; s_gain := s_gain s;
                   s_data := s_data s; s_length := s_length s; s_pos := 0;
                   s_haveDecoder := s_haveDecoder s |})
      else play pos
    end.

(** *** Synth Voice (lines 215-268) *)

Definition W_SINE : Z := 0.
Definition W_PULSE : Z := 1.

Record Voice : Type := mkVoice {
  v_on : Z;
  v_wave : Z;
  v_freq : F;
  v_gain : F;
  v_assignedCh : Z;
  v_tauA : F;
  v_tauB : F;
  v_dutyBias : F;
  v_spikes : Z;
  v_phase : F;
  v_sr : F;
  v_Astate : F;
  v_Bstate : F
}.

Definition voice_init (sr : F) : Voice :=
  {| v_on := 0; v_wave := W_SINE; v_freq := flit 220; v_gain := flit 0.2;
     v_assignedCh := 0; v_tauA := flit 0.005; v_tauB := flit 0.020;
     v_dutyBias := flit 0.5; v_spikes := 0; v_phase := flit 0; v_sr := sr;
     v_Astate := flit 0; v_Bstate := flit 0 |}.

(** The first two statements of an active tick: the pending-spike count is
    exchanged with 0 and, when positive, added to both decay registers. *)
Definition voice_drain (v : Voice) : Voice :=
  let s := v_spikes v in
  {| v_on := v_on v; v_wave := v_wave v; v_freq := v_freq v;
     v_gain := v_gain v; v_assignedCh := v_assignedCh v;
     v_tauA := v_tauA v; v_tauB := v_tauB v; v_dutyBias := v_dutyBias v;
     v_spikes := 0; v_phase := v_phase v; v_sr := v_sr v;
     v_Astate := if s >? 0 then (v_Astate v + of_int s)%flt else v_Astate v;
     v_Bstate := if s >? 0 then (v_Bstate v + of_int s)%flt else v_Bstate v |}.

(** The locals [da] and [db]. *)
Definition voice_da (v : Voice) : F :=
  let ta := fmaxf (flit 1e-4) (v_tauA v) in
  expf (flit (-1) / (ta * v_sr v))%flt.

Definition voice_db (v : Voice) : F :=
  let tb := fmaxf (flit 1e-4) (v_tauB v) in
  expf (flit (-1) / (tb * v_sr v))%flt.

(** The local [duty], given the decayed registers. *)
Definition voice_duty (bias A B : F) : F :=
  let k := (A - B)%flt in
  clampf (bias + flit 0.25 * k)%flt (flit 0.01) (flit 0.99).

(** The rest of an active tick, after the drain: the sample, the local
    [duty], and the voice after the call. *)
Definition voice_run (v : Voice) : F * F * Voice :=
  let f := fmaxf (flit 1) (v_freq v) in
  let g := v_gain v in
  let w := v_wave v in
  let A := (v_Astate v * voice_da v)%flt in
  let B := (v_Bstate v * voice_db v)%flt in
  let duty := voice_duty (v_dutyBias v) A B in
  let phase0 := (v_phase v + f / v_sr v)%flt in
  let phase := if (flit 1 <=? phase0)%flt then (phase0 - flit 1)%flt
               else phase0 in
  let y := if w =? W_SINE then sinf (TWO_PI * phase)%flt
           else if (phase <? duty)%flt then flit 1 else flit (-1) in
  ((y * g)%flt, duty,
   {| v_on := v_on v; v_wave := v_wave v; v_freq := v_freq v;
      v_gain := v_gain v; v_assignedCh := v_assignedCh v;
      v_tauA := v_tauA v; v_tauB := v_tauB v; v_dutyBias := v_dutyBias v;
      v_spikes := v_spikes v; v_phase := phase; v_sr := v_sr v;
      v_Astate := A; v_Bstate := B |}).

(** [voice_tick] returns the sample and the voice after the call. *)
Definition voice_tick (v : Voice) : F * Voice :=
  if negb (truthy (v_on v)) then (flit 0, v)
  else
    let '(out, _, v') := voice_run (voice_drain v) in
    (out, v').

(** The value of the local [duty] in an active tick. *)
Definition voice_tick_duty (v : Voice) : F :=
  snd (fst (voice_run (voice_drain v))).

(** *** Engine and render callback (lines 271-311) *)

Record Engine : Type := mkEngine {
  E_sr : Z;
  E_framesPerBuffer : Z;
  E_masterGain : F;
  E_ch : list Channel;
  E_slots : list SampleSlot;
  E_voices : list Voice;
  E_chMono : list F
}.

Definition engine_init (sr frames : Z) : Engine :=
  {| E_sr := sr; E_framesPerBuffer := frames; E_masterGain := flit 0.8;
     E_ch := repeat (channel_init (of_int sr)) (Z.to_nat NUM_CHANNELS);
     E_slots := repeat slot_init (Z.to_nat NUM_SLOTS);
     E_voices := repeat (voice_init (of_int sr)) (Z.to_nat NUM_VOICES);
     E_chMono := repeat (flit 0) (Z.to_nat NUM_CHANNELS) |}.

(** The three inner loops of [data_cb] for one frame. *)
Fixpoint tick_slots (slots : list SampleSlot) (mono : list F)
  : option (list SampleSlot * list F) :=
  match slots with
  | [] => Some ([], mono)
  | s :: rest =>
    if truthy (s_playing s) then
      let ch := clampi (s_assignedCh s) 0 (NUM_CHANNELS - 1) in
      match slot_tick s with
      | None => None
      | Some (x, s') =>
        match tick_slots rest (upd (Z.to_nat ch) (fun a => (a + x)%flt) mono) with
        | None => None
        | Some (rest', mono') => Some (s' :: rest', mono')
        end
      end
    else
      match tick_slots rest mono with
      | None => None
      | Some (rest', mono') => Some (s :: rest', mono')
      end
  end.

Fixpoint tick_voices (voices : list Voice) (mono : list F)
  : list Voice * list F :=
  match voices with
  | [] => ([], mono)
  | v :: rest =>
    if truthy (v_on v) then
      let ch := clampi (v_assignedCh v) 0 (NUM_CHANNELS - 1) in
      let '(x, v') := voice_tick v in
      let '(rest', mono') :=
        tick_voices rest (upd (Z.to_nat ch) (fun a => (a + x)%flt) mono) in
      (v' :: rest', mono')
    else
      let '(rest', mono') := tick_voices rest mono in
      (v :: rest', mono')
  end.

Fixpoint mix_channels (chs : list Channel) (mono : list F) (LR : F * F)
  : list Channel * (F * F) :=
  match chs, mono with
  | c :: chs', m :: mono' =>
    let '(c', LR') := channel_stereo c m LR in
    let '(chs'', LR'') := mix_channels chs' mono' LR' in
    (c' :: chs'', LR'')
  | _, _ => (chs, LR)
  end.

(** One iteration of the frame loop of [data_cb]: the engine after the frame
    and the two interleaved output samples. *)
Definition data_cb_frame (E : Engine) : option (Engine * (F * F)) :=
  let mono0 := repeat (flit 0) (Z.to_nat NUM_CHANNELS) in
  match tick_slots (E_slots E) mono0 with
  | None => None
  | Some (slots', mono1) =>
    let '(voices', mono2) := tick_voices (E_voices E) mono1 in
    let '(chs', (L, R)) := mix_channels (E_ch E) mono2 (flit 0, flit 0) in
    let mg := E_masterGain E in
    Some ({| E_sr := E_sr E; E_framesPerBuffer := E_framesPerBuffer E;
             E_masterGain := E_masterGain E; E_ch := chs';
             E_slots := slots'; E_voices := voices'; E_chMono := mono2 |},
          ((L * mg)%flt, (R * mg)%flt))
  end.

Fixpoint data_cb (E : Engine) (nframes : nat)
  : option (Engine * list (F * F)) :=
  match nframes with
  | O => Some (E, [])
  | S n =>
    match data_cb_frame E with
    | None => None
    | Some (E', o) =>
      match data_cb E' n with
      | None => None
      | Some (E'', out) => Some (E'', o :: out)
      end
    end
  end.

End DSP.

Arguments SVF F : clear implicits.
Arguments Channel F : clear implicits.
Arguments SampleSlot F : clear implicits.
Arguments Voice F : clear implicits.
Arguments Engine F : clear implicits.
Arguments decoder_env F : clear implicits.

(** ** C strings and the libc routines used by the control plane *)

Open Scope string_scope.

Definition NUL : ascii := Ascii.ascii_of_nat 0.
Definition TAB : ascii := Ascii.ascii_of_nat 9.
Definition LF : ascii := Ascii.ascii_of_nat 10.
Definition VT : ascii := Ascii.ascii_of_nat 11.
Definition FF : ascii := Ascii.ascii_of_nat 12.
Definition CR : ascii := Ascii.ascii_of_nat 13.
Definition NL : string := String LF EmptyString.

(** A [char*] read as a C string ends at its first NUL. *)
Fixpoint c_str (s : string) : string :=
  match s with
  | EmptyString => EmptyString
  | String c r => if Ascii.eqb c NUL then EmptyString else String c (c_str r)
  end.

(** [strncpy(dst, src, n)] into a zeroed buffer of more than [n] bytes, and
    [snprintf(dst, size, ...)] of an already formatted text: both keep a
    prefix. *)
Definition strncpy (src : string) (n : nat) : string := substring 0 n src.
Definition snprintf (size : nat) (text : string) : string :=
  substring 0 (size - 1) text.

(** [strtok] with the delimiters space, tab and newline, called until it
    returns NULL. *)
Definition is_delim (c : ascii) : bool :=
  Ascii.eqb c " " || Ascii.eqb c TAB || Ascii.eqb c LF.

Fixpoint strtok_all (s : string) (cur : option string) : list string :=
  match s with
  | EmptyString => match cur with Some t => [t] | None => [] end
  | String c r =>
    if is_delim c then
      match cur with
      | Some t => t :: strtok_all r None
      | None => strtok_all r None
      end
    else
      strtok_all r (Some (match cur with
                          | Some t => t ++ String c EmptyString
                          | None => String c EmptyString
                          end))
  end.

(** The tokenizer at the head of [process_command]: the command is copied
    into [char buf[4096]] and at most 32 tokens are kept. *)
Definition tokenize (cmd : string) : list string :=
  firstn 32 (strtok_all (strncpy (c_str cmd) 4095) None).

(** [isspace] and [isdigit] in the C locale. *)
Definition isspace (c : ascii) : bool :=
  Ascii.eqb c " " || Ascii.eqb c TAB || Ascii.eqb c LF || Ascii.eqb c VT
  || Ascii.eqb c FF || Ascii.eqb c CR.

Definition digit_of (c : ascii) : option Z :=
  let n := Z.of_nat (Ascii.nat_of_ascii c) in
  if (48 <=? n)%Z && (n <=? 57)%Z then Some (n - 48)%Z else None.

Fixpoint skip_space (s : string) : string :=
  match s with
  | String c r => if isspace c then skip_space r else s
  | EmptyString => EmptyString
  end.

Fixpoint read_digits (s : string) (acc : Z) : Z :=
  match s with
  | String c r =>
    match digit_of c with
    | Some d => read_digits r (10 * acc + d)%Z
    | None => acc
    end
  | EmptyString => acc
  end.

Fixpoint skip_digits (s : string) : string :=
  match s with
  | String c r =>
    match digit_of c with Some _ => skip_digits r | None => s end
  | EmptyString => s
  end.

(** [atoi(s)], which is [(int)strtol(s, NULL, 10)]: white space, an optional
    sign, decimal digits; [strtol] saturates to the range of [long] and the
    conversion to [int] keeps the low 32 bits. *)
Definition LONG_MAX : Z := 2 ^ 63 - 1.
Definition LONG_MIN : Z := - 2 ^ 63.

Definition strtol (s : string) : Z :=
  let s := skip_space s in
  let v :=
    match s with
    | String "-" r => (- read_digits r 0)%Z
    | String "+" r => read_digits r 0
    | _ => read_digits s 0
    end in
  Z.max LONG_MIN (Z.min LONG_MAX v).

Definition atoi (s : string) : Z := wrap_int (strtol s).

(** [printf("%d", z)]. *)
Definition fmt_d (z : Z) : string := NilZero.string_of_int (Z.to_int z).

(** *** Sockets *)

Record sockaddr_un : Type := mkAddr { sun_path : string }.

Inductive errno : Type :=
  ECONNREFUSED | ENOENT | ENOTCONN | EAGAIN | EOTHER.

(** The result of one [sendto]: the byte count, or -1 with [errno] set. *)
Inductive send_result : Type :=
| Sent
| Failed (e : errno).

Definition datagram : Type := (sockaddr_un * string)%type.

(** The condition under which [srv_broadcast] drops a subscriber. *)
Definition is_dead (r : send_result) : bool :=
  match r with
  | Failed ECONNREFUSED | Failed ENOENT | Failed ENOTCONN => true
  | _ => false
  end.

(** The subscriber list of [dgram_srv]: the first [sub_count] cells of the
    array [subscribers]. *)
Record dgram_srv : Type := mkSrv {
  srv_running : Z;
  srv_subscribers : list sockaddr_un
}.

Definition sub_count (s : dgram_srv) : Z :=
  Z.of_nat (List.length (srv_subscribers s)).

(** What the program takes from its host: libc's [atof] (followed by the
    conversion to [float] every call site applies) and [printf("%.Nf")], the
    size of [sockaddr_un.sun_path], the decoder library and allocator (what
    they answer for a path and a target sample rate), and the datagram
    socket (what [sendto] answers, given the datagrams sent before). *)
Record Host (F : Type) : Type := mkHost {
  atof : string -> F;
  fmt_f : nat -> F -> string;
  sun_path_size : nat;
  decode_file : string -> Z -> decoder_env F;
  sendto : list datagram -> sockaddr_un -> string -> send_result
}.

Arguments atof {F} _ _.
Arguments fmt_f {F} _ _ _.
Arguments sun_path_size {F} _.
Arguments decode_file {F} _ _ _.
Arguments sendto {F} _ _ _ _.

(** ** The control plane (lines 313-766, 888-988) *)

Section Control.

Context {F : Type} {ops : FloatOps F}.
Variable h : Host F.

Local Open Scope Z_scope.

(** The process-wide state: the engine [G], the server [g_srv], and the
    datagrams [srv_broadcast] has handed to [sendto] so far. *)
Record World : Type := mkWorld {
  G : Engine F;
  g_srv : dgram_srv;
  net_log : list datagram
}.

Definition with_G (w : World) (E : Engine F) : World :=
  {| G := E; g_srv := g_srv w; net_log := net_log w |}.

(** *** Subscribers (lines 347-402) *)

Definition srv_add_subscriber (path : string) (srv : dgram_srv) : dgram_srv :=
  if sub_count srv >=? MAX_SUBSCRIBERS then srv
  else if existsb (fun a => String.eqb (sun_path a) path) (srv_subscribers srv)
  then srv
  else
    let addr := {| sun_path := strncpy path (sun_path_size h - 1) |} in
    {| srv_running := srv_running srv;
       srv_subscribers := (srv_subscribers srv ++ [addr])%list |}.

(** The loop of [srv_broadcast] from index [i] on, [subs] being the cells
    [i .. sub_count-1]: returns the cells kept and the datagram log. *)
Fixpoint broadcast_loop (event : string) (subs : list sockaddr_un)
  (log : list datagram) : list sockaddr_un * list datagram :=
  match subs with
  | [] => ([], log)
  | a :: rest =>
    let sent := sendto h log a event in
    let log' := (log ++ [(a, event)])%list in
    let '(kept, log'') := broadcast_loop event rest log' in
    if is_dead sent then (kept, log'') else (a :: kept, log'')
  end.

Definition srv_broadcast (event : string) (w : World) : World :=
  let '(kept, log) :=
    broadcast_loop event (srv_subscribers (g_srv w)) (net_log w) in
  {| G := G w;
     g_srv := {| srv_running := srv_running (g_srv w);
                 srv_subscribers := kept |};
     net_log := log |}.

(** *** Field writes on the engine *)

Definition set_masterGain (E : Engine F) (g : F) : Engine F :=
  {| E_sr := E_sr E; E_framesPerBuffer := E_framesPerBuffer E;
     E_masterGain := g; E_ch := E_ch E; E_slots := E_slots E;
     E_voices := E_voices E; E_chMono := E_chMono E |}.

Definition on_ch (E : Engine F) (i : Z) (f : Channel F -> Channel F)
  : Engine F :=
  {| E_sr := E_sr E; E_framesPerBuffer := E_framesPerBuffer E;
     E_masterGain := E_masterGain E; E_ch := upd (Z.to_nat i) f (E_ch E);
     E_slots := E_slots E; E_voices := E_voices E; E_chMono := E_chMono E |}.

Definition on_voice (E : Engine F) (i : Z) (f : Voice F -> Voice F)
  : Engine F :=
  {| E_sr := E_sr E; E_framesPerBuffer := E_framesPerBuffer E;
     E_masterGain := E_masterGain E; E_ch := E_ch E; E_slots := E_slots E;
     E_voices := upd (Z.to_nat i) f (E_voices E); E_chMono := E_chMono E |}.

Definition on_slot (E : Engine F) (i : Z) (f : SampleSlot F -> SampleSlot F)
  : Engine F :=
  {| E_sr := E_sr E; E_framesPerBuffer := E_framesPerBuffer E;
     E_masterGain := E_masterGain E; E_ch := E_ch E;
     E_slots := upd (Z.to_nat i) f (E_slots E);
     E_voices := E_voices E; E_chMono := E_chMono E |}.

Definition store_gain (g : F) (c : Channel F) : Channel F :=
  {| ch_gain := g; ch_pan := ch_pan c; ch_filt := ch_filt c |}.

Definition store_pan (p : F) (c : Channel F) : Channel F :=
  {| ch_gain := ch_gain c; ch_pan := p; ch_filt := ch_filt c |}.

Definition store_filt_cutoff (cutoff : F) (c : Channel F) : Channel F :=
  let f := ch_filt c in
  {| ch_gain := ch_gain c; ch_pan := ch_pan c;
     ch_filt :=
       {| f_type := f_type f; f_cutoff := cutoff; f_q := f_q f;
          f_ic1eq := f_ic1eq f; f_ic2eq := f_ic2eq f; f_g := f_g f;
          f_k := f_k f; f_sr := f_sr f; f_prev_cutoff := f_prev_cutoff f;
          f_prev_q := f_prev_q f |} |}.

Definition store_filter (type : Z) (cutoff q : F) (c : Channel F)
  : Channel F :=
  let f := ch_filt c in
  {| ch_gain := ch_gain c; ch_pan := ch_pan c;
     ch_filt :=
       {| f_type := type; f_cutoff := cutoff; f_q := q;
          f_ic1eq := f_ic1eq f; f_ic2eq := f_ic2eq f; f_g := f_g f;
          f_k := f_k f; f_sr := f_sr f; f_prev_cutoff := f_prev_cutoff f;
          f_prev_q := f_prev_q f |} |}.

Definition store_v_on (b : Z) (v : Voice F) : Voice F :=
  {| v_on := b; v_wave := v_wave v; v_freq := v_freq v; v_gain := v_gain v;
     v_assignedCh := v_assignedCh v; v_tauA := v_tauA v; v_tauB := v_tauB v;
     v_dutyBias := v_dutyBias v; v_spikes := v_spikes v;
     v_phase := v_phase v; v_sr := v_sr v; v_Astate := v_Astate v;
     v_Bstate := v_Bstate v |}.

Definition store_v_wave (x : Z) (v : Voice F) : Voice F :=
  {| v_on := v_on v; v_wave := x; v_freq := v_freq v; v_gain := v_gain v;
     v_assignedCh := v_assignedCh v; v_tauA := v_tauA v; v_tauB := v_tauB v;
     v_dutyBias := v_dutyBias v; v_spikes := v_spikes v;
     v_phase := v_phase v; v_sr := v_sr v; v_Astate := v_Astate v;
     v_Bstate := v_Bstate v |}.

Definition store_v_freq (x : F) (v : Voice F) : Voice F :=
  {| v_on := v_on v; v_wave := v_wave v; v_freq := x; v_gain := v_gain v;
     v_assignedCh := v_assignedCh v; v_tauA := v_tauA v; v_tauB := v_tauB v;
     v_dutyBias := v_dutyBias v; v_spikes := v_spikes v;
     v_phase := v_phase v; v_sr := v_sr v; v_Astate := v_Astate v;
     v_Bstate := v_Bstate v |}.

Definition store_v_gain (x : F) (v : Voice F) : Voice F :=
  {| v_on := v_on v; v_wave := v_wave v; v_freq := v_freq v; v_gain := x;
     v_assignedCh := v_assignedCh v; v_tauA := v_tauA v; v_tauB := v_tauB v;
     v_dutyBias := v_dutyBias v; v_spikes := v_spikes v;
     v_phase := v_phase v; v_sr := v_sr v; v_Astate := v_Astate v;
     v_Bstate := v_Bstate v |}.

Definition store_v_chan (x : Z) (v : Voice F) : Voice F :=
  {| v_on := v_on v; v_wave := v_wave v; v_freq := v_freq v;
     v_gain := v_gain v; v_assignedCh := x; v_tauA := v_tauA v;
     v_tauB := v_tauB v; v_dutyBias := v_dutyBias v;
     v_spikes := v_spikes v; v_phase := v_phase v; v_sr := v_sr v;
     v_Astate := v_Astate v; v_Bstate := v_Bstate v |}.

Definition store_v_tau (ta tb : F) (v : Voice F) : Voice F :=
  {| v_on := v_on v; v_wave := v_wave v; v_freq := v_freq v;
     v_gain := v_gain v; v_assignedCh := v_assignedCh v; v_tauA := ta;
     v_tauB := tb; v_dutyBias := v_dutyBias v; v_spikes := v_spikes v;
     v_phase := v_phase v; v_sr := v_sr v; v_Astate := v_Astate v;
     v_Bstate := v_Bstate v |}.

(** [atomic_fetch_add(&V->spikes, 1)] *)
Definition fetch_add_spikes (v : Voice F) : Voice F :=
  {| v_on := v_on v; v_wave := v_wave v; v_freq := v_freq v;
     v_gain := v_gain v; v_assignedCh := v_assignedCh v; v_tauA := v_tauA v;
     v_tauB := v_tauB v; v_dutyBias := v_dutyBias v;
     v_spikes := wrap_int (v_spikes v + 1); v_phase := v_phase v;
     v_sr := v_sr v; v_Astate := v_Astate v; v_Bstate := v_Bstate v |}.

Definition store_s_playing_pos (playing pos : Z) (s : SampleSlot F)
  : SampleSlot F :=
  {| s_assignedCh := s_assignedCh s; s_loaded := s_loaded s;
     s_playing := playing; s_loop := s_loop s; s_gain := s_gain s;
     s_data := s_data s; s_length := s_length s; s_pos := pos;
     s_haveDecoder := s_haveDecoder s |}.

Definition store_s_gain (g : F) (s : SampleSlot F) : SampleSlot F :=
  {| s_assignedCh := s_assignedCh s; s_loaded := s_loaded s;
     s_playing := s_playing s; s_loop := s_loop s; s_gain := g;
     s_data := s_data s; s_length := s_length s; s_pos := s_pos s;
     s_haveDecoder := s_haveDecoder s |}.

Definition store_s_chan (c : Z) (s : SampleSlot F) : SampleSlot F :=
  {| s_assignedCh := c; s_loaded := s_loaded s;
     s_playing := s_playing s; s_loop := s_loop s; s_gain := s_gain s;
     s_data := s_data s; s_length := s_length s; s_pos := s_pos s;
     s_haveDecoder := s_haveDecoder s |}.

Definition store_s_loop (l : Z) (s : SampleSlot F) : SampleSlot F :=
  {| s_assignedCh := s_assignedCh s; s_loaded := s_loaded s;
     s_playing := s_playing s; s_loop := l; s_gain := s_gain s;
     s_data := s_data s; s_length := s_length s; s_pos := s_pos s;
     s_haveDecoder := s_haveDecoder s |}.

Definition store_s_pos (pos : Z) (s : SampleSlot F) : SampleSlot F :=
  {| s_assignedCh := s_assignedCh s; s_loaded := s_loaded s;
     s_playing := s_playing s; s_loop := s_loop s; s_gain := s_gain s;
     s_data := s_data s; s_length := s_length s; s_pos := pos;
     s_haveDecoder := s_haveDecoder s |}.

(** *** The command interpreter (lines 405-766) *)

Definition tok (tokens : list string) (i : nat) : string :=
  nth i tokens EmptyString.

(** [snprintf(response, resp_size, ...)] with [resp_size = 4096], and
    [snprintf(event, sizeof(event), ...)] with [char event[256]]. *)
Definition reply (text : string) : string := snprintf 4096 text.
Definition event_line (text : string) : string := snprintf 256 text.

Definition the_slot (w : World) (i : Z) : SampleSlot F :=
  nth (Z.to_nat i) (E_slots (G w)) slot_init.

(** The path of [SAMPLE n LOAD] is rebuilt from the tokens 3, 4, ... with
    single spaces, into [char path[1024]]; [None] is the reply
    [ERROR Path too long]. *)
Fixpoint join_path (toks : list string) (first : bool) (path : string)
  : option string :=
  match toks with
  | [] => Some path
  | t :: rest =>
    let sep :=
      if first then Some path
      else if (1023 <=? String.length path + 1)%nat then None
           else Some (path ++ " ") in
    match sep with
    | None => None
    | Some p1 =>
      if (1023 <=? String.length p1 + String.length t)%nat then None
      else join_path rest false (p1 ++ t)
    end
  end.

Definition process_CH (tokens : list string) (w : World) : string * World :=
  let ntok := List.length tokens in
  if (ntok <? 3)%nat then (reply ("ERROR CH <n> <param> <value>" ++ NL), w)
  else
    let ch := atoi (tok tokens 1) in
    if (ch <? 1) || (ch >? NUM_CHANNELS)
    then (reply ("ERROR Invalid channel " ++ fmt_d ch ++ NL), w)
    else if String.eqb (tok tokens 2) "GAIN" then
      if (ntok <? 4)%nat then (reply ("ERROR Missing gain value" ++ NL), w)
      else
        let gain := clampf (atof h (tok tokens 3)) (flit 0) (flit 10) in
        let w1 := with_G w (on_ch (G w) (ch - 1) (store_gain gain)) in
        let response :=
          reply ("OK CH " ++ fmt_d ch ++ " GAIN " ++ fmt_f h 3 gain ++ NL) in
        let event :=
          event_line ("EVENT CHANNEL " ++ fmt_d ch ++ " GAIN "
                      ++ fmt_f h 3 gain ++ NL) in
        (response, srv_broadcast event w1)
    else if String.eqb (tok tokens 2) "PAN" then
      if (ntok <? 4)%nat then (reply ("ERROR Missing pan value" ++ NL), w)
      else
        let pan := clampf (atof h (tok tokens 3)) (flit (-1)) (flit 1) in
        let w1 := with_G w (on_ch (G w) (ch - 1) (store_pan pan)) in
        let response :=
          reply ("OK CH " ++ fmt_d ch ++ " PAN " ++ fmt_f h 3 pan ++ NL) in
        let event :=
          event_line ("EVENT CHANNEL " ++ fmt_d ch ++ " PAN "
                      ++ fmt_f h 3 pan ++ NL) in
        (response, srv_broadcast event w1)
    else if String.eqb (tok tokens 2) "FILTER" then
      if (ntok <? 6)%nat
      then (reply ("ERROR FILTER <type> <cutoff> <q>" ++ NL), w)
      else
        let type := clampi (atoi (tok tokens 3)) F_OFF F_BP in
        let cutoff := fmaxf (flit 20) (atof h (tok tokens 4)) in
        let q := fmaxf (flit 0.1) (atof h (tok tokens 5)) in
        let w1 :=
          with_G w (on_ch (G w) (ch - 1) (store_filter type cutoff q)) in
        (reply ("OK CH " ++ fmt_d ch ++ " FILTER " ++ fmt_d type ++ " "
                ++ fmt_f h 1 cutoff ++ " " ++ fmt_f h 3 q ++ NL), w1)
    else (reply ("ERROR Unknown CH param: " ++ tok tokens 2 ++ NL), w).

Definition process_VOICE (tokens : list string) (w : World)
  : string * World :=
  let ntok := List.length tokens in
  if (ntok <? 3)%nat then (reply ("ERROR VOICE <n> <cmd>" ++ NL), w)
  else
    let vi := atoi (tok tokens 1) in
    if (vi <? 1) || (vi >? NUM_VOICES)
    then (reply ("ERROR Invalid voice " ++ fmt_d vi ++ NL), w)
    else
      let V f := with_G w (on_voice (G w) (vi - 1) f) in
      if String.eqb (tok tokens 2) "ON" then
        (reply ("OK VOICE " ++ fmt_d vi ++ " ON" ++ NL),
         srv_broadcast (event_line ("EVENT VOICE " ++ fmt_d vi ++ " ON" ++ NL))
                       (V (store_v_on 1)))
      else if String.eqb (tok tokens 2) "OFF" then
        (reply ("OK VOICE " ++ fmt_d vi ++ " OFF" ++ NL),
         srv_broadcast (event_line ("EVENT VOICE " ++ fmt_d vi ++ " OFF" ++ NL))
                       (V (store_v_on 0)))
      else if String.eqb (tok tokens 2) "WAVE" then
        if (ntok <? 4)%nat then (reply ("ERROR Missing wave value" ++ NL), w)
        else
          let wave := if truthy (atoi (tok tokens 3)) then W_PULSE
                      else W_SINE in
          (reply ("OK VOICE " ++ fmt_d vi ++ " WAVE " ++ fmt_d wave ++ NL),
           V (store_v_wave wave))
      else if String.eqb (tok tokens 2) "FREQ" then
        if (ntok <? 4)%nat then (reply ("ERROR Missing frequency" ++ NL), w)
        else
          let freq := fmaxf (flit 1) (atof h (tok tokens 3)) in
          (reply ("OK VOICE " ++ fmt_d vi ++ " FREQ " ++ fmt_f h 2 freq ++ NL),
           V (store_v_freq freq))
      else if String.eqb (tok tokens 2) "GAIN" then
        if (ntok <? 4)%nat then (reply ("ERROR Missing gain" ++ NL), w)
        else
          let gain := clampf (atof h (tok tokens 3)) (flit 0) (flit 2) in
          (reply ("OK VOICE " ++ fmt_d vi ++ " GAIN " ++ fmt_f h 3 gain ++ NL),
           V (store_v_gain gain))
      else if String.eqb (tok tokens 2) "CHAN" then
        if (ntok <? 4)%nat then (reply ("ERROR Missing channel" ++ NL), w)
        else
          let ch := clampi (atoi (tok tokens 3)) 0 (NUM_CHANNELS - 1) in
          (reply ("OK VOICE " ++ fmt_d vi ++ " CHAN " ++ fmt_d ch ++ NL),
           V (store_v_chan ch))
      else if String.eqb (tok tokens 2) "SPIKE" then
        (reply ("OK VOICE " ++ fmt_d vi ++ " SPIKE" ++ NL),
         V fetch_add_spikes)
      else if String.eqb (tok tokens 2) "TAU" then
        if (ntok <? 5)%nat then (reply ("ERROR TAU <tau_a> <tau_b>" ++ NL), w)
        else
          let ta := fmaxf (flit 1e-4) (atof h (tok tokens 3)) in
          let tb := fmaxf (flit 1e-4) (atof h (tok tokens 4)) in
          (reply ("OK VOICE " ++ fmt_d vi ++ " TAU " ++ fmt_f h 4 ta ++ " "
                  ++ fmt_f h 4 tb ++ NL),
           V (store_v_tau ta tb))
      else (reply ("ERROR Unknown VOICE cmd: " ++ tok tokens 2 ++ NL), w).

Definition process_SAMPLE (tokens : list string) (w : World)
  : string * World :=
  let ntok := List.length tokens in
  if (ntok <? 3)%nat then (reply ("ERROR SAMPLE <n> <cmd>" ++ NL), w)
  else
    let si := atoi (tok tokens 1) in
    if (si <? 1) || (si >? NUM_SLOTS)
    then (reply ("ERROR Invalid sample slot " ++ fmt_d si ++ NL), w)
    else
      let S := the_slot w (si - 1) in
      let on_S f := with_G w (on_slot (G w) (si - 1) f) in
      if String.eqb (tok tokens 2) "LOAD" then
        if (ntok <? 4)%nat then (reply ("ERROR Missing path" ++ NL), w)
        else
          match join_path (skipn 3 tokens) true EmptyString with
          | None => (reply ("ERROR Path too long" ++ NL), w)
          | Some path =>
            let '(ret, S') :=
              slot_load_path S (decode_file h path (E_sr (G w))) in
            let w1 := on_S (fun _ => S') in
            if negb (ret =? 0)
            then (reply ("ERROR Failed to load: " ++ path ++ " (code "
                         ++ fmt_d ret ++ ")" ++ NL), w1)
            else (reply ("OK SAMPLE " ++ fmt_d si ++ " LOADED " ++ path ++ NL),
                  w1)
          end
      else if String.eqb (tok tokens 2) "TRIG" then
        if negb (truthy (s_loaded S))
        then (reply ("ERROR Sample " ++ fmt_d si ++ " not loaded" ++ NL), w)
        else
          (reply ("OK SAMPLE " ++ fmt_d si ++ " TRIG" ++ NL),
           srv_broadcast
             (event_line ("EVENT SAMPLE " ++ fmt_d si ++ " PLAYING" ++ NL))
             (on_S (store_s_playing_pos 1 0)))
      else if String.eqb (tok tokens 2) "STOP" then
        (reply ("OK SAMPLE " ++ fmt_d si ++ " STOP" ++ NL),
         on_S (store_s_playing_pos 0 0))
      else if String.eqb (tok tokens 2) "GAIN" then
        if (ntok <? 4)%nat then (reply ("ERROR Missing gain" ++ NL), w)
        else
          let gain := clampf (atof h (tok tokens 3)) (flit 0) (flit 10) in
          (reply ("OK SAMPLE " ++ fmt_d si ++ " GAIN " ++ fmt_f h 3 gain ++ NL),
           on_S (store_s_gain gain))
      else if String.eqb (tok tokens 2) "CHAN" then
        if (ntok <? 4)%nat then (reply ("ERROR Missing channel" ++ NL), w)
        else
          let ch := clampi (atoi (tok tokens 3)) 0 (NUM_CHANNELS - 1) in
          (reply ("OK SAMPLE " ++ fmt_d si ++ " CHAN " ++ fmt_d ch ++ NL),
           on_S (store_s_chan ch))
      else if String.eqb (tok tokens 2) "LOOP" then
        if (ntok <? 4)%nat
        then (reply ("ERROR Missing loop value (0 or 1)" ++ NL), w)
        else
          let loop := if truthy (atoi (tok tokens 3)) then 1 else 0 in
          (reply ("OK SAMPLE " ++ fmt_d si ++ " LOOP " ++ fmt_d loop ++ NL),
           on_S (store_s_loop loop))
      else if String.eqb (tok tokens 2) "SEEK" then
        if (ntok <? 4)%nat then (reply ("ERROR Missing seek time" ++ NL), w)
        else if negb (truthy (s_loaded S))
        then (reply ("ERROR Sample " ++ fmt_d si ++ " not loaded" ++ NL), w)
        else
          let time := fmaxf (flit 0) (atof h (tok tokens 3)) in
          let target0 := to_uint32 (time * of_int (E_sr (G w)))%flt in
          let target_pos :=
            if target0 >=? s_length S
            then (if s_length S >? 0 then s_length S - 1 else 0)
            else target0 in
          let actual_time :=
            (of_int target_pos / of_int (E_sr (G w)))%flt in
          (reply ("OK SAMPLE " ++ fmt_d si ++ " SEEK "
                  ++ fmt_f h 3 actual_time ++ NL),
           on_S (store_s_pos target_pos))
      else (reply ("ERROR Unknown SAMPLE cmd: " ++ tok tokens 2 ++ NL), w).

(** [process_command] after the tokenizer. *)
Definition process_tokens (tokens : list string) (w : World)
  : string * World :=
  let ntok := List.length tokens in
  if (ntok =? 0)%nat then (reply ("ERROR Empty command" ++ NL), w)
  else if String.eqb (tok tokens 0) "INIT" then (reply ("OK READY" ++ NL), w)
  else if String.eqb (tok tokens 0) "STATUS"
  then (reply ("OK STATUS running" ++ NL), w)
  else if String.eqb (tok tokens 0) "SUBSCRIBE" then
    if (ntok <? 2)%nat then (reply ("ERROR Missing socket path" ++ NL), w)
    else
      (reply ("OK Subscribed" ++ NL),
       {| G := G w; g_srv := srv_add_subscriber (tok tokens 1) (g_srv w);
          net_log := net_log w |})
  else if String.eqb (tok tokens 0) "MASTER" then
    if (ntok <? 2)%nat then (reply ("ERROR Missing gain value" ++ NL), w)
    else
      let gain := clampf (atof h (tok tokens 1)) (flit 0) (flit 10) in
      (reply ("OK MASTER " ++ fmt_f h 3 gain ++ NL),
       srv_broadcast (event_line ("EVENT MASTER " ++ fmt_f h 3 gain ++ NL))
                     (with_G w (set_masterGain (G w) gain)))
  else if String.eqb (tok tokens 0) "CH" then process_CH tokens w
  else if String.eqb (tok tokens 0) "VOICE" then process_VOICE tokens w
  else if String.eqb (tok tokens 0) "SAMPLE" then process_SAMPLE tokens w
  else if String.eqb (tok tokens 0) "QUIT" then
    (reply ("OK Shutting down" ++ NL),
     {| G := G w;
        g_srv := {| srv_running := 0;
                    srv_subscribers := srv_subscribers (g_srv w) |};
        net_log := net_log w |})
  else (reply ("ERROR Unknown command: " ++ tok tokens 0 ++ NL), w).

(** [process_command cmd] returns the text left in [response] and the state
    after the call. *)
Definition process_command (cmd : string) (w : World) : string * World :=
  process_tokens (tokenize cmd) w.

(** *** The OSC bridge (lines 888-988) *)

Fixpoint strip_prefix (pre s : string) : option string :=
  match pre, s with
  | EmptyString, _ => Some s
  | String a pre', String b s' =>
    if Ascii.eqb a b then strip_prefix pre' s' else None
  | _, _ => None
  end.

(** A scan set or [%s] conversion of width [n]: the longest prefix of at
    most [n] characters satisfying [p], and what follows it. *)
Fixpoint scan_while (p : ascii -> bool) (n : nat) (s : string)
  : string * string :=
  match n, s with
  | S n', String c r =>
    if p c then let '(a, b) := scan_while p n' r in (String c a, b)
    else (EmptyString, s)
  | _, _ => (EmptyString, s)
  end.

(** [sscanf(path, "/midi/mapped/%7[^/]/%63s", variant, semantic)]: [Some]
    of the two strings when the call returns 2. *)
Definition sscanf_mapped (path : string) : option (string * string) :=
  match strip_prefix "/midi/mapped/" (c_str path) with
  | None => None
  | Some r =>
    let '(variant, r1) := scan_while (fun c => negb (Ascii.eqb c "/")) 7 r in
    if String.eqb variant EmptyString then None
    else
      match r1 with
      | String "/" r2 =>
        let '(semantic, _) :=
          scan_while (fun c => negb (isspace c)) 63 (skip_space r2) in
        if String.eqb semantic EmptyString then None
        else Some (variant, semantic)
      | _ => None
      end
  end.

(** [osc_handle_mapped path value]: the return code and the state after the
    call; [value] is [argv[0]->f]. *)
Definition osc_handle_mapped (path : string) (value : F) (w : World)
  : Z * World :=
  match sscanf_mapped path with
  | None => (1, w)
  | Some (_, semantic) =>
    let E := G w in
    let E' :=
      if String.eqb semantic "VOLUME_1" then on_ch E 0 (store_gain value)
      else if String.eqb semantic "VOLUME_2" then on_ch E 1 (store_gain value)
      else if String.eqb semantic "VOLUME_3" then on_ch E 2 (store_gain value)
      else if String.eqb semantic "VOLUME_4" then on_ch E 3 (store_gain value)
      else if String.eqb semantic "PAN_1"
      then on_ch E 0 (store_pan (value * flit 2 - flit 1)%flt)
      else if String.eqb semantic "PAN_2"
      then on_ch E 1 (store_pan (value * flit 2 - flit 1)%flt)
      else if String.eqb semantic "FILTER_CUTOFF"
      then on_ch E 0 (store_filt_cutoff (flit 100 + value * flit 7900)%flt)
      else if String.eqb semantic "MASTER_VOLUME" then set_masterGain E value
      else E in
    (0, with_G w E')
  end.

(** A [%d] conversion: white space, an optional sign, at least one digit;
    the value as [strtol] and the conversion to [int] give it. *)
Definition scan_int (s : string) : option (Z * string) :=
  let s := skip_space s in
  let '(neg, body) :=
    match s with
    | String "-" r => (true, r)
    | String "+" r => (false, r)
    | _ => (false, s)
    end in
  match body with
  | String c _ =>
    match digit_of c with
    | Some _ =>
      let v := read_digits body 0 in
      Some (wrap_int (Z.max LONG_MIN (Z.min LONG_MAX (if neg then - v else v))),
            skip_digits body)
    | None => None
    end
  | EmptyString => None
  end.

(** [sscanf(path, pre "%d/%d", &a, &b)]: [Some] of the two integers when
    the call returns 2. *)
Definition sscanf_two_ints (pre path : string) : option (Z * Z) :=
  match strip_prefix pre (c_str path) with
  | None => None
  | Some r =>
    match scan_int r with
    | Some (a, String "/" r1) =>
      match scan_int r1 with
      | Some (b, _) => Some (a, b)
      | None => None
      end
    | _ => None
    end
  end.

(** [osc_handle_raw_cc path value] (lines 936-956); [value] is
    [argv[0]->i]. *)
Definition osc_handle_raw_cc (path : string) (value : Z) (w : World)
  : Z * World :=
  match sscanf_two_ints "/midi/raw/cc/" path with
  | None => (1, w)
  | Some (channel, controller) =>
    let normalized := (of_int value / flit 127)%flt in
    if (channel =? 1) && (controller =? 7)
    then (0, with_G w (set_masterGain (G w) normalized))
    else (0, w)
  end.

(** [osc_handle_raw_note path velocity] (lines 959-988). *)
Definition osc_handle_raw_note (path : string) (velocity : Z) (w : World)
  : Z * World :=
  match sscanf_two_ints "/midi/raw/note/" path with
  | None => (1, w)
  | Some (_, note) =>
    if velocity >? 0 then
      if (note =? 36) && truthy (s_loaded (the_slot w 0))
      then (0, with_G w (on_slot (G w) 0 (store_s_playing_pos 1 0)))
      else if (note =? 38) && truthy (s_loaded (the_slot w 1))
      then (0, with_G w (on_slot (G w) 1 (store_s_playing_pos 1 0)))
      else (0, w)
    else (0, w)
  end.

End Control.

Arguments World F : clear implicits.

(** ** The binary32 instance: what the program computes

    IEEE-754 single precision, round to nearest even, on the Standard
    Library's [spec_float] with [prec = 24] and [emax = 128]. *)

Module Binary32.

Local Open Scope Z_scope.

Definition float32 : Type := spec_float.
Definition prec : Z := 24.
Definition emax : Z := 128.

(** The nearest [float] to the rational [q]. *)
Definition lit (q : Q) : float32 :=
  match Qnum q with
  | Z0 => S754_zero false
  | Zpos n =>
    SFdiv prec emax (S754_finite false n 0) (S754_finite false (Qden q) 0)
  | Zneg n =>
    SFdiv prec emax (S754_finite true n 0) (S754_finite false (Qden q) 0)
  end.

Definition of_Z (z : Z) : float32 := binary_normalize prec emax z 0 false.

(** Truncation toward zero, for the values on which the conversion is
    defined in C; 0 elsewhere. *)
Definition to_u32 (x : float32) : Z :=
  match x with
  | S754_finite false m e =>
    wrap_u32 (if e >=? 0 then Zpos m * 2 ^ e else Zpos m / 2 ^ (- e))
  | _ => 0
  end.

Definition is_nan (x : float32) : bool :=
  match x with S754_nan => true | _ => false end.

(** IEEE maxNum: a NaN operand is ignored. *)
Definition maxf (x y : float32) : float32 :=
  match x, y with
  | S754_nan, _ => y
  | _, S754_nan => x
  | _, _ => if SFltb x y then y else x
  end.

(** Double precision, used by the mono downmix only. *)
Definition narrow (x : spec_float) : float32 :=
  match x with
  | S754_finite s m e => binary_round prec emax s m e
  | _ => x
  end.

Definition mean64 (xs : list float32) (ch : Z) : float32 :=
  let acc := fold_left (SFadd 53 1024) xs (S754_zero false) in
  narrow (SFdiv 53 1024 acc (binary_normalize 53 1024 ch 0 false)).

#[export] Instance ops : FloatOps float32 :=
  {| flit := lit;
     of_int := of_Z;
     to_uint32 := to_u32;
     fadd := SFadd prec emax;
     fsub := SFsub prec emax;
     fmul := SFmul prec emax;
     fdiv := SFdiv prec emax;
     feqb := SFeqb;
     fltb := SFltb;
     fleb := SFleb;
     fmaxf := maxf;
     sqrtf := SFsqrt prec emax;
     downmix := mean64 |}.

(** [printf] with the conversion [%.pf]: the exact value of the argument,
    rounded to [p] decimals, ties to even. *)
Definition round_half_even (num den : Z) : Z :=
  let q := num / den in
  match (2 * (num mod den) ?= den) with
  | Lt => q
  | Gt => q + 1
  | Eq => if Z.even q then q else q + 1
  end.

Fixpoint frac_digits (p : nat) (n : Z) : string :=
  match p with
  | O => EmptyString
  | S p' =>
    (frac_digits p' (n / 10)
     ++ String (Ascii.ascii_of_nat (48 + Z.to_nat (n mod 10))) EmptyString)%string
  end.

Definition fmt_fixed (p : nat) (neg : bool) (scaled : Z) : string :=
  let unit := 10 ^ Z.of_nat p in
  ((if neg then "-" else EmptyString)
   ++ fmt_d (scaled / unit)
   ++ (match p with O => EmptyString | _ => "." end)
   ++ frac_digits p (scaled mod unit))%string.

Definition printf_f (p : nat) (x : float32) : string :=
  match x with
  | S754_nan => "nan"%string
  | S754_infinity s => if s then "-inf"%string else "inf"%string
  | S754_zero s => fmt_fixed p s 0
  | S754_finite s m e =>
    let num := Zpos m * 10 ^ Z.of_nat p in
    fmt_fixed p s
      (if e >=? 0 then num * 2 ^ e else round_half_even num (2 ^ (- e)))
  end.

(** A host [atof] on plain decimal numerals (an optional sign, digits, an
    optional fraction): the nearest [double], converted to [float]. *)
Fixpoint read_fraction (s : string) (num den : Z) : Z * Z :=
  match s with
  | String c r =>
    match digit_of c with
    | Some d => read_fraction r (10 * num + d) (10 * den)
    | None => (num, den)
    end
  | EmptyString => (num, den)
  end.

Definition atof_decimal (s : string) : float32 :=
  let s := skip_space s in
  let '(neg, body) :=
    match s with
    | String "-" r => (true, r)
    | String "+" r => (false, r)
    | _ => (false, s)
    end in
  let ip := read_digits body 0 in
  let '(num, den) :=
    match skip_digits body with
    | String "." r => read_fraction r ip 1
    | _ => (ip, 1)
    end in
  match num with
  | Zpos n =>
    narrow (SFdiv 53 1024 (S754_finite neg n 0)
                  (S754_finite false (Z.to_pos den) 0))
  | _ => S754_zero neg
  end.

End Binary32.

(** ** The real-number instance: the arithmetic of the design

    The same program text, with every operation exact. *)

Module Exact.

Local Open Scope R_scope.

Definition Rltb (x y : R) : bool := if Rlt_dec x y then true else false.
Definition Rleb (x y : R) : bool := if Rle_dec x y then true else false.
Definition Reqb (x y : R) : bool := if Req_dec_T x y then true else false.

#[export] Instance ops : FloatOps R :=
  {| flit := Q2R;
     of_int := IZR;
     to_uint32 := fun x => wrap_u32 (Int_part x);
     fadd := Rplus;
     fsub := Rminus;
     fmul := Rmult;
     fdiv := Rdiv;
     feqb := Reqb;
     fltb := Rltb;
     fleb := Rleb;
     fmaxf := Rmax;
     sqrtf := sqrt;
     downmix := fun xs ch => fold_left Rplus xs 0 / IZR ch |}.

#[export] Instance lm : Libm R :=
  {| expf := exp; sinf := sin; tanf := tan |}.

(** The distance between the duty cycle and the bias when the two decay
    registers hold [c * a^n] and [c * b^n]. *)
Definition deviation (bias c a b : R) (n : nat) : R :=
  Rabs (voice_duty bias (c * a ^ n) (c * b ^ n) - bias).

End Exact.

(** ** Runs used to state the properties *)

Section Runs.

Context {F : Type} {ops : FloatOps F} {lm : Libm F}.

(** [n] consecutive calls of [slot_tick]: the samples and the slot after. *)
Fixpoint slot_run (n : nat) (s : SampleSlot F)
  : option (list F * SampleSlot F) :=
  match n with
  | O => Some ([], s)
  | S n' =>
    match slot_tick s with
    | None => None
    | Some (x, s') =>
      match slot_run n' s' with
      | None => None
      | Some (xs, s'') => Some (x :: xs, s'')
      end
    end
  end.

(** What can happen to one voice between two observations: the command
    thread executes [VOICE n SPIKE] (line 609), or the render thread calls
    [voice_tick]. *)
Inductive voice_event : Type := EvSpike | EvTick.

(** A sequence of such events: the samples returned by the ticks and the
    voice after. *)
Fixpoint voice_events (evs : list voice_event) (v : Voice F)
  : list F * Voice F :=
  match evs with
  | [] => ([], v)
  | EvSpike :: rest => voice_events rest (fetch_add_spikes v)
  | EvTick :: rest =>
    let '(x, v') := voice_tick v in
    let '(xs, v'') := voice_events rest v' in
    (x :: xs, v'')
  end.

Definition count_spikes (evs : list voice_event) : Z :=
  Z.of_nat (List.length (filter (fun e => match e with EvSpike => true
                                         | EvTick => false end) evs)).

(** The voice [v] with [c] pending spikes. *)
Definition with_spikes (c : Z) (v : Voice F) : Voice F :=
  {| v_on := v_on v; v_wave := v_wave v; v_freq := v_freq v;
     v_gain := v_gain v; v_assignedCh := v_assignedCh v; v_tauA := v_tauA v;
     v_tauB := v_tauB v; v_dutyBias := v_dutyBias v; v_spikes := c;
     v_phase := v_phase v; v_sr := v_sr v; v_Astate := v_Astate v;
     v_Bstate := v_Bstate v |}.

(** The buffer of a slot and its [length] field agree, and the cursor and
    the length are [uint32_t] values. *)
Definition slot_wf (s : SampleSlot F) : Prop :=
  0 <= s_pos s < 2 ^ 32 /\ 0 <= s_length s < 2 ^ 32 /\
  forall data, s_data s = Some data ->
               Z.of_nat (List.length data) = s_length s.

(** The voice after [n] consecutive calls of [voice_tick]. *)
Fixpoint voice_ticks (n : nat) (v : Voice F) : Voice F :=
  match n with
  | O => v
  | S n' => voice_ticks n' (snd (voice_tick v))
  end.

End Runs.

(** ** Concrete inputs *)

Module Demo.

Import Binary32 Exact.
Local Open Scope Z_scope.

(** A host: decimal [atof], exact [printf], the Linux [sun_path] size, no
    decodable file, every datagram delivered. *)
Definition host : Host float32 :=
  {| atof := atof_decimal;
     fmt_f := printf_f;
     sun_path_size := 108;
     decode_file := fun _ _ =>
       {| dec_init_ok := false; dec_frames := None; dec_channels := 0;
          dec_pcm := []; dec_malloc_tmp_ok := true;
          dec_malloc_data_ok := true |};
     sendto := fun _ _ _ => Sent |}.

(** A two-sample slot, loaded and playing. *)
Definition slot2 : SampleSlot float32 :=
  {| s_assignedCh := 0; s_loaded := 1; s_playing := 1; s_loop := 0;
     s_gain := lit 1; s_data := Some [lit 0.5; lit 0.25]; s_length := 2;
     s_pos := 0; s_haveDecoder := 1 |}.

(** The engine as [engine_init] leaves it, at the default rate and period. *)
Definition engine0 : Engine float32 := engine_init 48000 512.

Definition world0 : World float32 :=
  {| G := engine0;
     g_srv := {| srv_running := 1; srv_subscribers := [] |};
     net_log := [] |}.

(** The same with [slot2] in slot 1. *)
Definition world_loaded : World float32 :=
  with_G world0 (on_slot engine0 0 (fun _ => slot2)).

(** The same with two subscribers. *)
Definition world_subs : World float32 :=
  {| G := engine0;
     g_srv := {| srv_running := 1;
                 srv_subscribers := [ {| sun_path := "/tmp/a.sock" |};
                                      {| sun_path := "/tmp/b.sock" |} ] |};
     net_log := [] |}.

(** A subscriber list at capacity: 32 distinct endpoints. *)
Definition full_subs : list sockaddr_un :=
  map (fun n => {| sun_path := "/tmp/s" ++ fmt_d (Z.of_nat n) |}) (seq 0 32).

Definition world_full : World float32 :=
  {| G := engine0;
     g_srv := {| srv_running := 1; srv_subscribers := full_subs |};
     net_log := [] |}.

(** A small libm for binary32: truncated Taylor series, evaluated in
    binary32 by Horner's rule. *)
Definition horner (coeffs : list float32) (x : float32) : float32 :=
  fold_right (fun c acc => (c + x * acc)%flt) (lit 0) coeffs.

#[export] Instance libm32 : Libm float32 :=
  {| expf := horner [lit 1; lit 1; lit (1 # 2); lit (1 # 6); lit (1 # 24);
                     lit (1 # 120)];
     sinf := horner [lit 0; lit 1; lit 0; lit (-1 # 6); lit 0; lit (1 # 120)];
     tanf := horner [lit 0; lit 1; lit 0; lit (1 # 3); lit 0; lit (2 # 15)] |}.

(** A voice as [voice_init] leaves it at 48 kHz, switched on, with one
    pending spike. *)
Definition spiked_voice : Voice R :=
  with_spikes 1 (store_v_on 1 (voice_init (of_int 48000))).

(** The first voice of [engine0], which is off. *)
Definition voice0 : Voice float32 := voice_init (of_int 48000).

(** A channel as [channel_init] leaves it, and the same with pan 2, in exact
    arithmetic and in binary32. *)
Definition channel0 : Channel R := channel_init (of_int 48000).
Definition channel_pan2 : Channel R := store_pan 2%R channel0.
Definition channel32_pan2 : Channel float32 :=
  store_pan (lit 2) (channel_init (of_int 48000)).

(** An endpoint path longer than [sun_path]. *)
Fixpoint xs (n : nat) : string :=
  match n with
  | O => EmptyString
  | S n' => String "x" (xs n')
  end.

Definition long_path : string := "/tmp/" ++ xs 120.

End Demo.

(** ** The datagram thread (lines 768-801) *)

Section Server.

Context {F : Type} {ops : FloatOps F}.
Variable h : Host F.

Local Open Scope Z_scope.

(** What one [recvfrom] gives the thread: a failure ([n <= 0] with [errno]
    set), or a datagram with what the call leaves in [client_addr], whose
    family is [AF_UNIX] or not. *)
Inductive recv_result : Type :=
| RecvErr
| Recv (payload : string) (client : sockaddr_un) (is_unix : bool).

(** The loop of [dgram_thread] over the results of its successive [recvfrom]
    calls: the state, the replies handed to [sendto], and the results not
    consumed because [g_srv.running] was found clear.  [recvfrom] fills at
    most [sizeof(buf)-1] bytes; the reply is sent with [strlen(response)]
    bytes. *)
Fixpoint dgram_thread (inbox : list recv_result) (w : World F)
  (replies : list datagram) : World F * list datagram * list recv_result :=
  match inbox with
  | [] => (w, replies, [])
  | r :: rest =>
    if negb (truthy (srv_running (g_srv w))) then (w, replies, inbox)
    else
      match r with
      | RecvErr => dgram_thread rest w replies
      | Recv payload client is_unix =>
        let buf := substring 0 4095 payload in
        if (String.length buf =? 0)%nat then dgram_thread rest w replies
        else
          let '(response, w') := process_command h buf w in
          dgram_thread rest w'
            (if is_unix then (replies ++ [(client, c_str response)])%list
             else replies)
      end
  end.

End Server.

(** ** Predicates and observations used to state the properties *)

Section Observations.

Context {F : Type} {ops : FloatOps F}.

Local Open Scope Z_scope.

(** A slot the render thread can tick without leaving its buffer: buffer
    and length agree, cursor and length are [uint32_t] values, and an empty
    buffer is not looped. *)
Definition slot_safe (s : SampleSlot F) : Prop :=
  slot_wf s /\ (s_length s = 0 -> s_loop s = 0 \/ s_data s = None).

(** The values published by the control threads, as opposed to the state
    owned by the render thread (filter registers and cached coefficients,
    cursors, playing flags, pending spikes, phases, decay registers). *)
Definition channel_params (c : Channel F) : F * F * Z * F * F * F :=
  (ch_gain c, ch_pan c, f_type (ch_filt c), f_cutoff (ch_filt c),
   f_q (ch_filt c), f_sr (ch_filt c)).

Definition slot_params (s : SampleSlot F)
  : Z * Z * Z * F * option (list F) * Z :=
  (s_assignedCh s, s_loaded s, s_loop s, s_gain s, s_data s, s_length s).

Definition voice_params (v : Voice F)
  : Z * Z * F * F * Z * F * F * F * F :=
  (v_on v, v_wave v, v_freq v, v_gain v, v_assignedCh v, v_tauA v, v_tauB v,
   v_dutyBias v, v_sr v).

Definition engine_params (E : Engine F) :=
  (E_sr E, E_framesPerBuffer E, E_masterGain E,
   map channel_params (E_ch E), map slot_params (E_slots E),
   map voice_params (E_voices E)).

(** The sizes of the three arrays and the two fixed settings. *)
Definition engine_shape (E : Engine F) : Z * Z * nat * nat * nat :=
  (E_sr E, E_framesPerBuffer E, List.length (E_ch E),
   List.length (E_slots E), List.length (E_voices E)).

(** The tokens joined with single spaces after [path]. *)
Definition joined (path : string) (toks : list string) : string :=
  fold_left (fun acc t => acc ++ " " ++ t) toks path.

(** Every character of [s] satisfies [p]. *)
Fixpoint string_forall (p : ascii -> bool) (s : string) : bool :=
  match s with
  | EmptyString => true
  | String c r => p c && string_forall p r
  end.

(** A character that can stand inside a token: not one of the delimiters
    given to [strtok], and not the terminator. *)
Definition good_char (c : ascii) : bool :=
  negb (is_delim c) && negb (Ascii.eqb c NUL).

(** Whether [dgram_thread] answers a received datagram, and to whom. *)
Definition answered (r : recv_result) : bool :=
  match r with
  | Recv p _ true => negb (String.eqb p EmptyString)
  | _ => false
  end.

Definition sender (r : recv_result) : sockaddr_un :=
  match r with
  | Recv _ c _ => c
  | RecvErr => {| sun_path := EmptyString |}
  end.

(** The two kinds of reply: one that starts with OK, and one that starts
    with ERROR, which comes with an unchanged state unless the command is a
    LOAD. *)
Definition well_formed_reply (w : World F) (tokens : list string)
  (r : string * World F) : Prop :=
  (prefix "OK" (fst r) = true /\ prefix "ERROR" (fst r) = false
   \/ prefix "ERROR" (fst r) = true
      /\ (snd r = w \/ String.eqb (tok tokens 2) "LOAD" = true))%string.

(** A slot whose buffer, when it has one, is not empty. *)
Definition slot_sound (s : SampleSlot F) : Prop :=
  slot_wf s /\ forall data, s_data s = Some data -> data <> [].

(** A decoder that reports between 1 and [UINT32_MAX] frames and yields at
    least one. *)
Definition decoder_sound (d : decoder_env F) : Prop :=
  forall frames, dec_frames d = Some frames ->
                 0 < frames < 2 ^ 32 /\ dec_pcm d <> [].

End Observations.

(** ** Histories: sequences of calls into the engine *)

Section Histories.

Context {F : Type} {ops : FloatOps F} {lm : Libm F}.
Variable h : Host F.

Local Open Scope Z_scope.

(** One call into the engine: a command datagram, one of the three OSC
    methods, or one period of the render callback. *)
Inductive engine_op : Type :=
| OpCommand (cmd : string)
| OpMapped (path : string) (value : F)
| OpRawCC (path : string) (value : Z)
| OpRawNote (path : string) (velocity : Z)
| OpRender (nframes : nat).

(** [None] when the render callback reads outside a sample buffer. *)
Definition engine_step (w : World F) (op : engine_op) : option (World F) :=
  match op with
  | OpCommand cmd => Some (snd (process_command h cmd w))
  | OpMapped path value => Some (snd (osc_handle_mapped path value w))
  | OpRawCC path value => Some (snd (osc_handle_raw_cc path value w))
  | OpRawNote path velocity => Some (snd (osc_handle_raw_note path velocity w))
  | OpRender nframes =>
    match data_cb (G w) nframes with
    | Some (E', _) => Some (with_G w E')
    | None => None
    end
  end.

Fixpoint engine_run (history : list engine_op) (w : World F)
  : option (World F) :=
  match history with
  | [] => Some w
  | op :: rest =>
    match engine_step w op with
    | Some w' => engine_run rest w'
    | None => None
    end
  end.

(** What can happen to one Mixer Channel: the writes of the command
    interpreter and of the OSC bridge, and one rendered sample. *)
Inductive channel_event : Type :=
| SetGain (g : F)
| SetPan (p : F)
| SetCutoff (cutoff : F)
| SetFilter (type : Z) (cutoff q : F)
| Sample (mono : F).

Definition channel_step (c : Channel F) (ev : channel_event) : Channel F :=
  match ev with
  | SetGain g => store_gain g c
  | SetPan p => store_pan p c
  | SetCutoff cutoff => store_filt_cutoff cutoff c
  | SetFilter type cutoff q => store_filter type cutoff q c
  | Sample mono => fst (channel_stereo c mono (flit 0, flit 0))
  end.

Definition channel_history (evs : list channel_event) (c : Channel F)
  : Channel F :=
  fold_left channel_step evs c.

(** The coefficients [g] and [k] as lines 78-80 compute them from the
    published cutoff and Q. *)
Definition svf_fresh_g (f : SVF F) : F :=
  tanf (M_PI_f * (f_cutoff f / (f_sr f * flit 0.5)))%flt.

Definition svf_fresh_k (f : SVF F) : F :=
  (flit 1 / clampf (f_q f) (flit 0.1) (flit 20))%flt.

End Histories.

Arguments engine_op F : clear implicits.
Arguments channel_event F : clear implicits.

(** The cached [g] and [k] are those of the cached cutoff and Q, or the
    cache still holds the mark [-1] that [svf_init] leaves in [prev_q]
    (exact arithmetic). *)
Definition svf_cache_ok (f : SVF R) : Prop :=
  (f_g f = tan (@M_PI_f R Exact.ops * (f_prev_cutoff f / (f_sr f * Q2R 0.5)))
   /\ f_k f = Q2R 1 / f_prev_q f)%R
  \/ f_prev_q f = Q2R (-1).

(** ** Inputs of the further runs *)

Module Fixtures.

Import Binary32 Exact.
Local Open Scope Z_scope.

(** [Demo.slot2] with the loop flag set. *)
Definition slot2_loop : SampleSlot float32 := store_s_loop 1 Demo.slot2.

(** A host like [Demo.host] on which every file decodes to two stereo
    frames. *)
Definition host_wav : Host float32 :=
  {| atof := atof_decimal;
     fmt_f := printf_f;
     sun_path_size := 108;
     decode_file := fun _ _ =>
       {| dec_init_ok := true; dec_frames := Some 2; dec_channels := 2;
          dec_pcm := [[lit 0.5; lit 0.5]; [lit 0.25; lit 0.25]];
          dec_malloc_tmp_ok := true; dec_malloc_data_ok := true |};
     sendto := fun _ _ _ => Sent |}.

(** A file that decodes to no frame at all. *)
Definition empty_file : decoder_env float32 :=
  {| dec_init_ok := true; dec_frames := Some 0; dec_channels := 2;
     dec_pcm := []; dec_malloc_tmp_ok := true; dec_malloc_data_ok := true |}.

(** A session: load, loop, trigger, render, seek, a note event, render. *)
Definition session : list (engine_op float32) :=
  [ OpCommand "SAMPLE 1 LOAD /tmp/a.wav";
    OpCommand "SAMPLE 1 LOOP 1";
    OpCommand "SAMPLE 1 TRIG";
    OpRender 5;
    OpCommand "SAMPLE 1 SEEK 0.00002";
    OpRawNote "/midi/raw/note/1/36" 100;
    OpMapped "/midi/mapped/a/VOLUME_1" (lit 0.5);
    OpRender 3 ]%string.

End Fixtures.

(** Case analysis on every test of a command handler. *)
Ltac split_ifs :=
  repeat match goal with
         | |- context [if ?b then _ else _] => destruct b eqn:?
         | |- context [match join_path ?a ?b ?c with _ => _ end] =>
           destruct (join_path a b c)
         | |- context [let '(_, _) := ?p in _] => destruct p
         end.

(** ** Properties of the DSP leaves *)

Section DSP_Properties.

Context {F : Type} {ops : FloatOps F} {lm : Libm F}.

Local Open Scope Z_scope.

Lemma truthy_true (z : Z) : z <> 0 -> truthy z = true.
Proof.
  intro Hz. unfold truthy. destruct (Z.eqb_spec z 0); [contradiction | reflexivity].
Qed.

Lemma truthy_false (z : Z) : z = 0 -> truthy z = false.
Proof. intros ->. reflexivity. Qed.

Lemma wrap_u32_small (z : Z) : 0 <= z < 2 ^ 32 -> wrap_u32 z = z.
Proof. intro Hz. unfold wrap_u32. apply Z.mod_small. exact Hz. Qed.

Lemma wrap_int_small (z : Z) : - 2 ^ 31 <= z <= INT_MAX -> wrap_int z = z.
Proof.
  unfold wrap_int, INT_MAX. intro Hz.
  rewrite Z.mod_small by lia. lia.
Qed.

(** [clampf] leaves alone whatever is not below [lo] and not above [hi]. *)
Lemma clampf_inside (x lo hi : F) :
  (x <? lo)%flt = false -> (hi <? x)%flt = false -> clampf x lo hi = x.
Proof. intros H1 H2. unfold clampf. rewrite H1, H2. reflexivity. Qed.


(** The statements of [channel_stereo], in order. *)
Lemma channel_stereo_unfold (c : Channel F) (mono L R : F) :
  let y := fst (svf_process (ch_filt c) mono) in
  let m := (y * ch_gain c)%flt in
  let p := clampf (ch_pan c) (flit (-1)) (flit 1) in
  channel_stereo c mono (L, R) =
  ({| ch_gain := ch_gain c; ch_pan := ch_pan c;
      ch_filt := snd (svf_process (ch_filt c) mono) |},
   ((L + m * sqrtf (flit 0.5 * (flit 1 - p)))%flt,
    (R + m * sqrtf (flit 0.5 * (flit 1 + p)))%flt)).
Proof.
  cbv zeta. unfold channel_stereo.
  destruct (svf_process (ch_filt c) mono) as [y filt']. reflexivity.
Qed.

(** C8, as the code has it: the channel filters the mono sample, scales the
    result by the gain, and adds [m * sqrtf(0.5*(1-p))] to the left and
    [m * sqrtf(0.5*(1+p))] to the right accumulator, where [p] is the pan
    read in this call and clamped to [-1, 1]; nothing but the filter state
    is kept from one call to the next.  A published pan inside [-1, 1] is
    used as it is. *)
Theorem channel_stereo_equal_power (c : Channel F) (mono L R : F) :
  let y := fst (svf_process (ch_filt c) mono) in
  let m := (y * ch_gain c)%flt in
  let p := clampf (ch_pan c) (flit (-1)) (flit 1) in
  channel_stereo c mono (L, R) =
  ({| ch_gain := ch_gain c; ch_pan := ch_pan c;
      ch_filt := snd (svf_process (ch_filt c) mono) |},
   ((L + m * sqrtf (flit 0.5 * (flit 1 - p)))%flt,
    (R + m * sqrtf (flit 0.5 * (flit 1 + p)))%flt))
  /\ ((ch_pan c <? flit (-1))%flt = false ->
      (flit 1 <? ch_pan c)%flt = false ->
      p = ch_pan c).
Proof.
  cbv zeta. split.
  - apply channel_stereo_unfold.
  - intros Hlo Hhi. apply clampf_inside; assumption.
Qed.

(** *** Sample slot *)

Lemma slot_tick_idle (s : SampleSlot F) :
  s_playing s = 0 \/ s_loaded s = 0 \/ s_data s = None ->
  slot_tick s = Some (flit 0, s).
Proof.
  intros [H | [H | H]]; unfold slot_tick.
  - rewrite H. reflexivity.
  - rewrite H. rewrite orb_true_r. reflexivity.
  - rewrite H. destruct (negb (truthy (s_playing s)) || negb (truthy (s_loaded s)));
      reflexivity.
Qed.

Lemma slot_run_idle (n : nat) (s : SampleSlot F) :
  s_playing s = 0 ->
  slot_run n s = Some (repeat (flit 0) n, s).
Proof.
  intro H. induction n as [| n IH]; simpl.
  - reflexivity.
  - rewrite slot_tick_idle by (left; exact H). rewrite IH. reflexivity.
Qed.


(** *** Voice *)

(** One active tick: the published parameters are kept, each decay register,
    after the drain, is scaled by its factor, and the duty cycle is computed
    from the two scaled registers. *)
Lemma voice_tick_decay (u : Voice F) :
  v_on u <> 0 ->
  let u' := snd (voice_tick u) in
  v_on u' = v_on u /\ v_tauA u' = v_tauA u /\ v_tauB u' = v_tauB u
  /\ v_sr u' = v_sr u /\ v_dutyBias u' = v_dutyBias u
  /\ v_Astate (voice_drain u') = (v_Astate (voice_drain u) * voice_da u)%flt
  /\ v_Bstate (voice_drain u') = (v_Bstate (voice_drain u) * voice_db u)%flt
  /\ voice_tick_duty u
     = voice_duty (v_dutyBias u)
                  (v_Astate (voice_drain u) * voice_da u)%flt
                  (v_Bstate (voice_drain u) * voice_db u)%flt.
Proof.
  intro Hon. cbv zeta. unfold voice_tick, voice_tick_duty.
  rewrite (truthy_true _ Hon). cbn [negb].
  unfold voice_run. cbn. repeat split.
Qed.

Lemma voice_ticks_S (n : nat) (v : Voice F) :
  voice_ticks (S n) v = snd (voice_tick (voice_ticks n v)).
Proof.
  revert v. induction n as [| n IH]; intro v.
  - reflexivity.
  - change (voice_ticks (S (S n)) v)
      with (voice_ticks (S n) (snd (voice_tick v))).
    rewrite IH. reflexivity.
Qed.

End DSP_Properties.

(** ** Properties of the control plane *)

Section Control_Properties.

Context {F : Type} {ops : FloatOps F} {lm : Libm F}.
Variable h : Host F.

Local Open Scope Z_scope.
Local Arguments reply : simpl never.
Local Arguments event_line : simpl never.
Local Arguments fmt_d : simpl never.
Local Arguments atoi : simpl never.

Lemma nth_error_upd {A : Type} (f : A -> A) (l : list A) (i : nat) (x : A) :
  nth_error l i = Some x -> nth_error (upd i f l) i = Some (f x).
Proof.
  revert i. induction l as [| y l IH]; intros [| i] Hx; simpl in *;
    try discriminate.
  - injection Hx as ->. reflexivity.
  - apply IH. exact Hx.
Qed.

(** [srv_broadcast] hands exactly one datagram per subscriber to [sendto],
    in list order, and writes nothing to the engine. *)
Lemma broadcast_loop_log (event : string) (subs : list sockaddr_un)
  (log : list datagram) :
  snd (broadcast_loop h event subs log)
  = (log ++ map (fun a => (a, event)) subs)%list.
Proof.
  revert log. induction subs as [| a rest IH]; intro log; simpl.
  - rewrite app_nil_r. reflexivity.
  - specialize (IH (log ++ [(a, event)])%list).
    destruct (broadcast_loop h event rest (log ++ [(a, event)])%list)
      as [kept log''].
    simpl in IH. rewrite <- app_assoc in IH. simpl in IH.
    destruct (is_dead (sendto h log a event)); exact IH.
Qed.

Lemma srv_broadcast_log (event : string) (w : World F) :
  net_log (srv_broadcast h event w)
  = (net_log w
     ++ map (fun a => (a, event)) (srv_subscribers (g_srv w)))%list.
Proof.
  unfold srv_broadcast.
  rewrite <- broadcast_loop_log.
  destruct (broadcast_loop h event (srv_subscribers (g_srv w)) (net_log w));
    reflexivity.
Qed.

Lemma srv_broadcast_G (event : string) (w : World F) :
  G (srv_broadcast h event w) = G w.
Proof.
  unfold srv_broadcast.
  destruct (broadcast_loop h event (srv_subscribers (g_srv w)) (net_log w));
    reflexivity.
Qed.

Lemma index_test (n lo hi : Z) :
  lo <= n <= hi -> (n <? lo) || (n >? hi) = false.
Proof.
  intro H. destruct (Z.ltb_spec n lo); [lia |].
  destruct (n >? hi) eqn:E; [| reflexivity].
  apply Z.gtb_lt in E. lia.
Qed.

(** A reply built from a text that starts with ERROR starts with ERROR. *)
Lemma reply_ERROR (text : string) :
  prefix "ERROR" (reply ("ERROR" ++ text)) = true.
Proof.
  unfold reply, snprintf. simpl.
  destruct (substring 0 4090 text); reflexivity.
Qed.

(** C6: [SAMPLE n TRIG] on a slot that is not loaded answers
    [ERROR Sample n not loaded] and changes nothing at all, so neither the
    playing flag nor the cursor; on a loaded slot it answers
    [OK SAMPLE n TRIG] and leaves the slot with playing = 1 and cursor 0. *)
Theorem sample_trig_requires_loaded (w : World F) (t : string)
  (S : SampleSlot F) :
  1 <= atoi t <= NUM_SLOTS ->
  nth_error (E_slots (G w)) (Z.to_nat (atoi t - 1)) = Some S ->
  (s_loaded S = 0 ->
   process_tokens h ["SAMPLE"; t; "TRIG"] w
   = (reply ("ERROR Sample " ++ fmt_d (atoi t) ++ " not loaded" ++ NL), w)
   /\ prefix "ERROR" (fst (process_tokens h ["SAMPLE"; t; "TRIG"] w)) = true)
  /\
  (s_loaded S <> 0 ->
   fst (process_tokens h ["SAMPLE"; t; "TRIG"] w)
   = reply ("OK SAMPLE " ++ fmt_d (atoi t) ++ " TRIG" ++ NL)
   /\ nth_error (E_slots (G (snd (process_tokens h ["SAMPLE"; t; "TRIG"] w))))
                (Z.to_nat (atoi t - 1))
      = Some {| s_assignedCh := s_assignedCh S; s_loaded := s_loaded S;
                s_playing := 1; s_loop := s_loop S; s_gain := s_gain S;
                s_data := s_data S; s_length := s_length S; s_pos := 0;
                s_haveDecoder := s_haveDecoder S |}).
Proof.
  intros Hidx HS.
  assert (Hslot : the_slot w (atoi t - 1) = S).
  { unfold the_slot. apply nth_error_nth. exact HS. }
  unfold process_tokens, process_SAMPLE, tok. simpl.
  rewrite (index_test _ _ _ Hidx). rewrite Hslot.
  split; intro Hl.
  - rewrite (truthy_false _ Hl). simpl. split; [reflexivity |].
    apply (reply_ERROR (" Sample " ++ fmt_d (atoi t) ++ " not loaded" ++ NL)).
  - rewrite (truthy_true _ Hl). simpl. split; [reflexivity |].
    rewrite srv_broadcast_G. simpl.
    apply (nth_error_upd (store_s_playing_pos 1 0)). exact HS.
Qed.

(** *** Pending spikes *)

Lemma voice_tick_off (v : Voice F) :
  v_on v = 0 -> voice_tick v = (flit 0, v).
Proof. intro H. unfold voice_tick. rewrite H. reflexivity. Qed.

Lemma voice_events_off (evs : list voice_event) (v : Voice F) :
  v_on v = 0 ->
  0 <= v_spikes v ->
  v_spikes v + count_spikes evs <= INT_MAX ->
  voice_events evs v
  = (repeat (flit 0) (List.length (filter (fun e => match e with
                                                  | EvSpike => false
                                                  | EvTick => true
                                                  end) evs)),
     with_spikes (v_spikes v + count_spikes evs) v).
Proof.
  revert v. induction evs as [| e evs IH]; intros v Hon Hc Hmax.
  - simpl. unfold count_spikes. simpl. rewrite Z.add_0_r.
    destruct v; reflexivity.
  - destruct e; cbn [voice_events filter].
    + assert (Hcnt : count_spikes (EvSpike :: evs) = 1 + count_spikes evs).
      { unfold count_spikes. cbn [filter List.length].
        rewrite Nat2Z.inj_succ. lia. }
      rewrite Hcnt in *.
      assert (Hnn : 0 <= count_spikes evs) by (unfold count_spikes; lia).
      assert (Hs1 : v_spikes (fetch_add_spikes v) = v_spikes v + 1).
      { cbn [fetch_add_spikes v_spikes]. apply wrap_int_small.
        unfold INT_MAX in *. lia. }
      rewrite IH; [| exact Hon | rewrite Hs1; lia | rewrite Hs1; lia].
      rewrite Hs1.
      replace (v_spikes v + (1 + count_spikes evs))
        with (v_spikes v + 1 + count_spikes evs) by lia.
      reflexivity.
    + assert (Hcnt : count_spikes (EvTick :: evs) = count_spikes evs)
        by reflexivity.
      rewrite Hcnt in *.
      rewrite (voice_tick_off v Hon). rewrite IH by assumption. reflexivity.
Qed.

(** C10: [VOICE n SPIKE] is a fetch-and-add of 1 on the pending-spike counter
    of voice [n], whatever its on flag.  While the voice is off, every tick
    returns 0 and leaves the voice as it is, so after any interleaving of
    SPIKE commands and ticks the counter holds the earlier count plus the
    number of commands and nothing else has changed.  The first tick after
    the voice is switched on zeroes the counter and the whole count enters
    both decay registers, before they are scaled by [da] and [db]. *)
Theorem spikes_accumulate_while_off (w : World F) (t : string)
  (v : Voice F) (evs : list voice_event) :
  1 <= atoi t <= NUM_VOICES ->
  nth_error (E_voices (G w)) (Z.to_nat (atoi t - 1)) = Some v ->
  v_on v = 0 ->
  0 <= v_spikes v ->
  v_spikes v + count_spikes evs <= INT_MAX ->
  let total := v_spikes v + count_spikes evs in
  let v' := snd (voice_events evs v) in
  let v'' := snd (voice_tick (store_v_on 1 v')) in
  nth_error (E_voices (G (snd (process_tokens h ["VOICE"; t; "SPIKE"] w))))
            (Z.to_nat (atoi t - 1))
  = Some (fetch_add_spikes v)
  /\ voice_tick v = (flit 0, v)
  /\ Forall (fun x => x = flit 0) (fst (voice_events evs v))
  /\ v' = with_spikes total v
  /\ v_spikes v'' = 0
  /\ (0 < total ->
      v_Astate v'' = ((v_Astate v + of_int total) * voice_da v)%flt
      /\ v_Bstate v'' = ((v_Bstate v + of_int total) * voice_db v)%flt).
Proof.
  intros Hidx Hv Hon Hc Hmax total v' v''.
  assert (Hev := voice_events_off evs v Hon Hc Hmax).
  subst v''. subst v'. rewrite Hev. simpl. fold total.
  split.
  { unfold process_tokens, process_VOICE, tok. simpl.
    rewrite (index_test _ _ _ Hidx). simpl.
    apply (nth_error_upd fetch_add_spikes). exact Hv. }
  split; [apply voice_tick_off; exact Hon |].
  split; [apply Forall_forall; intros x Hx; apply repeat_spec in Hx; exact Hx |].
  split; [reflexivity |].
  unfold voice_tick, voice_run, voice_drain. simpl.
  split; [reflexivity |].
  intro Hpos. destruct (Z.gtb_spec total 0); [| lia].
  split; reflexivity.
Qed.

(** *** Loading a sample *)

(** Whatever the decoder and the allocator answer, a slot that comes out
    of [slot_load_path] with loaded set has a buffer of exactly [length]
    samples and the code is 0; a nonzero code leaves the slot empty. *)
Lemma slot_load_path_outcome (S : SampleSlot F) (d : decoder_env F) :
  let code := fst (slot_load_path S d) in
  let S' := snd (slot_load_path S d) in
  (code = 0 /\ s_loaded S' = 1
   /\ exists data, s_data S' = Some data
                   /\ Z.of_nat (List.length data) = s_length S')
  \/
  ((code = -1 \/ code = -2 \/ code = -3 \/ code = -4)
   /\ s_loaded S' = 0 /\ s_playing S' = 0 /\ s_data S' = None
   /\ s_haveDecoder S' = 0
   /\ s_assignedCh S' = s_assignedCh S /\ s_loop S' = s_loop S
   /\ s_gain S' = s_gain S /\ s_pos S' = s_pos S
   /\ (code <> -4 -> s_length S' = s_length S)).
Proof.
  cbv zeta. unfold slot_load_path.
  destruct (dec_init_ok d); simpl.
  2:{ right. repeat split; auto. }
  destruct (dec_frames d) as [frames |]; simpl.
  2:{ right. repeat split; auto. }
  destruct (dec_malloc_tmp_ok d); simpl.
  2:{ right. repeat split; auto. }
  destruct (dec_malloc_data_ok d); simpl.
  2:{ right. repeat split; auto. intro Hc. contradiction Hc. reflexivity. }
  left. split; [reflexivity |]. split; [reflexivity |].
  eexists. split; [reflexivity |].
  rewrite length_map, length_firstn.
  set (n := List.length (firstn (Z.to_nat frames) (dec_pcm d))).
  assert (Hm : 0 <= wrap_u32 (Z.of_nat n) <= Z.of_nat n).
  { unfold wrap_u32. split.
    - apply Z.mod_pos_bound. lia.
    - apply Z.mod_le; lia. }
  lia.
Qed.

(** C2, as the code has it: when [SAMPLE n LOAD path] fails, the reply is
    [ERROR Failed to load: path (code c)] with [c] one of -1, -2, -3, -4, and
    the slot is left empty: buffer released, loaded and playing cleared.
    Channel, loop, gain and cursor keep their values, and so does the length
    unless the code is -4.  After any load, a slot with loaded set has a
    buffer of exactly [length] samples. *)
Theorem load_failure_leaves_slot_empty (w : World F) (t p : string)
  (rest : list string) (path : string) (S : SampleSlot F) :
  1 <= atoi t <= NUM_SLOTS ->
  nth_error (E_slots (G w)) (Z.to_nat (atoi t - 1)) = Some S ->
  join_path (p :: rest) true EmptyString = Some path ->
  let d := decode_file h path (E_sr (G w)) in
  let code := fst (slot_load_path S d) in
  let r := process_tokens h ("SAMPLE" :: t :: "LOAD" :: p :: rest) w in
  nth_error (E_slots (G (snd r))) (Z.to_nat (atoi t - 1))
  = Some (snd (slot_load_path S d))
  /\ (s_loaded (snd (slot_load_path S d)) <> 0 ->
      exists data, s_data (snd (slot_load_path S d)) = Some data
                   /\ Z.of_nat (List.length data)
                      = s_length (snd (slot_load_path S d)))
  /\ (code <> 0 ->
      fst r = reply ("ERROR Failed to load: " ++ path ++ " (code "
                     ++ fmt_d code ++ ")" ++ NL)
      /\ prefix "ERROR" (fst r) = true
      /\ (code = -1 \/ code = -2 \/ code = -3 \/ code = -4)
      /\ snd (slot_load_path S d)
         = {| s_assignedCh := s_assignedCh S; s_loaded := 0; s_playing := 0;
              s_loop := s_loop S; s_gain := s_gain S; s_data := None;
              s_length := s_length (snd (slot_load_path S d));
              s_pos := s_pos S; s_haveDecoder := 0 |}
      /\ (code <> -4 -> s_length (snd (slot_load_path S d)) = s_length S)).
Proof.
  intros Hidx HS Hpath d code r.
  assert (Hslot : the_slot w (atoi t - 1) = S).
  { unfold the_slot. apply nth_error_nth. exact HS. }
  assert (Hr : r = (if negb (code =? 0)
                    then reply ("ERROR Failed to load: " ++ path ++ " (code "
                                ++ fmt_d code ++ ")" ++ NL)
                    else reply ("OK SAMPLE " ++ fmt_d (atoi t) ++ " LOADED "
                                ++ path ++ NL),
                    with_G w (on_slot (G w) (atoi t - 1)
                                      (fun _ => snd (slot_load_path S d))))).
  { subst r. unfold process_tokens, process_SAMPLE, tok.
    cbn [List.length Nat.eqb Nat.ltb Nat.leb nth String.eqb Ascii.eqb
         Bool.eqb skipn].
    rewrite (index_test _ _ _ Hidx). rewrite Hslot.
    cbn [String.eqb Ascii.eqb Bool.eqb].
    rewrite Hpath. fold d.
    subst code. destruct (slot_load_path S d) as [ret S']. cbn [fst snd].
    destruct (negb (ret =? 0)); reflexivity. }
  destruct (slot_load_path_outcome S d) as [Hok | Hfail]; cbv zeta in *;
    fold code in Hok || fold code in Hfail.
  - destruct Hok as (Hc & Hl & Hd).
    split; [| split].
    + rewrite Hr. cbn [snd with_G G on_slot E_slots].
      exact (nth_error_upd (fun _ => snd (slot_load_path S d)) _ _ S HS).
    + intros _. exact Hd.
    + intro Hne. contradiction.
  - destruct Hfail as (Hc & Hl & Hp & Hd & Hh & Ha & Hlo & Hg & Hps & Hlen).
    split; [| split].
    + rewrite Hr. cbn [snd with_G G on_slot E_slots].
      exact (nth_error_upd (fun _ => snd (slot_load_path S d)) _ _ S HS).
    + intro Hne. contradiction.
    + intro Hne. rewrite Hr. cbn [fst].
      destruct (Z.eqb_spec code 0) as [E | _]; [contradiction |].
      cbn [negb].
      split; [reflexivity |].
      split; [apply (reply_ERROR (" Failed to load: " ++ path ++ " (code "
                                   ++ fmt_d code ++ ")" ++ NL)) |].
      split; [exact Hc |].
      split; [| exact Hlen].
      destruct (snd (slot_load_path S d)); cbn in *. congruence.
Qed.

(** *** Subscribing *)

Lemma substring_all (s : string) (n : nat) :
  (String.length s <= n)%nat -> substring 0 n s = s.
Proof.
  revert n. induction s as [| c s IH]; intros [| n] Hn; simpl in *;
    try reflexivity; try lia.
  rewrite IH by lia. reflexivity.
Qed.

Lemma existsb_path (p : string) (subs : list sockaddr_un) :
  existsb (fun a => String.eqb (sun_path a) p) subs = true
  <-> In {| sun_path := p |} subs.
Proof.
  rewrite existsb_exists. split.
  - intros ([q] & Hin & Heq). simpl in Heq.
    apply String.eqb_eq in Heq. subst q. exact Hin.
  - intro Hin. exists {| sun_path := p |}. split; [exact Hin |].
    simpl. apply String.eqb_refl.
Qed.


End Control_Properties.

(** ** Properties of the stored values, in binary32 *)

Section Binary32_Properties.

Import Binary32.
Variable h : Host float32.

Local Open Scope Z_scope.
Local Arguments reply : simpl never.
Local Arguments event_line : simpl never.
Local Arguments fmt_d : simpl never.
Local Arguments atoi : simpl never.

(** The comparison of [spec_float] is antisymmetric. *)
Lemma SFcompare_antisym (x y : float32) :
  SFcompare y x = option_map CompOpp (SFcompare x y).
Proof.
  destruct x as [[] | [] | | [] mx ex], y as [[] | [] | | [] my ey];
    simpl; try reflexivity;
    rewrite (Z.compare_antisym ey ex); destruct (ey ?= ex); simpl;
    try reflexivity;
    rewrite (Pos.compare_cont_antisym mx my Eq); reflexivity.
Qed.

Lemma SFcompare_defined (x y : float32) :
  is_nan x = false -> is_nan y = false -> SFcompare x y <> None.
Proof.
  destruct x, y; simpl; intros; try discriminate.
Qed.

(** What is not below [y] and is not a NaN is at or above [y]. *)
Lemma not_ltb_leb (x y : float32) :
  is_nan x = false -> is_nan y = false ->
  SFltb x y = false -> SFleb y x = true.
Proof.
  intros Hx Hy Hlt. unfold SFltb, SFleb in *.
  rewrite SFcompare_antisym.
  pose proof (SFcompare_defined x y Hx Hy) as Hd.
  destruct (SFcompare x y) as [[ | | ] |]; simpl;
    try reflexivity; try discriminate; contradiction.
Qed.

Lemma clampf_bounds (x lo hi : float32) :
  is_nan x = false -> is_nan lo = false -> is_nan hi = false ->
  SFleb lo hi = true ->
  SFleb lo (clampf x lo hi) = true /\ SFleb (clampf x lo hi) hi = true.
Proof.
  intros Hx Hlo Hhi Hle. unfold clampf. cbn [fltb ops].
  assert (Hrefl : forall y, is_nan y = false -> SFleb y y = true).
  { intros y Hy. apply not_ltb_leb; try assumption.
    unfold SFltb. pose proof (SFcompare_antisym y y) as Ha.
    destruct (SFcompare y y) as [[ | | ] |]; simpl in Ha;
      try reflexivity; discriminate. }
  destruct (SFltb x lo) eqn:E1.
  - split; [apply Hrefl; exact Hlo | exact Hle].
  - destruct (SFltb hi x) eqn:E2.
    + split; [exact Hle | apply Hrefl; exact Hhi].
    + split; apply not_ltb_leb; assumption.
Qed.

(** [fmaxf(lo, x)] is at or above [lo], for every [x], a NaN included. *)
Lemma maxf_floor (lo x : float32) :
  is_nan lo = false -> SFleb lo (maxf lo x) = true.
Proof.
  intro Hlo.
  assert (Hrefl : SFleb lo lo = true).
  { apply not_ltb_leb; try assumption.
    unfold SFltb. pose proof (SFcompare_antisym lo lo) as Ha.
    destruct (SFcompare lo lo) as [[ | | ] |]; simpl in Ha;
      try reflexivity; discriminate. }
  unfold maxf. destruct lo; try discriminate; destruct x; try exact Hrefl;
    match goal with
    | |- SFleb ?a (if SFltb ?a ?b then _ else _) = true =>
      destruct (SFltb a b) eqn:E; [| exact Hrefl];
      unfold SFltb in E; unfold SFleb;
      destruct (SFcompare a b) as [[ | | ] |]; try discriminate; reflexivity
    end.
Qed.



End Binary32_Properties.

(** ** The decay model in exact arithmetic *)

Section Exact_Properties.

Import Exact.
Local Open Scope R_scope.

Lemma Q2R_m1 : Q2R (-1) = -1.
Proof. unfold Q2R; simpl; lra. Qed.

Lemma Q2R_tiny : Q2R 1e-4 = 1 / 10000.
Proof. unfold Q2R; simpl; lra. Qed.

Lemma Q2R_quarter : Q2R 0.25 = 1 / 4.
Proof. unfold Q2R; simpl; lra. Qed.

Lemma Q2R_lo : Q2R 0.01 = 1 / 100.
Proof. unfold Q2R; simpl; lra. Qed.

Lemma Q2R_hi : Q2R 0.99 = 99 / 100.
Proof. unfold Q2R; simpl; lra. Qed.

(** Each decay factor [exp(-1/(max(1e-4, tau) * sr))] lies strictly between
    0 and 1, and grows with [tau]. *)
Lemma decay_factor_range (tau sr : R) :
  0 < sr -> 0 < exp (Q2R (-1) / (Rmax (Q2R 1e-4) tau * sr)) < 1.
Proof.
  intro Hsr. rewrite Q2R_m1, Q2R_tiny. split; [apply exp_pos |].
  assert (Ht : 0 < Rmax (1 / 10000) tau).
  { apply Rlt_le_trans with (1 / 10000); [lra | apply Rmax_l]. }
  set (x := Rmax (1 / 10000) tau) in *.
  assert (Hp : 0 < x * sr) by (apply Rmult_lt_0_compat; assumption).
  assert (Hi : 0 < / (x * sr)) by (apply Rinv_0_lt_compat; exact Hp).
  assert (He : exp (-1 / (x * sr)) < exp 0).
  { apply exp_increasing. unfold Rdiv. lra. }
  rewrite exp_0 in He. exact He.
Qed.

Lemma decay_factor_mono (t1 t2 sr : R) :
  0 < sr -> t1 <= t2 ->
  exp (Q2R (-1) / (Rmax (Q2R 1e-4) t1 * sr))
  <= exp (Q2R (-1) / (Rmax (Q2R 1e-4) t2 * sr)).
Proof.
  intros Hsr Ht. rewrite Q2R_m1, Q2R_tiny.
  assert (H1 : 0 < Rmax (1 / 10000) t1).
  { apply Rlt_le_trans with (1 / 10000); [lra | apply Rmax_l]. }
  assert (H12 : Rmax (1 / 10000) t1 <= Rmax (1 / 10000) t2).
  { apply Rle_max_compat_l. exact Ht. }
  set (x1 := Rmax (1 / 10000) t1) in *.
  set (x2 := Rmax (1 / 10000) t2) in *.
  assert (Hle : -1 / (x1 * sr) <= -1 / (x2 * sr)).
  { assert (Hp1 : 0 < x1 * sr) by (apply Rmult_lt_0_compat; assumption).
    assert (Hp2 : x1 * sr <= x2 * sr) by (apply Rmult_le_compat_r; lra).
    assert (Hi : / (x2 * sr) <= / (x1 * sr))
      by (apply Rinv_le_contravar; assumption).
    unfold Rdiv. lra. }
  destruct Hle as [Hlt | Heq].
  - left. apply exp_increasing. exact Hlt.
  - right. rewrite Heq. reflexivity.
Qed.

Section Decay.

Variables a b c bias : R.
Hypothesis Ha : 0 < a.
Hypothesis Hab : a <= b.
Hypothesis Hb : b < 1.
Hypothesis Hc : 0 < c.
Hypothesis Hbias : Q2R 0.01 <= bias <= Q2R 0.99.

Lemma pow_le_ab (n : nat) : a ^ n <= b ^ n.
Proof. apply pow_incr. lra. Qed.

(** With [a <= b] the duty cycle sits at or below the bias, and only the
    lower clamp can act. *)
Lemma deviation_eq (n : nat) :
  deviation bias c a b n
  = bias - Rmax (1 / 100) (bias + 1 / 4 * (c * a ^ n - c * b ^ n)).
Proof.
  unfold deviation, voice_duty, clampf. cbn [fltb fadd fmul fsub flit ops].
  rewrite Q2R_quarter, Q2R_lo, Q2R_hi. rewrite Q2R_lo, Q2R_hi in Hbias.
  pose proof (pow_le_ab n) as Hp.
  assert (Hk : c * a ^ n - c * b ^ n <= 0) by nra.
  unfold Rltb, Rmax.
  destruct (Rlt_dec (bias + 1 / 4 * (c * a ^ n - c * b ^ n)) (1 / 100));
    destruct (Rle_dec (1 / 100) (bias + 1 / 4 * (c * a ^ n - c * b ^ n)));
    try lra.
  - rewrite Rabs_left1 by lra. lra.
  - destruct (Rlt_dec (99 / 100) (bias + 1 / 4 * (c * a ^ n - c * b ^ n)));
      [lra |].
    rewrite Rabs_left1 by lra. lra.
Qed.

Lemma deviation_bound (n : nat) :
  0 <= deviation bias c a b n <= 1 / 4 * c * b ^ n.
Proof.
  rewrite deviation_eq. rewrite Q2R_lo, Q2R_hi in Hbias.
  pose proof (pow_le_ab n) as Hp.
  assert (Han : 0 < a ^ n) by (apply pow_lt; exact Ha).
  assert (Hk : c * a ^ n - c * b ^ n <= 0) by nra.
  unfold Rmax.
  destruct (Rle_dec (1 / 100) (bias + 1 / 4 * (c * a ^ n - c * b ^ n))); nra.
Qed.

(** The deviation shrinks from one tick to the next exactly when the slow
    register has started to lose more than the fast one. *)
Lemma deviation_step (n : nat) :
  a ^ n * (1 - a) <= b ^ n * (1 - b) ->
  deviation bias c a b (S n) <= deviation bias c a b n.
Proof.
  intro Hstep. rewrite !deviation_eq. simpl pow.
  assert (Hk : c * a ^ n - c * b ^ n
               <= c * (a * a ^ n) - c * (b * b ^ n)) by nra.
  unfold Rmax.
  destruct (Rle_dec (1 / 100)
                    (bias + 1 / 4 * (c * (a * a ^ n) - c * (b * b ^ n))));
    destruct (Rle_dec (1 / 100) (bias + 1 / 4 * (c * a ^ n - c * b ^ n)));
    lra.
Qed.

Lemma deviation_tends_to_0 (eps : R) :
  0 < eps ->
  exists N, forall n, (N <= n)%nat -> deviation bias c a b n < eps.
Proof.
  intro Heps.
  assert (Hy : 0 < 4 * eps / c) by (apply Rdiv_lt_0_compat; lra).
  destruct (pow_lt_1_zero b) with (y := 4 * eps / c) as [N HN].
  - rewrite Rabs_right; lra.
  - exact Hy.
  - exists N. intros n Hn. specialize (HN n Hn).
    assert (Hbn : 0 < b ^ n) by (apply pow_lt; lra).
    rewrite Rabs_right in HN by lra.
    destruct (deviation_bound n) as [_ Hd].
    apply Rle_lt_trans with (1 / 4 * c * b ^ n); [exact Hd |].
    assert (Hm : c * b ^ n < c * (4 * eps / c))
      by (apply Rmult_lt_compat_l; assumption).
    replace (c * (4 * eps / c)) with (4 * eps) in Hm by (field; lra).
    lra.
Qed.

Lemma deviation_eventually_decreasing :
  exists N, forall n, (N <= n)%nat ->
                      deviation bias c a b (S n) <= deviation bias c a b n.
Proof.
  destruct Hab as [Hlt | Heq].
  - set (r := a / b). set (y := (1 - b) / (1 - a)).
    assert (Hr : 0 < r < 1).
    { unfold r. split.
      - apply Rdiv_lt_0_compat; lra.
      - apply (Rmult_lt_reg_r b); [lra |]. unfold Rdiv.
        rewrite Rmult_assoc, Rinv_l by lra. lra. }
    assert (Hy : 0 < y) by (unfold y; apply Rdiv_lt_0_compat; lra).
    destruct (pow_lt_1_zero r) with (y := y) as [N HN].
    + rewrite Rabs_right; lra.
    + exact Hy.
    + exists N. intros n Hn. specialize (HN n Hn). apply deviation_step.
      assert (Hrn : 0 < r ^ n) by (apply pow_lt; lra).
      rewrite Rabs_right in HN by lra.
      assert (Hbn : 0 < b ^ n) by (apply pow_lt; lra).
      assert (Han : a ^ n = r ^ n * b ^ n).
      { unfold r. rewrite <- Rpow_mult_distr. f_equal. field. lra. }
      rewrite Han.
      assert (Hy1 : y * (1 - a) = 1 - b) by (unfold y; field; lra).
      assert (H1 : r ^ n * (1 - a) <= y * (1 - a))
        by (apply Rmult_le_compat_r; lra).
      rewrite Hy1 in H1. nra.
  - exists 0%nat. intros n _. apply deviation_step. subst b. lra.
Qed.

End Decay.

(** The registers of a voice that starts at rest with one pending spike. *)
Lemma single_spike_registers (v : Voice R) (n : nat) :
  v_on v <> 0%Z -> v_spikes v = 1%Z -> v_Astate v = 0 -> v_Bstate v = 0 ->
  let u := voice_ticks n v in
  v_on u = v_on v /\ v_tauA u = v_tauA v /\ v_tauB u = v_tauB v
  /\ v_sr u = v_sr v /\ v_dutyBias u = v_dutyBias v
  /\ v_Astate (voice_drain u) = 1 * voice_da v ^ n
  /\ v_Bstate (voice_drain u) = 1 * voice_db v ^ n.
Proof.
  intros Hon Hs HA HB. induction n as [| n IH].
  - cbn [voice_ticks]. cbv zeta. repeat split.
    + unfold voice_drain. cbn [v_Astate]. rewrite Hs, HA. cbn. lra.
    + unfold voice_drain. cbn [v_Bstate]. rewrite Hs, HB. cbn. lra.
  - cbv zeta in *. rewrite voice_ticks_S.
    destruct IH as (Ion & ItA & ItB & Isr & Ibias & IA & IB).
    assert (Hon' : v_on (voice_ticks n v) <> 0%Z) by (rewrite Ion; exact Hon).
    destruct (voice_tick_decay (voice_ticks n v) Hon')
      as (Don & DtA & DtB & Dsr & Dbias & DA & DB & _).
    assert (Hda : voice_da (voice_ticks n v) = voice_da v)
      by (unfold voice_da; rewrite ItA, Isr; reflexivity).
    assert (Hdb : voice_db (voice_ticks n v) = voice_db v)
      by (unfold voice_db; rewrite ItB, Isr; reflexivity).
    repeat split; try congruence.
    + rewrite DA, IA, Hda. cbn [fmul ops].
      generalize (voice_da v). intro a. simpl. ring.
    + rewrite DB, IB, Hdb. cbn [fmul ops].
      generalize (voice_db v). intro b. simpl. ring.
Qed.

Lemma single_spike_duty (v : Voice R) (n : nat) :
  v_on v <> 0%Z -> v_spikes v = 1%Z -> v_Astate v = 0 -> v_Bstate v = 0 ->
  voice_tick_duty (voice_ticks n v)
  = voice_duty (v_dutyBias v) (1 * voice_da v ^ S n) (1 * voice_db v ^ S n).
Proof.
  intros Hon Hs HA HB.
  destruct (single_spike_registers v n Hon Hs HA HB)
    as (Ion & ItA & ItB & Isr & Ibias & IA & IB).
  assert (Hon' : v_on (voice_ticks n v) <> 0%Z) by (rewrite Ion; exact Hon).
  destruct (voice_tick_decay (voice_ticks n v) Hon')
    as (_ & _ & _ & _ & _ & _ & _ & Hduty).
  rewrite Hduty, IA, IB, Ibias.
  assert (Hda : voice_da (voice_ticks n v) = voice_da v)
    by (unfold voice_da; rewrite ItA, Isr; reflexivity).
  assert (Hdb : voice_db (voice_ticks n v) = voice_db v)
    by (unfold voice_db; rewrite ItB, Isr; reflexivity).
  rewrite Hda, Hdb. cbn [fmul ops].
  generalize (voice_da v) (voice_db v). intros a b. simpl. f_equal; ring.
Qed.


(** The two decay factors of the default voice at 48 kHz. *)
Lemma spiked_da : voice_da Demo.spiked_voice = exp (-1 / 240).
Proof.
  unfold voice_da, Demo.spiked_voice, with_spikes, store_v_on, voice_init.
  cbn [v_tauA v_sr fmaxf fdiv fmul flit of_int expf ops lm].
  rewrite Q2R_m1. f_equal.
  assert (H : Rmax (Q2R 1e-4) (Q2R 0.005) = 1 / 200).
  { unfold Q2R; simpl. unfold Rmax. destruct (Rle_dec _ _); lra. }
  rewrite H. field.
Qed.

Lemma spiked_db : voice_db Demo.spiked_voice = exp (-1 / 960).
Proof.
  unfold voice_db, Demo.spiked_voice, with_spikes, store_v_on, voice_init.
  cbn [v_tauB v_sr fmaxf fdiv fmul flit of_int expf ops lm].
  rewrite Q2R_m1. f_equal.
  assert (H : Rmax (Q2R 1e-4) (Q2R 0.020) = 1 / 50).
  { unfold Q2R; simpl. unfold Rmax. destruct (Rle_dec _ _); lra. }
  rewrite H. field.
Qed.

Lemma spiked_bias : v_dutyBias Demo.spiked_voice = 1 / 2.
Proof.
  unfold Demo.spiked_voice, with_spikes, store_v_on, voice_init.
  cbn [v_dutyBias flit ops]. unfold Q2R; simpl; lra.
Qed.

Lemma spiked_rest :
  v_Astate Demo.spiked_voice = 0 /\ v_Bstate Demo.spiked_voice = 0.
Proof.
  unfold Demo.spiked_voice, with_spikes, store_v_on, voice_init.
  cbn [v_Astate v_Bstate flit ops]. unfold Q2R; simpl; lra.
Qed.

End Exact_Properties.

(** ** Concrete runs *)

Section Concrete_Runs.

Import Binary32 Exact.
Local Existing Instance Demo.libm32.
Local Open Scope Z_scope.

(** The literals of the program, as binary32 values: 0.1f is 0x3DCCCCCD,
    0.01f is 0x3C23D70A, 0.99f is 0x3F7D70A4, 1e-4f is 0x38D1B717,
    (float)M_PI is 0x40490FDB and TWO_PI is 0x40C90FDB. *)
Example binary32_literals :
  lit 0.1 = S754_finite false 13421773 (-27)
  /\ lit 0.01 = S754_finite false 10737418 (-30)
  /\ lit 0.99 = S754_finite false 16609444 (-24)
  /\ lit 1e-4 = S754_finite false 13743895 (-37)
  /\ M_PI_f = S754_finite false 13176795 (-22)
  /\ TWO_PI = S754_finite false 13176795 (-21).
Proof. vm_compute. repeat split. Qed.

(** The tokenizer, [atoi] and the [printf] model on a few inputs. *)
Example tokenize_examples :
  tokenize "CH 2 GAIN 0.5" = ["CH"; "2"; "GAIN"; "0.5"]
  /\ tokenize ("  SAMPLE  1" ++ String TAB "LOAD /a b/c.wav" ++ NL)
     = ["SAMPLE"; "1"; "LOAD"; "/a"; "b/c.wav"]
  /\ atoi "-17x" = -17 /\ atoi "abc" = 0
  /\ printf_f 3 (lit 0.0005) = "0.001" /\ printf_f 1 (lit 1000) = "1000.0"
  /\ printf_f 3 (lit (-1.0005)) = "-1.000".
Proof. vm_compute. repeat split. Qed.

(** [CH 1 PAN 5] stores the pan 1. *)
Example pan_5_is_stored_as_1 :
  let r := process_command Demo.host "CH 1 PAN 5" Demo.world0 in
  fst r = "OK CH 1 PAN 1.000" ++ NL
  /\ option_map ch_pan (nth_error (E_ch (G (snd r))) 0) = Some (lit 1).
Proof. vm_compute. repeat split. Qed.

(** Rendering the two-sample slot: after two frames the cursor is at 2 and
    the slot still playing; the third frame stops it and rewinds; the first
    frame carries 0.5 * sqrt(0.5) * 0.8 on both sides. *)
Example render_two_sample_slot :
  option_map (fun r => map (fun s => (s_playing s, s_pos s))
                           (firstn 1 (E_slots (fst r))))
             (data_cb (G Demo.world_loaded) 2) = Some [(1, 2)]
  /\ option_map (fun r => map (fun s => (s_playing s, s_pos s))
                              (firstn 1 (E_slots (fst r))))
                (data_cb (G Demo.world_loaded) 3) = Some [(0, 0)]
  /\ option_map (fun r => map (fun o => (printf_f 6 (fst o),
                                         printf_f 6 (snd o))) (snd r))
                (data_cb (G Demo.world_loaded) 3)
     = Some [("0.282843", "0.282843"); ("0.141421", "0.141421");
             ("0.000000", "0.000000")].
Proof. vm_compute. repeat split. Qed.



(** C2, a concrete run: slot 1 is loaded and playing; loading a file that
    cannot be decoded answers with an error and code -1, and the slot comes
    out without its buffer, not loaded and not playing. *)
Lemma load_failure_changes_slot :
  let r := process_command Demo.host "SAMPLE 1 LOAD missing.wav"
                           Demo.world_loaded in
  fst r = "ERROR Failed to load: missing.wav (code -1)" ++ NL
  /\ nth_error (E_slots (G Demo.world_loaded)) 0 = Some Demo.slot2
  /\ (s_loaded Demo.slot2 = 1 /\ s_playing Demo.slot2 = 1
      /\ s_data Demo.slot2 = Some [lit 0.5; lit 0.25])
  /\ nth_error (E_slots (G (snd r))) 0 = Some (slot_free Demo.slot2)
  /\ (s_loaded (slot_free Demo.slot2) = 0
      /\ s_playing (slot_free Demo.slot2) = 0
      /\ s_data (slot_free Demo.slot2) = None)
  /\ slot_free Demo.slot2 <> Demo.slot2.
Proof.
  vm_compute. repeat split. discriminate.
Qed.

Lemma load_failure_leaves_slot_empty_witness :
  prefix "ERROR"
         (fst (process_tokens Demo.host ["SAMPLE"; "1"; "LOAD"; "missing.wav"]
                              Demo.world_loaded)) = true.
Proof.
  assert (Hi : 1 <= atoi "1" <= NUM_SLOTS)
    by (vm_compute; split; discriminate).
  destruct (load_failure_leaves_slot_empty Demo.host Demo.world_loaded
              "1" "missing.wav" [] "missing.wav" Demo.slot2 Hi eq_refl eq_refl)
    as (_ & _ & Hfail).
  apply Hfail. vm_compute. discriminate.
Defined.




Lemma sample_trig_requires_loaded_witness :
  fst (process_tokens Demo.host ["SAMPLE"; "1"; "TRIG"] Demo.world_loaded)
  = reply ("OK SAMPLE " ++ fmt_d (atoi "1") ++ " TRIG" ++ NL)
  /\ fst (process_tokens Demo.host ["SAMPLE"; "2"; "TRIG"] Demo.world_loaded)
     = reply ("ERROR Sample " ++ fmt_d (atoi "2") ++ " not loaded" ++ NL).
Proof.
  assert (H1 : 1 <= atoi "1" <= NUM_SLOTS)
    by (vm_compute; split; discriminate).
  assert (H2 : 1 <= atoi "2" <= NUM_SLOTS)
    by (vm_compute; split; discriminate).
  split.
  - destruct (sample_trig_requires_loaded Demo.host Demo.world_loaded "1"
                Demo.slot2 H1 eq_refl) as [_ Hok].
    apply Hok. discriminate.
  - destruct (sample_trig_requires_loaded Demo.host Demo.world_loaded "2"
                slot_init H2 eq_refl) as [Herr _].
    rewrite (proj1 (Herr eq_refl)). reflexivity.
Defined.

(** C8, concrete runs: a published pan of 2, unit gain, the filter off, the
    input 1.  In binary32 the channel adds 0 to the left and 1 to the right
    accumulator, where the formula on the published pan gives a NaN on the
    left and [sqrtf(1.5)] on the right.  In exact arithmetic the right
    accumulator receives 1, which is [sqrt(0.5*(1+1))] and not
    [sqrt(0.5*(1+2))]. *)
Lemma pan_is_clamped_before_use :
  (ch_pan Demo.channel32_pan2 = lit 2
   /\ snd (channel_stereo Demo.channel32_pan2 (lit 1) (lit 0, lit 0))
      = (lit 0, lit 1)
   /\ is_nan (lit 0 + (lit 1 * ch_gain Demo.channel32_pan2)
                      * sqrtf (lit 0.5 * (lit 1 - ch_pan Demo.channel32_pan2))
             )%flt = true
   /\ (lit 0 + (lit 1 * ch_gain Demo.channel32_pan2)
               * sqrtf (lit 0.5 * (lit 1 + ch_pan Demo.channel32_pan2)))%flt
      <> lit 1)
  /\
  (ch_pan Demo.channel_pan2 = 2%R
   /\ snd (snd (channel_stereo Demo.channel_pan2 1%R (0%R, 0%R))) = 1%R
   /\ (0 + (1 * ch_gain Demo.channel_pan2)
           * sqrt (Q2R 0.5 * (Q2R 1 + ch_pan Demo.channel_pan2)))%R
      <> 1%R).
Proof.
  split.
  { vm_compute. repeat split. discriminate. }
  assert (Hg : ch_gain Demo.channel_pan2 = 1%R).
  { unfold Demo.channel_pan2, Demo.channel0, store_pan, channel_init.
    cbn [ch_gain flit ops]. unfold Q2R; simpl; lra. }
  split; [reflexivity |]. split.
  - rewrite channel_stereo_unfold. cbv zeta. cbn [snd].
    rewrite Hg.
    unfold Demo.channel_pan2, Demo.channel0, store_pan, channel_init, svf_init.
    cbn [ch_pan ch_filt svf_process f_type F_OFF Z.eqb fst].
    assert (Hp : clampf 2%R (flit (-1)) (flit 1) = 1%R).
    { unfold clampf. cbn [fltb flit ops]. unfold Rltb.
      destruct (Rlt_dec 2 (Q2R (-1))) as [H | _];
        [unfold Q2R in H; simpl in H; lra |].
      destruct (Rlt_dec (Q2R 1) 2) as [_ | H];
        [| unfold Q2R in H; simpl in H; lra].
      unfold Q2R; simpl; lra. }
    rewrite Hp. cbn [fadd fmul sqrtf flit ops].
    replace (Q2R 0.5 * (Q2R 1 + 1))%R with 1%R by (unfold Q2R; simpl; lra).
    rewrite sqrt_1. lra.
  - rewrite Hg. cbn [ch_pan Demo.channel_pan2 store_pan].
    replace (Q2R 0.5 * (Q2R 1 + 2))%R with (3 / 2)%R
      by (unfold Q2R; simpl; lra).
    intro H.
    assert (Hs : (sqrt (3 / 2) = 1)%R) by lra.
    assert (Hsq : (sqrt (3 / 2) * sqrt (3 / 2) = 3 / 2)%R)
      by (apply sqrt_sqrt; lra).
    rewrite Hs in Hsq. lra.
Qed.

Lemma channel_stereo_equal_power_witness :
  clampf (ch_pan Demo.channel0) (flit (-1)) (flit 1) = ch_pan Demo.channel0.
Proof.
  destruct (channel_stereo_equal_power Demo.channel0 1%R 0%R 0%R)
    as [_ Hin].
  apply Hin.
  - unfold Demo.channel0, channel_init. cbn [ch_pan fltb flit ops].
    unfold Rltb. destruct (Rlt_dec (Q2R 0) (Q2R (-1))) as [H | _];
      [unfold Q2R in H; simpl in H; lra | reflexivity].
  - unfold Demo.channel0, channel_init. cbn [ch_pan fltb flit ops].
    unfold Rltb. destruct (Rlt_dec (Q2R 1) (Q2R 0)) as [H | _];
      [unfold Q2R in H; simpl in H; lra | reflexivity].
Defined.


Lemma spikes_accumulate_while_off_witness :
  snd (voice_events [EvSpike; EvTick; EvSpike] Demo.voice0)
  = with_spikes 2 Demo.voice0
  /\ v_spikes (snd (voice_tick
                      (store_v_on 1 (with_spikes 2 Demo.voice0)))) = 0.
Proof.
  assert (Hi : 1 <= atoi "1" <= NUM_VOICES)
    by (vm_compute; split; discriminate).
  destruct (spikes_accumulate_while_off Demo.host Demo.world0 "1"
              Demo.voice0 [EvSpike; EvTick; EvSpike] Hi eq_refl eq_refl)
    as (_ & _ & _ & Hv & Hs & _).
  - vm_compute. discriminate.
  - vm_compute. discriminate.
  - cbv zeta in Hv, Hs. split; [exact Hv |].
    rewrite Hv in Hs. exact Hs.
Defined.



End Concrete_Runs.

(** ** Playback of a sample slot *)

Section Playback_Properties.

Context {F : Type} {ops : FloatOps F} {lm : Libm F}.
Local Open Scope Z_scope.

Lemma slot_run_app (n m : nat) (s : SampleSlot F) :
  slot_run (n + m) s =
  match slot_run n s with
  | None => None
  | Some (xs, s') =>
    match slot_run m s' with
    | None => None
    | Some (ys, s'') => Some ((xs ++ ys)%list, s'')
    end
  end.
Proof.
  revert s. induction n as [| n IH]; intro s; simpl.
  - destruct (slot_run m s) as [[ys s''] |]; reflexivity.
  - destruct (slot_tick s) as [[x s1] |]; [| reflexivity].
    rewrite IH. destruct (slot_run n s1) as [[xs s'] |]; [| reflexivity].
    destruct (slot_run m s') as [[ys s''] |]; reflexivity.
Qed.

Lemma skipn_nth_error {A : Type} (l : list A) (i : nat) (x : A) :
  nth_error l i = Some x -> skipn i l = x :: skipn (S i) l.
Proof.
  revert i. induction l as [| y l IH]; intros [| i] Hx; simpl in *;
    try discriminate.
  - injection Hx as ->. reflexivity.
  - apply IH. exact Hx.
Qed.

(** Playing on from cursor [p]: [n] ticks inside the buffer. *)
Lemma slot_run_inside (s : SampleSlot F) (buf : list F) (n : nat) (p : Z) :
  s_data s = Some buf ->
  Z.of_nat (List.length buf) = s_length s ->
  s_length s < 2 ^ 32 ->
  s_loaded s <> 0 ->
  0 <= p -> p + Z.of_nat n <= s_length s ->
  slot_run n (store_s_playing_pos 1 p s)
  = Some (map (fun x => (x * s_gain s)%flt)
              (firstn n (skipn (Z.to_nat p) buf)),
          store_s_playing_pos 1 (p + Z.of_nat n) s).
Proof.
  intros Hd Hlen Hmax Hl. revert p.
  induction n as [| n IH]; intros p Hp Hn.
  - simpl. rewrite Z.add_0_r. reflexivity.
  - assert (Hlt : (Z.to_nat p < List.length buf)%nat) by lia.
    destruct (nth_error buf (Z.to_nat p)) as [x |] eqn:Hx;
      [| apply nth_error_None in Hx; lia].
    assert (Htick : slot_tick (store_s_playing_pos 1 p s)
                    = Some ((x * s_gain s)%flt, store_s_playing_pos 1 (p + 1) s)).
    { unfold slot_tick, store_s_playing_pos. cbn [s_playing s_loaded s_data s_pos s_length s_loop s_gain
         s_assignedCh s_haveDecoder].
      rewrite (truthy_true _ Hl). cbn [truthy Z.eqb negb orb]. rewrite Hd.
      destruct (Z.geb_spec p (s_length s)); [lia |].
      rewrite Hx. rewrite wrap_u32_small by lia. reflexivity. }
    cbn [slot_run]. rewrite Htick.
    rewrite IH by lia.
    rewrite (skipn_nth_error buf (Z.to_nat p) x Hx).
    replace (Z.to_nat (p + 1)) with (S (Z.to_nat p)) by lia.
    replace (p + 1 + Z.of_nat n) with (p + Z.of_nat (S n)) by lia.
    reflexivity.
Qed.

(** X1: a loaded, non-looping slot triggered at cursor 0 plays its buffer
    once: the first [n] ticks give the first [n] samples, each times the slot
    gain, and leave the cursor at [n]; the tick after the last sample gives
    0 and clears the playing flag and the cursor, and every later tick gives
    0 and changes nothing. *)
Theorem one_shot_playback (s : SampleSlot F) (buf : list F) (n : nat) :
  s_data s = Some buf ->
  Z.of_nat (List.length buf) = s_length s ->
  s_length s < 2 ^ 32 ->
  s_loaded s <> 0 ->
  s_loop s = 0 ->
  let out := map (fun x => (x * s_gain s)%flt) in
  ((n <= List.length buf)%nat ->
   slot_run n (store_s_playing_pos 1 0 s)
   = Some (out (firstn n buf), store_s_playing_pos 1 (Z.of_nat n) s))
  /\ slot_run (List.length buf + S n) (store_s_playing_pos 1 0 s)
     = Some ((out buf ++ repeat (flit 0) (S n))%list,
             store_s_playing_pos 0 0 s).
Proof.
  intros Hd Hlen Hmax Hl Hloop out.
  assert (Hin : forall m, (m <= List.length buf)%nat ->
            slot_run m (store_s_playing_pos 1 0 s)
            = Some (out (firstn m buf),
                    store_s_playing_pos 1 (Z.of_nat m) s)).
  { intros m Hm.
    rewrite (slot_run_inside s buf m 0 Hd Hlen Hmax Hl) by lia.
    reflexivity. }
  split; [apply Hin |].
  rewrite slot_run_app, (Hin (List.length buf)) by lia.
  rewrite firstn_all.
  assert (Hstop : slot_tick (store_s_playing_pos 1 (Z.of_nat (List.length buf)) s)
                  = Some (flit 0, store_s_playing_pos 0 0 s)).
  { unfold slot_tick, store_s_playing_pos.
    cbn [s_playing s_loaded s_data s_pos s_length s_loop s_gain
         s_assignedCh s_haveDecoder].
    rewrite (truthy_true _ Hl). cbn [truthy Z.eqb negb orb]. rewrite Hd.
    destruct (Z.geb_spec (Z.of_nat (List.length buf)) (s_length s)); [| lia].
    rewrite Hloop. reflexivity. }
  cbn [slot_run]. rewrite Hstop.
  rewrite slot_run_idle by reflexivity. reflexivity.
Qed.

Lemma loop_period (s : SampleSlot F) (buf : list F) :
  s_data s = Some buf ->
  Z.of_nat (List.length buf) = s_length s ->
  s_length s < 2 ^ 32 ->
  s_loaded s <> 0 ->
  s_loop s <> 0 ->
  0 < s_length s ->
  slot_run (List.length buf) (store_s_playing_pos 1 (s_length s) s)
  = Some (map (fun x => (x * s_gain s)%flt) buf,
          store_s_playing_pos 1 (s_length s) s).
Proof.
  intros Hd Hlen Hmax Hl Hloop Hpos.
  destruct buf as [| x0 rest]; [simpl in Hlen; lia |].
  assert (Hwrap : slot_tick (store_s_playing_pos 1 (s_length s) s)
                  = Some ((x0 * s_gain s)%flt, store_s_playing_pos 1 1 s)).
  { unfold slot_tick, store_s_playing_pos.
    cbn [s_playing s_loaded s_data s_pos s_length s_loop s_gain
         s_assignedCh s_haveDecoder].
    rewrite (truthy_true _ Hl). cbn [truthy Z.eqb negb orb]. rewrite Hd.
    destruct (Z.geb_spec (s_length s) (s_length s)); [| lia].
    rewrite (truthy_true _ Hloop). reflexivity. }
  cbn [List.length slot_run]. rewrite Hwrap.
  rewrite (slot_run_inside s (x0 :: rest) (List.length rest) 1 Hd Hlen Hmax Hl)
    by (cbn [List.length] in Hlen; lia).
  cbn [Z.to_nat Pos.to_nat Pos.iter_op Nat.add skipn].
  rewrite firstn_all.
  replace (1 + Z.of_nat (List.length rest)) with (s_length s)
    by (cbn [List.length] in Hlen; lia).
  reflexivity.
Qed.

(** X2: a loaded, looping slot with a non-empty buffer, triggered at cursor
    0, plays the buffer over and over: [k+1] times the buffer length ticks
    give [k+1] copies of the buffer, each sample times the slot gain, and
    leave the slot playing with the cursor at the length. *)
Theorem loop_playback_is_periodic (s : SampleSlot F) (buf : list F)
  (k : nat) :
  s_data s = Some buf ->
  Z.of_nat (List.length buf) = s_length s ->
  s_length s < 2 ^ 32 ->
  s_loaded s <> 0 ->
  s_loop s <> 0 ->
  0 < s_length s ->
  slot_run (S k * List.length buf) (store_s_playing_pos 1 0 s)
  = Some (List.concat (repeat (map (fun x => (x * s_gain s)%flt) buf) (S k)),
          store_s_playing_pos 1 (s_length s) s).
Proof.
  intros Hd Hlen Hmax Hl Hloop Hpos.
  assert (Hk : forall j,
            slot_run (j * List.length buf) (store_s_playing_pos 1 (s_length s) s)
            = Some (List.concat (repeat (map (fun x => (x * s_gain s)%flt) buf) j),
                    store_s_playing_pos 1 (s_length s) s)).
  { induction j as [| j IH].
    - reflexivity.
    - cbn [Nat.mul]. rewrite slot_run_app.
      rewrite (loop_period s buf Hd Hlen Hmax Hl Hloop Hpos).
      rewrite IH. reflexivity. }
  cbn [Nat.mul]. rewrite slot_run_app.
  rewrite (slot_run_inside s buf (List.length buf) 0 Hd Hlen Hmax Hl) by lia.
  cbn [Z.to_nat skipn]. rewrite firstn_all.
  replace (0 + Z.of_nat (List.length buf)) with (s_length s) by lia.
  rewrite Hk. reflexivity.
Qed.

End Playback_Properties.

(** ** The render callback *)

Section Render_Properties.

Context {F : Type} {ops : FloatOps F} {lm : Libm F}.
Local Open Scope Z_scope.

Lemma slot_tick_params (s s' : SampleSlot F) (x : F) :
  slot_tick s = Some (x, s') -> slot_params s' = slot_params s.
Proof.
  destruct s as [ac ld pl lp gn dt ln ps hd].
  unfold slot_tick, slot_params; cbn.
  destruct (negb (truthy pl) || negb (truthy ld)).
  { intro H. injection H as _ <-. reflexivity. }
  destruct dt as [data |].
  2:{ intro H. injection H as _ <-. reflexivity. }
  destruct (ps >=? ln).
  - destruct (truthy lp).
    + destruct data as [| x0 rest]; [discriminate |].
      intro H. injection H as _ <-. reflexivity.
    + intro H. injection H as _ <-. reflexivity.
  - destruct (nth_error data (Z.to_nat ps)); [| discriminate].
    intro H. injection H as _ <-. reflexivity.
Qed.

Lemma slot_tick_safe (s : SampleSlot F) :
  slot_safe s ->
  exists x s', slot_tick s = Some (x, s') /\ slot_safe s'.
Proof.
  destruct s as [ac ld pl lp gn dt ln ps hd].
  unfold slot_safe, slot_wf, slot_tick; cbn -[wrap_u32 Z.pow].
  intros [(Hpos & Hlen & Hbuf) Hempty].
  destruct (negb (truthy pl) || negb (truthy ld)).
  { eexists _, _. split; [reflexivity |]. cbn -[wrap_u32 Z.pow]. auto. }
  destruct dt as [data |].
  2:{ eexists _, _. split; [reflexivity |]. cbn -[wrap_u32 Z.pow]. auto. }
  specialize (Hbuf data eq_refl).
  destruct (Z.geb_spec ps ln) as [Hge | Hlt].
  - destruct (truthy lp) eqn:Hloop.
    + destruct data as [| x0 rest].
      * exfalso. simpl in Hbuf.
        destruct Hempty as [H0 | H0]; [lia | | discriminate H0].
        rewrite H0 in Hloop. discriminate Hloop.
      * eexists _, _. split; [reflexivity |]. cbn -[wrap_u32 Z.pow].
        rewrite wrap_u32_small by lia.
        split; [| exact Hempty].
        split; [cbn [List.length] in Hbuf; lia |].
        split; [lia |]. intros d Hd. injection Hd as <-. exact Hbuf.
    + eexists _, _. split; [reflexivity |]. cbn -[wrap_u32 Z.pow].
      split; [| exact Hempty].
      split; [lia |]. split; [lia |].
      intros d Hd. injection Hd as <-. exact Hbuf.
  - destruct (nth_error data (Z.to_nat ps)) as [x |] eqn:Hx;
      [| apply nth_error_None in Hx; lia].
    eexists _, _. split; [reflexivity |]. cbn -[wrap_u32 Z.pow].
    rewrite wrap_u32_small by lia.
    split; [| exact Hempty].
    split; [lia |]. split; [lia |].
    intros d Hd. injection Hd as <-. exact Hbuf.
Qed.

Lemma length_upd {A : Type} (f : A -> A) (l : list A) (i : nat) :
  List.length (upd i f l) = List.length l.
Proof.
  revert i. induction l as [| y l IH]; intros [| i]; simpl; auto.
Qed.

Lemma tick_slots_safe (slots : list (SampleSlot F)) (mono : list F) :
  Forall slot_safe slots ->
  exists slots' mono',
    tick_slots slots mono = Some (slots', mono')
    /\ Forall slot_safe slots'.
Proof.
  intro Hall. revert mono. induction Hall as [| s rest Hs Hrest IH]; intro mono.
  - eexists _, _. split; [reflexivity | constructor].
  - cbn [tick_slots]. destruct (truthy (s_playing s)).
    + destruct (slot_tick_safe s Hs) as (x & s' & Ht & Hs').
      rewrite Ht.
      destruct (IH (upd (Z.to_nat (clampi (s_assignedCh s) 0 (NUM_CHANNELS - 1)))
                        (fun a => (a + x)%flt) mono))
        as (rest' & mono' & Hr & Hsafe).
      rewrite Hr. eexists _, _. split; [reflexivity |].
      constructor; assumption.
    + destruct (IH mono) as (rest' & mono' & Hr & Hsafe).
      rewrite Hr. eexists _, _. split; [reflexivity |].
      constructor; assumption.
Qed.

Lemma tick_slots_params (slots slots' : list (SampleSlot F))
  (mono mono' : list F) :
  tick_slots slots mono = Some (slots', mono') ->
  map slot_params slots' = map slot_params slots.
Proof.
  revert slots' mono mono'.
  induction slots as [| s rest IH]; intros slots' mono mono'; cbn [tick_slots].
  - intro H. injection H as <- _. reflexivity.
  - destruct (truthy (s_playing s)).
    + destruct (slot_tick s) as [[x s1] |] eqn:Ht; [| discriminate].
      destruct (tick_slots rest _) as [[rest' m'] |] eqn:Hr; [| discriminate].
      intro H. injection H as <- _. cbn [map].
      rewrite (IH _ _ _ Hr), (slot_tick_params _ _ _ Ht). reflexivity.
    + destruct (tick_slots rest mono) as [[rest' m'] |] eqn:Hr; [| discriminate].
      intro H. injection H as <- _. cbn [map].
      rewrite (IH _ _ _ Hr). reflexivity.
Qed.

Lemma voice_tick_params (v : Voice F) :
  voice_params (snd (voice_tick v)) = voice_params v.
Proof.
  unfold voice_tick. destruct (negb (truthy (v_on v))); reflexivity.
Qed.

Lemma tick_voices_params (voices : list (Voice F)) (mono : list F) :
  map voice_params (fst (tick_voices voices mono)) = map voice_params voices.
Proof.
  revert mono. induction voices as [| v rest IH]; intro mono; cbn [tick_voices].
  - reflexivity.
  - destruct (truthy (v_on v)).
    + pose proof (voice_tick_params v) as Hv.
      destruct (voice_tick v) as [x v'].
      specialize (IH (upd (Z.to_nat (clampi (v_assignedCh v) 0 (NUM_CHANNELS - 1)))
                          (fun a => (a + x)%flt) mono)).
      destruct (tick_voices rest _) as [rest' mono'].
      cbn [fst snd map] in *. rewrite IH, Hv. reflexivity.
    + specialize (IH mono). destruct (tick_voices rest mono) as [rest' mono'].
      cbn [fst map] in *. rewrite IH. reflexivity.
Qed.

Lemma svf_process_params (f : SVF F) (x : F) :
  let f' := snd (svf_process f x) in
  f_type f' = f_type f /\ f_cutoff f' = f_cutoff f /\ f_q f' = f_q f
  /\ f_sr f' = f_sr f.
Proof.
  cbv zeta. unfold svf_process.
  destruct (f_type f =? F_OFF); [repeat split |].
  assert (Hu : f_type (svf_update_coeffs f) = f_type f
               /\ f_cutoff (svf_update_coeffs f) = f_cutoff f
               /\ f_q (svf_update_coeffs f) = f_q f
               /\ f_sr (svf_update_coeffs f) = f_sr f).
  { unfold svf_update_coeffs.
    destruct (negb _ || negb _); repeat split. }
  destruct (f_type f =? F_LP); [exact Hu |].
  destruct (f_type f =? F_HP); [exact Hu |].
  destruct (f_type f =? F_BP); exact Hu.
Qed.

Lemma channel_stereo_params (c : Channel F) (mono : F) (LR : F * F) :
  channel_params (fst (channel_stereo c mono LR)) = channel_params c.
Proof.
  unfold channel_stereo.
  destruct (svf_process_params (ch_filt c) mono) as (H1 & H2 & H3 & H4).
  destruct (svf_process (ch_filt c) mono) as [y filt'].
  cbn [fst snd] in *. unfold channel_params. cbn [ch_gain ch_pan ch_filt].
  rewrite H1, H2, H3, H4. reflexivity.
Qed.

Lemma mix_channels_params (chs : list (Channel F)) (mono : list F)
  (LR : F * F) :
  map channel_params (fst (mix_channels chs mono LR)) = map channel_params chs.
Proof.
  revert mono LR. induction chs as [| c chs IH]; intros mono LR.
  - destruct mono; reflexivity.
  - destruct mono as [| m mono]; [reflexivity |].
    cbn [mix_channels].
    pose proof (channel_stereo_params c m LR) as Hc.
    destruct (channel_stereo c m LR) as [c' LR'].
    specialize (IH mono LR').
    destruct (mix_channels chs mono LR') as [chs'' LR''].
    cbn [fst map] in *. rewrite IH, Hc. reflexivity.
Qed.

Lemma data_cb_frame_params (E E' : Engine F) (o : F * F) :
  data_cb_frame E = Some (E', o) -> engine_params E' = engine_params E.
Proof.
  unfold data_cb_frame.
  destruct (tick_slots (E_slots E) _) as [[slots' mono1] |] eqn:Hs;
    [| discriminate].
  pose proof (tick_voices_params (E_voices E) mono1) as Hv.
  destruct (tick_voices (E_voices E) mono1) as [voices' mono2].
  pose proof (mix_channels_params (E_ch E) mono2 (flit 0, flit 0)) as Hc.
  destruct (mix_channels (E_ch E) mono2 (flit 0, flit 0)) as [chs' [L R]].
  intro H. injection H as <- _.
  unfold engine_params.
  cbn [E_sr E_framesPerBuffer E_masterGain E_ch E_slots E_voices fst] in *.
  rewrite Hc, Hv, (tick_slots_params _ _ _ _ Hs). reflexivity.
Qed.

(** X3: the render callback writes none of the values the control threads
    publish (master gain; channel gain, pan, filter type, cutoff and Q; slot
    channel, loaded and loop flags, gain, buffer and length; voice switch,
    wave, frequency, gain, channel, time constants and bias), and it yields
    one stereo frame per requested frame. *)
Theorem render_keeps_published_parameters (E E' : Engine F) (n : nat)
  (out : list (F * F)) :
  data_cb E n = Some (E', out) ->
  engine_params E' = engine_params E /\ List.length out = n.
Proof.
  revert E E' out. induction n as [| n IH]; intros E E' out; cbn [data_cb].
  - intro H. injection H as <- <-. split; reflexivity.
  - destruct (data_cb_frame E) as [[E1 o] |] eqn:Hf; [| discriminate].
    destruct (data_cb E1 n) as [[E2 outs] |] eqn:Hr; [| discriminate].
    intro H. injection H as <- <-.
    destruct (IH _ _ _ Hr) as [Hp Hl].
    rewrite Hp, (data_cb_frame_params _ _ _ Hf). cbn [List.length].
    split; [reflexivity | lia].
Qed.

(** X4: when every slot's buffer holds [length] samples, cursor and length
    are [uint32_t] values, and no slot loops an empty buffer, the render
    callback reads no sample outside a buffer, for any number of frames, and
    leaves the slots in such a state. *)
Theorem render_stays_inside_buffers (E : Engine F) (n : nat) :
  Forall slot_safe (E_slots E) ->
  exists E' out,
    data_cb E n = Some (E', out) /\ Forall slot_safe (E_slots E').
Proof.
  revert E. induction n as [| n IH]; intros E Hsafe; cbn [data_cb].
  - eexists _, _. split; [reflexivity | exact Hsafe].
  - assert (Hf : exists E1 o, data_cb_frame E = Some (E1, o)
                              /\ Forall slot_safe (E_slots E1)).
    { unfold data_cb_frame.
      destruct (tick_slots_safe (E_slots E)
                  (repeat (flit 0) (Z.to_nat NUM_CHANNELS)) Hsafe)
        as (slots' & mono1 & Hs & Hsafe').
      rewrite Hs.
      destruct (tick_voices (E_voices E) mono1) as [voices' mono2].
      destruct (mix_channels (E_ch E) mono2 (flit 0, flit 0)) as [chs' [L R]].
      eexists _, _. split; [reflexivity | exact Hsafe']. }
    destruct Hf as (E1 & o & Hf & Hsafe1). rewrite Hf.
    destruct (IH E1 Hsafe1) as (E2 & outs & Hr & Hsafe2). rewrite Hr.
    eexists _, _. split; [reflexivity | exact Hsafe2].
Qed.

End Render_Properties.

(** ** Replies, subscribers and ranges of the control plane *)

Section Reply_Properties.

Context {F : Type} {ops : FloatOps F}.
Variable h : Host F.
Local Arguments reply : simpl never.
Local Arguments event_line : simpl never.
Local Arguments fmt_d : simpl never.
Local Arguments atoi : simpl never.
Local Open Scope string_scope.
Local Open Scope Z_scope.

Lemma length_substring_le (n : nat) (s : string) :
  (String.length (substring 0 n s) <= n)%nat.
Proof.
  revert s. induction n as [| n IH]; intros [| c s]; simpl; try lia.
  specialize (IH s). lia.
Qed.

Lemma reply_length (text : string) : (String.length (reply text) <= 4095)%nat.
Proof. unfold reply, snprintf. apply length_substring_le. Qed.

Lemma reply_OK (text : string) :
  prefix "OK" (reply (String "O" (String "K" text))) = true
  /\ prefix "ERROR" (reply (String "O" (String "K" text))) = false.
Proof.
  unfold reply, snprintf. simpl.
  destruct (substring 0 4093 text); split; reflexivity.
Qed.

Lemma reply_ERR (text : string) :
  prefix "ERROR"
    (reply (String "E" (String "R" (String "R" (String "O" (String "R" text))))))
  = true.
Proof.
  unfold reply, snprintf. simpl.
  destruct (substring 0 4090 text); reflexivity.
Qed.

(** A reply of the interpreter, with the state it comes with. *)
Ltac close_reply :=
  unfold well_formed_reply; cbn [fst snd append];
  first [ left; apply reply_OK
        | right; split; [apply reply_ERR | first [left; reflexivity | right; assumption]] ].

Lemma process_CH_reply (tokens : list string) (w : World F) :
  well_formed_reply w tokens (process_CH h tokens w).
Proof. unfold process_CH. split_ifs; close_reply. Qed.

Lemma process_VOICE_reply (tokens : list string) (w : World F) :
  well_formed_reply w tokens (process_VOICE h tokens w).
Proof. unfold process_VOICE. split_ifs; close_reply. Qed.

Lemma process_SAMPLE_reply (tokens : list string) (w : World F) :
  well_formed_reply w tokens (process_SAMPLE h tokens w).
Proof. unfold process_SAMPLE. split_ifs; close_reply. Qed.

Lemma process_tokens_reply (tokens : list string) (w : World F) :
  well_formed_reply w tokens (process_tokens h tokens w).
Proof.
  unfold process_tokens.
  repeat match goal with
         | |- context [if ?b then _ else _] => destruct b eqn:?
         end;
    try apply process_CH_reply; try apply process_VOICE_reply;
    try apply process_SAMPLE_reply; close_reply.
Qed.

Lemma process_tokens_length (tokens : list string) (w : World F) :
  (String.length (fst (process_tokens h tokens w)) <= 4095)%nat.
Proof.
  unfold process_tokens, process_CH, process_VOICE, process_SAMPLE.
  split_ifs; cbn [fst]; apply reply_length.
Qed.

(** X5: the reply to any command is at most 4095 characters long and starts
    with OK or with ERROR, never with both. *)
Theorem replies_are_ok_or_error (cmd : string) (w : World F) :
  let r := fst (process_command h cmd w) in
  (String.length r <= 4095)%nat
  /\ (prefix "OK" r = true /\ prefix "ERROR" r = false
      \/ prefix "ERROR" r = true /\ prefix "OK" r = false).
Proof.
  cbv zeta. unfold process_command. split; [apply process_tokens_length |].
  destruct (process_tokens_reply (tokenize cmd) w) as [[Hok Hno] | [Herr _]].
  - left. split; assumption.
  - right. split; [exact Herr |].
    destruct (fst (process_tokens h (tokenize cmd) w)) as [| c r];
      [discriminate Herr |].
    cbn [prefix] in *.
    destruct (Ascii.ascii_dec "E" c) as [<- | Hc]; [reflexivity |].
    discriminate Herr.
Qed.

(** X6: a command answered with ERROR leaves the whole state unchanged
    (engine, subscribers, datagrams sent), unless its third token is LOAD. *)
Theorem error_replies_change_nothing (cmd : string) (w : World F) :
  prefix "ERROR" (fst (process_command h cmd w)) = true ->
  String.eqb (tok (tokenize cmd) 2) "LOAD" = false ->
  snd (process_command h cmd w) = w.
Proof.
  unfold process_command. intros Herr Hload.
  destruct (process_tokens_reply (tokenize cmd) w)
    as [[Hok Hno] | [_ [Hsame | Hl]]]; congruence.
Qed.


(** *** Shape and capacity *)

Lemma nth_error_upd_other {A : Type} (f : A -> A) (l : list A) (i j : nat) :
  i <> j -> nth_error (upd j f l) i = nth_error l i.
Proof.
  revert i j. induction l as [| y l IH]; intros [| i] [| j] Hij; simpl;
    try reflexivity; try contradiction.
  apply IH. lia.
Qed.

Lemma broadcast_loop_kept (event : string) (subs : list sockaddr_un)
  (log : list datagram) :
  let kept := fst (broadcast_loop h event subs log) in
  (List.length kept <= List.length subs)%nat
  /\ (forall a, In a kept -> In a subs)
  /\ ((forall l a, In a subs -> is_dead (sendto h l a event) = false) ->
      kept = subs)
  /\ (forall a, (forall l, is_dead (sendto h l a event) = true) ->
                ~ In a kept)
  /\ (forall a, In a subs ->
                (forall l, is_dead (sendto h l a event) = false) ->
                In a kept).
Proof.
  cbv zeta. revert log. induction subs as [| a rest IH]; intro log.
  - simpl. repeat split; auto.
  - cbn [broadcast_loop].
    specialize (IH (log ++ [(a, event)])%list).
    destruct (broadcast_loop h event rest (log ++ [(a, event)])%list)
      as [kept log''].
    cbn [fst] in IH. destruct IH as (Hlen & Hin & Hall & Hdead & Hlive).
    destruct (is_dead (sendto h log a event)) eqn:Hd; cbn [fst].
    + split; [cbn [List.length]; lia |].
      split; [intros b Hb; right; apply Hin; exact Hb |].
      split.
      { intro Hnever. rewrite (Hnever log a (or_introl eq_refl)) in Hd.
        discriminate. }
      split; [exact Hdead |].
      intros b [Hb | Hb] Hnever.
      * subst b. rewrite (Hnever log) in Hd. discriminate.
      * apply Hlive; assumption.
    + split; [cbn [List.length]; lia |].
      split; [intros b [Hb | Hb]; [left; exact Hb | right; apply Hin; exact Hb] |].
      split.
      { intro Hnever. f_equal. apply Hall.
        intros l b Hb. apply Hnever. right. exact Hb. }
      split.
      { intros b Hb [Hab | Hk].
        - subst b. rewrite (Hb log) in Hd. discriminate.
        - exact (Hdead b Hb Hk). }
      intros b [Hb | Hb] Hnever.
      * left. exact Hb.
      * right. apply Hlive; assumption.
Qed.

(** X7: [srv_broadcast] never adds a subscriber; it keeps every subscriber
    whose [sendto] never fails with ECONNREFUSED, ENOENT or ENOTCONN, drops every
    subscriber whose [sendto] always fails so, and leaves the list as it is
    when no send fails so. *)
Theorem broadcast_prunes_only_dead (event : string) (w : World F) :
  let subs := srv_subscribers (g_srv w) in
  let kept := srv_subscribers (g_srv (srv_broadcast h event w)) in
  (List.length kept <= List.length subs)%nat
  /\ (forall a, In a kept -> In a subs)
  /\ ((forall l a, In a subs -> is_dead (sendto h l a event) = false) ->
      kept = subs)
  /\ (forall a, (forall l, is_dead (sendto h l a event) = true) ->
                ~ In a kept)
  /\ (forall a, In a subs ->
                (forall l, is_dead (sendto h l a event) = false) ->
                In a kept).
Proof.
  cbv zeta. unfold srv_broadcast.
  pose proof (broadcast_loop_kept event (srv_subscribers (g_srv w)) (net_log w))
    as H.
  cbv zeta in H.
  destruct (broadcast_loop h event (srv_subscribers (g_srv w)) (net_log w))
    as [kept log].
  exact H.
Qed.

Lemma srv_broadcast_count (event : string) (w : World F) :
  sub_count (g_srv (srv_broadcast h event w)) <= sub_count (g_srv w).
Proof.
  unfold srv_broadcast, sub_count.
  destruct (broadcast_loop_kept event (srv_subscribers (g_srv w)) (net_log w))
    as [Hlen _].
  destruct (broadcast_loop h event (srv_subscribers (g_srv w)) (net_log w))
    as [kept log].
  cbn [fst g_srv srv_subscribers] in *. lia.
Qed.

Lemma srv_add_subscriber_count (p : string) (s : dgram_srv) :
  sub_count s <= MAX_SUBSCRIBERS ->
  sub_count (srv_add_subscriber h p s) <= MAX_SUBSCRIBERS.
Proof.
  intro Hs. unfold srv_add_subscriber.
  destruct (Z.geb_spec (sub_count s) MAX_SUBSCRIBERS); [exact Hs |].
  destruct (existsb _ _); [exact Hs |].
  unfold sub_count in *. cbn [srv_subscribers].
  rewrite length_app. cbn [List.length]. lia.
Qed.

Ltac shape_done :=
  cbn [snd]; rewrite ?srv_broadcast_G;
  unfold engine_shape, with_G, on_ch, on_voice, on_slot, set_masterGain;
  cbn [G E_sr E_framesPerBuffer E_ch E_slots E_voices];
  rewrite ?length_upd; reflexivity.

Lemma process_CH_shape (tokens : list string) (w : World F) :
  engine_shape (G (snd (process_CH h tokens w))) = engine_shape (G w).
Proof. unfold process_CH. split_ifs; shape_done. Qed.

Lemma process_VOICE_shape (tokens : list string) (w : World F) :
  engine_shape (G (snd (process_VOICE h tokens w))) = engine_shape (G w).
Proof. unfold process_VOICE. split_ifs; shape_done. Qed.

Lemma process_SAMPLE_shape (tokens : list string) (w : World F) :
  engine_shape (G (snd (process_SAMPLE h tokens w))) = engine_shape (G w).
Proof. unfold process_SAMPLE. split_ifs; shape_done. Qed.

(** X8: no command and no OSC message changes the sample rate, the period
    size, or the number of channels, slots and voices. *)
Theorem control_plane_keeps_engine_shape (w : World F) :
  (forall cmd,
     engine_shape (G (snd (process_command h cmd w))) = engine_shape (G w))
  /\ (forall path value,
        engine_shape (G (snd (osc_handle_mapped path value w)))
        = engine_shape (G w))
  /\ (forall path value,
        engine_shape (G (snd (osc_handle_raw_cc path value w)))
        = engine_shape (G w))
  /\ (forall path velocity,
        engine_shape (G (snd (osc_handle_raw_note path velocity w)))
        = engine_shape (G w)).
Proof.
  split; [| split; [| split]].
  - intro cmd. unfold process_command, process_tokens.
    repeat match goal with
           | |- context [if ?b then _ else _] => destruct b eqn:?
           end;
      try apply process_CH_shape; try apply process_VOICE_shape;
      try apply process_SAMPLE_shape; shape_done.
  - intros path value. unfold osc_handle_mapped.
    destruct (sscanf_mapped path) as [[variant semantic] |]; [| reflexivity].
    split_ifs; shape_done.
  - intros path value. unfold osc_handle_raw_cc.
    destruct (sscanf_two_ints _ path) as [[a b] |]; [| reflexivity].
    split_ifs; shape_done.
  - intros path value. unfold osc_handle_raw_note.
    destruct (sscanf_two_ints _ path) as [[a b] |]; [| reflexivity].
    split_ifs; shape_done.
Qed.

Ltac count_done :=
  cbn [snd];
  first [ assumption
        | match goal with
          | |- sub_count (g_srv (srv_broadcast _ ?e ?w0)) <= _ =>
            apply Z.le_trans with (sub_count (g_srv w0));
            [apply srv_broadcast_count | assumption]
          end ].

Lemma process_CH_count (tokens : list string) (w : World F) :
  sub_count (g_srv w) <= MAX_SUBSCRIBERS ->
  sub_count (g_srv (snd (process_CH h tokens w))) <= MAX_SUBSCRIBERS.
Proof. intro Hw. unfold process_CH. split_ifs; count_done. Qed.

Lemma process_VOICE_count (tokens : list string) (w : World F) :
  sub_count (g_srv w) <= MAX_SUBSCRIBERS ->
  sub_count (g_srv (snd (process_VOICE h tokens w))) <= MAX_SUBSCRIBERS.
Proof. intro Hw. unfold process_VOICE. split_ifs; count_done. Qed.

Lemma process_SAMPLE_count (tokens : list string) (w : World F) :
  sub_count (g_srv w) <= MAX_SUBSCRIBERS ->
  sub_count (g_srv (snd (process_SAMPLE h tokens w))) <= MAX_SUBSCRIBERS.
Proof. intro Hw. unfold process_SAMPLE. split_ifs; count_done. Qed.

(** X9: a subscriber list of at most 32 endpoints holds at most 32 endpoints
    after any command. *)
Theorem subscriber_list_stays_within_capacity (cmd : string) (w : World F) :
  sub_count (g_srv w) <= MAX_SUBSCRIBERS ->
  sub_count (g_srv (snd (process_command h cmd w))) <= MAX_SUBSCRIBERS.
Proof.
  intro Hw. unfold process_command, process_tokens.
  repeat match goal with
         | |- context [if ?b then _ else _] => destruct b eqn:?
         end;
    try (apply process_CH_count; exact Hw);
    try (apply process_VOICE_count; exact Hw);
    try (apply process_SAMPLE_count; exact Hw);
    try count_done.
  cbn [snd g_srv]. apply srv_add_subscriber_count. exact Hw.
Qed.


(** *** Integer parameters *)

Lemma clampi_range (v lo hi : Z) : lo <= hi -> lo <= clampi v lo hi <= hi.
Proof.
  intro H. unfold clampi.
  destruct (Z.ltb_spec v lo); [lia |].
  destruct (v >? hi) eqn:E; [lia |].
  rewrite Z.gtb_ltb in E. apply Z.ltb_ge in E. lia.
Qed.

(** X10: for a valid index, VOICE n CHAN and SAMPLE n CHAN store a channel
    index in 0..3, VOICE n WAVE stores 0 or 1, and SAMPLE n LOOP stores 0 or
    1, whatever the argument text, and change nothing else of the voice or
    slot. *)
Theorem integer_parameters_stay_in_range (w : World F) (tn tv : string) :
  let i := Z.to_nat (atoi tn - 1) in
  let voice cmd :=
    nth_error (E_voices (G (snd (process_tokens h cmd w)))) i in
  let slot cmd :=
    nth_error (E_slots (G (snd (process_tokens h cmd w)))) i in
  (forall v, 1 <= atoi tn <= NUM_VOICES ->
     nth_error (E_voices (G w)) i = Some v ->
     (exists c, voice ["VOICE"; tn; "CHAN"; tv] = Some (store_v_chan c v)
                /\ 0 <= c <= NUM_CHANNELS - 1)
     /\ (exists x, voice ["VOICE"; tn; "WAVE"; tv] = Some (store_v_wave x v)
                   /\ (x = W_SINE \/ x = W_PULSE)))
  /\
  (forall s, 1 <= atoi tn <= NUM_SLOTS ->
     nth_error (E_slots (G w)) i = Some s ->
     (exists c, slot ["SAMPLE"; tn; "CHAN"; tv] = Some (store_s_chan c s)
                /\ 0 <= c <= NUM_CHANNELS - 1)
     /\ (exists l, slot ["SAMPLE"; tn; "LOOP"; tv] = Some (store_s_loop l s)
                   /\ (l = 0 \/ l = 1))).
Proof.
  cbv zeta. split.
  - intros v Hidx Hv. unfold process_tokens, process_VOICE, tok.
    cbn [List.length Nat.eqb Nat.ltb Nat.leb nth String.eqb Ascii.eqb
         Bool.eqb].
    rewrite (index_test _ _ _ Hidx). cbn [snd with_G G on_voice E_voices].
    split.
    + eexists. split; [exact (nth_error_upd _ _ _ v Hv) |].
      apply clampi_range. unfold NUM_CHANNELS. lia.
    + eexists. split; [exact (nth_error_upd _ _ _ v Hv) |].
      destruct (truthy (atoi tv)); [right | left]; reflexivity.
  - intros s Hidx Hs. unfold process_tokens, process_SAMPLE, tok.
    cbn [List.length Nat.eqb Nat.ltb Nat.leb nth String.eqb Ascii.eqb
         Bool.eqb].
    rewrite (index_test _ _ _ Hidx). cbn [snd with_G G on_slot E_slots].
    split.
    + eexists. split; [exact (nth_error_upd _ _ _ s Hs) |].
      apply clampi_range. unfold NUM_CHANNELS. lia.
    + eexists. split; [exact (nth_error_upd _ _ _ s Hs) |].
      destruct (truthy (atoi tv)); [right | left]; reflexivity.
Qed.

(** *** Note events *)

(** X11: an OSC raw note message leaves every slot as it is, except that a
    note with positive velocity may trigger slot 1 or slot 2 (playing set,
    cursor 0), and only when that slot is loaded. *)
Theorem note_events_trigger_only_loaded_slots (path : string) (velocity : Z)
  (w : World F) (i : nat) (S : SampleSlot F) :
  nth_error (E_slots (G w)) i = Some S ->
  let w' := snd (osc_handle_raw_note path velocity w) in
  nth_error (E_slots (G w')) i = Some S
  \/ (velocity > 0 /\ s_loaded S <> 0 /\ (i = 0 \/ i = 1)%nat
      /\ nth_error (E_slots (G w')) i = Some (store_s_playing_pos 1 0 S)).
Proof.
  intros HS. cbv zeta. unfold osc_handle_raw_note.
  destruct (sscanf_two_ints _ path) as [[ch note] |]; [| left; exact HS].
  destruct (Z.gtb_spec velocity 0) as [Hv | Hv]; [| left; exact HS].
  destruct ((note =? 36) && truthy (s_loaded (the_slot w 0))) eqn:H36.
  - apply andb_prop in H36. destruct H36 as [_ Hl].
    cbn [snd with_G G on_slot E_slots Z.to_nat].
    destruct i as [| i].
    + right. unfold the_slot in Hl. cbn [Z.to_nat] in Hl.
      rewrite (nth_error_nth _ _ slot_init HS) in Hl.
      split; [lia |]. split.
      * intro H0. rewrite H0 in Hl. discriminate Hl.
      * split; [left; reflexivity |]. exact (nth_error_upd _ _ _ S HS).
    + left. rewrite nth_error_upd_other by lia. exact HS.
  - destruct ((note =? 38) && truthy (s_loaded (the_slot w 1))) eqn:H38;
      [| left; exact HS].
    apply andb_prop in H38. destruct H38 as [_ Hl].
    cbn [snd with_G G on_slot E_slots Z.to_nat Pos.to_nat Pos.iter_op Nat.add].
    destruct (Nat.eq_dec i 1) as [-> | Hi].
    + right. unfold the_slot in Hl. cbn [Z.to_nat Pos.to_nat Pos.iter_op Nat.add] in Hl.
      rewrite (nth_error_nth _ _ slot_init HS) in Hl.
      split; [lia |]. split.
      * intro H0. rewrite H0 in Hl. discriminate Hl.
      * split; [right; reflexivity |]. exact (nth_error_upd _ _ _ S HS).
    + left. rewrite nth_error_upd_other by exact Hi. exact HS.
Qed.

(** *** A new subscriber hears the next event *)

(** X12: after SUBSCRIBE p, with room in the list and a path that fits
    [sun_path], the endpoint p is in the list, and the next MASTER command
    hands [sendto] the EVENT MASTER line for p; every datagram that command
    sends carries that line. *)
Theorem new_subscriber_receives_next_event (w : World F) (p tv : string) :
  (String.length p <= sun_path_size h - 1)%nat ->
  sub_count (g_srv w) < MAX_SUBSCRIBERS ->
  let w1 := snd (process_tokens h ["SUBSCRIBE"; p] w) in
  let gain := clampf (atof h tv) (flit 0) (flit 10) in
  let event := event_line ("EVENT MASTER " ++ fmt_f h 3 gain ++ NL) in
  let w2 := snd (process_tokens h ["MASTER"; tv] w1) in
  In {| sun_path := p |} (srv_subscribers (g_srv w1))
  /\ exists sent,
       net_log w2 = (net_log w ++ sent)%list
       /\ In ({| sun_path := p |}, event) sent
       /\ Forall (fun d => snd d = event) sent.
Proof.
  intros Hfit Hroom. cbv zeta.
  assert (Hcopy : strncpy p (sun_path_size h - 1) = p)
    by (apply substring_all; exact Hfit).
  assert (Hin : In {| sun_path := p |}
                   (srv_subscribers (srv_add_subscriber h p (g_srv w)))).
  { unfold srv_add_subscriber.
    destruct (Z.geb_spec (sub_count (g_srv w)) MAX_SUBSCRIBERS); [lia |].
    destruct (existsb _ _) eqn:Ex.
    - apply existsb_path. exact Ex.
    - cbn [srv_subscribers]. rewrite Hcopy. apply in_or_app. right.
      left. reflexivity. }
  split; [exact Hin |].
  unfold process_tokens at 1, tok.
  cbn [List.length Nat.eqb Nat.ltb Nat.leb nth String.eqb Ascii.eqb
       Bool.eqb snd].
  rewrite srv_broadcast_log.
  cbn [with_G net_log g_srv snd process_tokens List.length Nat.eqb Nat.ltb
       Nat.leb nth String.eqb Ascii.eqb Bool.eqb tok].
  eexists. split; [reflexivity |]. split.
  - apply in_map_iff. exists {| sun_path := p |}. split; [reflexivity |].
    exact Hin.
  - apply Forall_forall. intros d Hd. apply in_map_iff in Hd.
    destruct Hd as (a & <- & _). reflexivity.
Qed.


(** *** The datagram thread *)

Lemma prefix_c_str (p r : string) :
  string_forall (fun c => negb (Ascii.eqb c NUL)) p = true ->
  prefix p r = true -> prefix p (c_str r) = true.
Proof.
  revert r. induction p as [| a p IH]; intros r Hp Hr.
  - destruct (c_str r); reflexivity.
  - destruct r as [| b r]; [discriminate Hr |].
    cbn [string_forall] in Hp. apply andb_prop in Hp. destruct Hp as [Ha Hp].
    cbn [prefix] in Hr. destruct (ascii_dec a b) as [<- | ]; [| discriminate].
    cbn [c_str]. destruct (Ascii.eqb a NUL); [discriminate Ha |].
    cbn [prefix]. destruct (ascii_dec a a) as [_ | Hn]; [| contradiction].
    apply IH; assumption.
Qed.

Lemma substring_empty (payload : string) :
  (String.length (substring 0 4095 payload) =? 0)%nat
  = String.eqb payload EmptyString.
Proof. destruct payload; reflexivity. Qed.

(** X13: the datagram thread consumes its datagrams in order until
    [g_srv.running] is clear; it sends exactly one reply to the sender of
    each consumed, non-empty datagram from an AF_UNIX address, in order, and
    each reply starts with OK or ERROR. *)
Theorem dgram_thread_replies (inbox : list recv_result) (w : World F)
  (replies : list datagram) :
  let w' := fst (fst (dgram_thread h inbox w replies)) in
  let replies' := snd (fst (dgram_thread h inbox w replies)) in
  let rest := snd (dgram_thread h inbox w replies) in
  exists consumed new,
    inbox = (consumed ++ rest)%list
    /\ replies' = (replies ++ new)%list
    /\ map fst new = map sender (filter answered consumed)
    /\ Forall (fun d => prefix "OK" (snd d) = true
                        \/ prefix "ERROR" (snd d) = true) new
    /\ (rest <> [] -> srv_running (g_srv w') = 0).
Proof.
  cbv zeta. revert w replies.
  induction inbox as [| r inbox IH]; intros w replies.
  - exists [], []. cbn. rewrite app_nil_r.
    repeat split; auto. intro H; contradiction.
  - cbn [dgram_thread].
    destruct (truthy (srv_running (g_srv w))) eqn:Hrun; cbn [negb].
    2:{ exists [], []. cbn [fst snd app map filter]. rewrite app_nil_r.
        repeat split; auto. intros _. unfold truthy in Hrun.
        destruct (Z.eqb_spec (srv_running (g_srv w)) 0); [assumption | discriminate]. }
    destruct r as [| payload client is_unix].
    + destruct (IH w replies) as (consumed & new & Hin & Hrep & Hto & Hok & Hrest).
      exists (RecvErr :: consumed), new. cbn [app filter answered].
      repeat split; auto. rewrite Hin at 1. reflexivity.
    + rewrite substring_empty.
      destruct (String.eqb payload EmptyString) eqn:Hemp.
      * destruct (IH w replies) as (consumed & new & Hin & Hrep & Hto & Hok & Hrest).
        exists (Recv payload client is_unix :: consumed), new.
        cbn [app filter answered]. rewrite Hemp.
        destruct is_unix; cbn [negb];
          repeat split; auto; rewrite Hin at 1; reflexivity.
      * pose proof (process_tokens_reply
                      (tokenize (substring 0 4095 payload)) w) as Hwf.
        unfold process_command.
        destruct (process_tokens h (tokenize (substring 0 4095 payload)) w)
          as [response w1].
        destruct is_unix.
        -- destruct (IH w1 (replies ++ [(client, c_str response)])%list)
             as (consumed & new & Hin & Hrep & Hto & Hok & Hrest).
           exists (Recv payload client true :: consumed),
                  ((client, c_str response) :: new).
           cbn [app filter answered map fst sender]. rewrite Hemp. cbn [negb map sender].
           split; [rewrite Hin at 1; reflexivity |].
           split; [rewrite Hrep, <- app_assoc; reflexivity |].
           split; [rewrite Hto; reflexivity |].
           split; [| exact Hrest].
           constructor; [| exact Hok]. cbn [snd].
           destruct Hwf as [[Hk _] | [He _]]; cbn [fst] in *.
           ++ left. apply prefix_c_str; [reflexivity | exact Hk].
           ++ right. apply prefix_c_str; [reflexivity | exact He].
        -- destruct (IH w1 replies)
             as (consumed & new & Hin & Hrep & Hto & Hok & Hrest).
           exists (Recv payload client false :: consumed), new.
           cbn [app filter answered].
           repeat split; auto. rewrite Hin at 1. reflexivity.
Qed.

End Reply_Properties.

(** ** Tokens, paths and OSC addresses *)

Section String_Properties.

Local Open Scope string_scope.
Local Open Scope Z_scope.

Lemma length_append (a b : string) :
  String.length (a ++ b) = (String.length a + String.length b)%nat.
Proof. induction a as [| c a IH]; simpl; [reflexivity | rewrite IH; reflexivity]. Qed.

Lemma append_assoc (a b c : string) : (a ++ b) ++ c = a ++ (b ++ c).
Proof. induction a as [| x a IH]; simpl; [reflexivity | rewrite IH; reflexivity]. Qed.

Lemma append_nil_r (a : string) : a ++ EmptyString = a.
Proof. induction a as [| x a IH]; simpl; [reflexivity | rewrite IH; reflexivity]. Qed.

Lemma string_forall_append (p : ascii -> bool) (a b : string) :
  string_forall p (a ++ b) = string_forall p a && string_forall p b.
Proof.
  induction a as [| c a IH]; simpl; [reflexivity |].
  rewrite IH. apply andb_assoc.
Qed.

(** *** The path buffer of LOAD *)

Lemma joined_length (path : string) (toks : list string) :
  (String.length path <= String.length (joined path toks))%nat.
Proof.
  revert path. induction toks as [| t r IH]; intro path; cbn [joined fold_left].
  - lia.
  - specialize (IH (path ++ " " ++ t)). unfold joined in IH.
    rewrite !length_append in IH. lia.
Qed.

Lemma join_path_rest (toks : list string) (path : string) :
  (String.length path < 1023)%nat ->
  join_path toks false path
  = if (String.length (joined path toks) <? 1023)%nat
    then Some (joined path toks) else None.
Proof.
  revert path. induction toks as [| t r IH]; intros path Hp.
  - cbn [join_path joined fold_left].
    destruct (Nat.ltb_spec (String.length path) 1023); [reflexivity | lia].
  - cbn [join_path].
    pose proof (joined_length (path ++ " " ++ t) r) as Hmono.
    rewrite !length_append in Hmono. cbn [String.length] in Hmono.
    change (joined path (t :: r)) with (joined (path ++ " " ++ t) r).
    destruct (Nat.leb_spec 1023 (String.length path + 1)) as [H1 | H1].
    { destruct (Nat.ltb_spec (String.length (joined (path ++ " " ++ t) r)) 1023);
        [lia | reflexivity]. }
    rewrite length_append. cbn [String.length].
    destruct (Nat.leb_spec 1023 (String.length path + 1 + String.length t))
      as [H2 | H2].
    { destruct (Nat.ltb_spec (String.length (joined (path ++ " " ++ t) r)) 1023);
        [lia | reflexivity]. }
    rewrite append_assoc. apply IH.
    rewrite !length_append. cbn [String.length]. lia.
Qed.

(** X14: the path that SAMPLE n LOAD rebuilds is the path tokens joined by
    single spaces, and it is rebuilt exactly when that string has at most
    1022 characters; otherwise the command is refused (Path too long). *)
Theorem load_path_fits_its_buffer (t : string) (rest : list string) :
  (forall p, join_path (t :: rest) true EmptyString = Some p ->
             p = joined t rest /\ (String.length p <= 1022)%nat)
  /\ (join_path (t :: rest) true EmptyString = None
      <-> (1023 <= String.length (joined t rest))%nat).
Proof.
  assert (H : join_path (t :: rest) true EmptyString
              = if (String.length (joined t rest) <? 1023)%nat
                then Some (joined t rest) else None).
  { cbn [join_path String.length Nat.add append].
    pose proof (joined_length t rest) as Hmono.
    destruct (Nat.leb_spec 1023 (String.length t)) as [H1 | H1].
    - destruct (Nat.ltb_spec (String.length (joined t rest)) 1023);
        [lia | reflexivity].
    - apply join_path_rest. exact H1. }
  rewrite H.
  destruct (Nat.ltb_spec (String.length (joined t rest)) 1023) as [Hlt | Hge].
  - split.
    + intros p Hp. injection Hp as <-. split; [reflexivity | lia].
    + split; [discriminate | lia].
  - split.
    + intros p Hp. discriminate Hp.
    + split; [intros _; exact Hge | reflexivity].
Qed.

(** *** The tokenizer *)

Lemma c_str_clean (s : string) :
  string_forall (fun c => negb (Ascii.eqb c NUL)) (c_str s) = true.
Proof.
  induction s as [| c s IH]; cbn [c_str]; [reflexivity |].
  destruct (Ascii.eqb c NUL) eqn:E; [reflexivity |].
  cbn [string_forall]. rewrite E, IH. reflexivity.
Qed.

Lemma substring_clean (p : ascii -> bool) (n : nat) (s : string) :
  string_forall p s = true -> string_forall p (substring 0 n s) = true.
Proof.
  revert s. induction n as [| n IH]; intros [| c s] H; try reflexivity.
  cbn [substring string_forall] in *.
  apply andb_prop in H. destruct H as [Hc Hs]. rewrite Hc, (IH s Hs).
  reflexivity.
Qed.

Lemma strtok_all_tokens (s : string) (cur : option string) :
  string_forall (fun c => negb (Ascii.eqb c NUL)) s = true ->
  match cur with
  | Some t => t <> EmptyString /\ string_forall good_char t = true
  | None => True
  end ->
  Forall (fun t => t <> EmptyString /\ string_forall good_char t = true)
         (strtok_all s cur).
Proof.
  revert cur. induction s as [| c s IH]; intros cur Hs Hcur; cbn [strtok_all].
  - destruct cur; [constructor; [exact Hcur | constructor] | constructor].
  - cbn [string_forall] in Hs. apply andb_prop in Hs. destruct Hs as [Hc Hs].
    destruct (is_delim c) eqn:Hd.
    + destruct cur.
      * constructor; [exact Hcur |]. apply IH; [exact Hs | exact I].
      * apply IH; [exact Hs | exact I].
    + apply IH; [exact Hs |].
      assert (Hg : good_char c = true) by (unfold good_char; rewrite Hd, Hc; reflexivity).
      destruct cur as [t |].
      * destruct Hcur as [Hne Ht]. split.
        -- destruct t; [contradiction | discriminate].
        -- rewrite string_forall_append, Ht. cbn [string_forall].
           rewrite Hg. reflexivity.
      * split; [discriminate |]. cbn [string_forall]. rewrite Hg. reflexivity.
Qed.

Lemma Forall_firstn {A : Type} (P : A -> Prop) (n : nat) (l : list A) :
  Forall P l -> Forall P (firstn n l).
Proof.
  intro H. revert n. induction H as [| x l Hx Hl IH]; intros [| n];
    cbn [firstn]; constructor; auto.
Qed.

(** Splitting what follows a pending token. *)
Lemma strtok_all_word (t rest : string) (cur : option string) :
  string_forall good_char t = true ->
  t <> EmptyString ->
  strtok_all (t ++ rest) cur
  = strtok_all rest (Some (match cur with Some u => u ++ t | None => t end)).
Proof.
  revert cur. induction t as [| c t IH]; intros cur Ht Hne; [contradiction |].
  cbn [string_forall] in Ht. apply andb_prop in Ht. destruct Ht as [Hc Ht].
  assert (Hd : is_delim c = false).
  { unfold good_char in Hc. apply andb_prop in Hc. destruct Hc as [Hc _].
    destruct (is_delim c); [discriminate | reflexivity]. }
  cbn [append strtok_all]. rewrite Hd.
  destruct t as [| c' t'].
  - cbn [append]. destruct cur; reflexivity.
  - rewrite IH by (try exact Ht; discriminate).
    destruct cur as [u |]; [| reflexivity].
    rewrite append_assoc. reflexivity.
Qed.

Lemma strtok_all_concat (toks : list string) :
  Forall (fun t => t <> EmptyString /\ string_forall good_char t = true) toks ->
  strtok_all (String.concat " " toks) None = toks.
Proof.
  induction 1 as [| t rest [Hne Ht] Hrest IH]; [reflexivity |].
  destruct rest as [| t2 rest].
  - cbn [String.concat]. rewrite <- (append_nil_r t) at 1.
    rewrite strtok_all_word by assumption. reflexivity.
  - change (String.concat " " (t :: t2 :: rest))
      with (t ++ " " ++ String.concat " " (t2 :: rest)).
    rewrite strtok_all_word by assumption.
    cbn [append strtok_all is_delim Ascii.eqb Bool.eqb orb].
    rewrite IH. reflexivity.
Qed.

(** X15: the tokenizer yields at most 32 tokens, none of them empty, none
    containing a space, a tab, a newline or a NUL. *)
Theorem tokenize_yields_clean_tokens (cmd : string) :
  (List.length (tokenize cmd) <= 32)%nat
  /\ Forall (fun t => t <> EmptyString /\ string_forall good_char t = true)
            (tokenize cmd).
Proof.
  unfold tokenize. split.
  - rewrite length_firstn. lia.
  - apply Forall_firstn. apply strtok_all_tokens; [| exact I].
    apply substring_clean. apply c_str_clean.
Qed.

Lemma c_str_id (s : string) :
  string_forall (fun c => negb (Ascii.eqb c NUL)) s = true -> c_str s = s.
Proof.
  induction s as [| c s IH]; intro H; [reflexivity |].
  cbn [string_forall] in H. apply andb_prop in H. destruct H as [Hc Hs].
  cbn [c_str]. destruct (Ascii.eqb c NUL); [discriminate |].
  rewrite IH by exact Hs. reflexivity.
Qed.

Lemma concat_nul_free (toks : list string) :
  Forall (fun t => t <> EmptyString /\ string_forall good_char t = true) toks ->
  string_forall (fun c => negb (Ascii.eqb c NUL)) (String.concat " " toks) = true.
Proof.
  assert (Hw : forall t, string_forall good_char t = true ->
                string_forall (fun c => negb (Ascii.eqb c NUL)) t = true).
  { induction t as [| c t IH]; intro H; [reflexivity |].
    cbn [string_forall] in *. apply andb_prop in H. destruct H as [Hc Ht].
    unfold good_char in Hc. apply andb_prop in Hc. destruct Hc as [_ Hc].
    rewrite Hc, (IH Ht). reflexivity. }
  induction 1 as [| t rest [Hne Ht] Hrest IH]; [reflexivity |].
  destruct rest as [| t2 rest].
  - cbn [String.concat]. apply Hw. exact Ht.
  - change (String.concat " " (t :: t2 :: rest))
      with (t ++ " " ++ String.concat " " (t2 :: rest)).
    rewrite string_forall_append, (Hw t Ht).
    cbn [append string_forall]. rewrite IH. reflexivity.
Qed.

(** X16: at most 32 non-empty tokens without space, tab, newline and NUL,
    joined by single spaces into a line of at most 4095 characters, are
    exactly the tokens the tokenizer yields for that line. *)
Theorem tokenize_inverts_joining (toks : list string) :
  Forall (fun t => t <> EmptyString /\ string_forall good_char t = true) toks ->
  (List.length toks <= 32)%nat ->
  (String.length (String.concat " " toks) <= 4095)%nat ->
  tokenize (String.concat " " toks) = toks.
Proof.
  intros Hgood Hn Hlen. unfold tokenize, strncpy.
  rewrite (c_str_id _ (concat_nul_free toks Hgood)).
  rewrite substring_all by exact Hlen.
  rewrite strtok_all_concat by exact Hgood.
  apply firstn_all2. exact Hn.
Qed.

(** *** OSC addresses *)

Lemma scan_while_all (p : ascii -> bool) (n : nat) (a rest : string) :
  string_forall p a = true ->
  (String.length a <= n)%nat ->
  match rest with
  | EmptyString => True
  | String c _ => p c = false
  end ->
  scan_while p n (a ++ rest) = (a, rest).
Proof.
  revert n. induction a as [| c a IH]; intros n Ha Hn Hrest.
  - cbn [append]. destruct n as [| n]; [destruct rest; reflexivity |].
    destruct rest as [| c r]; [reflexivity |].
    cbn [scan_while]. rewrite Hrest. reflexivity.
  - cbn [string_forall] in Ha. apply andb_prop in Ha. destruct Ha as [Hc Ha].
    destruct n as [| n]; [cbn in Hn; lia |].
    cbn [append scan_while]. rewrite Hc.
    rewrite IH; [reflexivity | exact Ha | cbn in Hn; lia | exact Hrest].
Qed.

Lemma strip_prefix_append (pre s : string) :
  strip_prefix pre (pre ++ s) = Some s.
Proof.
  induction pre as [| c pre IH]; cbn [append strip_prefix]; [reflexivity |].
  rewrite Ascii.eqb_refl. exact IH.
Qed.

(** X17: the OSC address /midi/mapped/<variant>/<name> is read back as
    (variant, name) when the variant has 1 to 7 characters, none a slash or
    NUL, and the name has 1 to 63 characters, none white space or NUL. *)
Theorem mapped_address_round_trip (variant name : string) :
  variant <> EmptyString -> (String.length variant <= 7)%nat ->
  string_forall (fun c => negb (Ascii.eqb c "/") && negb (Ascii.eqb c NUL))
                variant = true ->
  name <> EmptyString -> (String.length name <= 63)%nat ->
  string_forall (fun c => negb (isspace c) && negb (Ascii.eqb c NUL)) name
  = true ->
  sscanf_mapped ("/midi/mapped/" ++ variant ++ "/" ++ name)
  = Some (variant, name).
Proof.
  intros Hv Hvl Hvc Hn Hnl Hnc.
  assert (Hsplit : forall (p q : ascii -> bool) s,
            string_forall (fun c => p c && q c) s = true ->
            string_forall p s = true /\ string_forall q s = true).
  { intros p q. induction s as [| c s IH]; intro H; [split; reflexivity |].
    cbn [string_forall] in *. apply andb_prop in H. destruct H as [Hc Hs].
    apply andb_prop in Hc. destruct Hc as [Hp Hq].
    destruct (IH Hs) as [H1 H2]. rewrite Hp, Hq, H1, H2. split; reflexivity. }
  destruct (Hsplit _ _ _ Hvc) as [Hv1 Hv2].
  destruct (Hsplit _ _ _ Hnc) as [Hn1 Hn2].
  unfold sscanf_mapped.
  rewrite c_str_id.
  2:{ cbn [append string_forall Ascii.eqb Bool.eqb NUL Ascii.ascii_of_nat negb andb].
      rewrite string_forall_append, Hv2.
      cbn [append string_forall]. rewrite Hn2. reflexivity. }
  rewrite strip_prefix_append.
  rewrite (scan_while_all _ 7 variant ("/" ++ name) Hv1 Hvl) by reflexivity.
  destruct (String.eqb_spec variant EmptyString) as [E | _]; [contradiction |].
  cbn [append].
  assert (Hskip : skip_space name = name).
  { destruct name as [| c r]; [contradiction |].
    cbn [string_forall] in Hn1. apply andb_prop in Hn1. destruct Hn1 as [Hc _].
    cbn [skip_space]. destruct (isspace c); [discriminate | reflexivity]. }
  rewrite Hskip.
  rewrite <- (append_nil_r name) at 1.
  rewrite (scan_while_all _ 63 name EmptyString Hn1 Hnl I).
  destruct (String.eqb_spec name EmptyString) as [E | _]; [contradiction |].
  reflexivity.
Qed.

End String_Properties.

(** ** The oscillator and the filter cache in exact arithmetic *)

Section Exact_Voice_And_Filter.

Import Exact.
Local Open Scope string_scope.
Local Open Scope Z_scope.
Local Open Scope R_scope.

Lemma Q2R_one : Q2R 1 = 1.
Proof. unfold Q2R; simpl; lra. Qed.

Lemma Q2R_zero : Q2R 0 = 0.
Proof. unfold Q2R; simpl; lra. Qed.

Lemma Rleb_true (x y : R) : Rleb x y = true <-> x <= y.
Proof. unfold Rleb. destruct (Rle_dec x y); split; intro; try easy. Qed.

Lemma Rltb_true (x y : R) : Rltb x y = true <-> x < y.
Proof. unfold Rltb. destruct (Rlt_dec x y); split; intro; try easy. Qed.

Lemma Reqb_true (x y : R) : Reqb x y = true <-> x = y.
Proof. unfold Reqb. destruct (Req_dec_T x y); split; intro; try easy. Qed.

(** *** The voice oscillator *)

Lemma voice_tick_phase (v : Voice R) :
  0 < v_sr v -> Rmax 1 (v_freq v) <= v_sr v -> 0 <= v_phase v < 1 ->
  0 <= v_phase (snd (voice_tick v)) < 1.
Proof.
  intros Hsr Hf Hp. unfold voice_tick.
  destruct (negb (truthy (v_on v))); [exact Hp |].
  unfold voice_run, voice_drain.
  cbn [snd v_phase v_freq v_sr fmaxf fadd fdiv fsub fleb ops flit].
  rewrite Q2R_one.
  assert (Hstep : 0 < Rmax 1 (v_freq v) / v_sr v <= 1).
  { split.
    - apply Rdiv_lt_0_compat; [| exact Hsr].
      apply Rlt_le_trans with 1; [lra | apply Rmax_l].
    - apply Rmult_le_reg_r with (v_sr v); [exact Hsr |].
      unfold Rdiv. rewrite Rmult_assoc, Rinv_l by lra. lra. }
  destruct (Rleb 1 (v_phase v + Rmax 1 (v_freq v) / v_sr v)) eqn:E.
  - apply Rleb_true in E. lra.
  - assert (~ 1 <= v_phase v + Rmax 1 (v_freq v) / v_sr v).
    { intro H. apply Rleb_true in H. congruence. }
    lra.
Qed.



(** *** The coefficient cache of the filter *)

Lemma clampf_q_range (q : R) : Q2R 0.1 <= clampf q (Q2R 0.1) (Q2R 20) <= Q2R 20.
Proof.
  assert (H1 : Q2R 0.1 = 1 / 10) by (unfold Q2R; simpl; lra).
  assert (H2 : Q2R 20 = 20) by (unfold Q2R; simpl; lra).
  unfold clampf. cbn [fltb ops]. unfold Rltb.
  destruct (Rlt_dec q (Q2R 0.1)); [lra |].
  destruct (Rlt_dec (Q2R 20) q); lra.
Qed.

Lemma svf_update_coeffs_fresh (f : SVF R) :
  svf_cache_ok f ->
  f_g (svf_update_coeffs f) = svf_fresh_g f
  /\ f_k (svf_update_coeffs f) = svf_fresh_k f
  /\ svf_cache_ok (svf_update_coeffs f).
Proof.
  intro Hok. unfold svf_update_coeffs, svf_fresh_g, svf_fresh_k.
  cbn [feqb ops].
  destruct (Reqb (f_cutoff f) (f_prev_cutoff f)) eqn:Ec;
    [destruct (Reqb (clampf (f_q f) (flit 0.1) (flit 20)) (f_prev_q f)) eqn:Eq |];
    cbn [negb orb f_g f_k].
  - apply Reqb_true in Ec, Eq.
    destruct Hok as [[Hg Hk] | Hm].
    + rewrite Hg, Hk, Ec, Eq. repeat split. left. split; assumption.
    + exfalso. pose proof (clampf_q_range (f_q f)) as Hr.
      cbn [flit ops] in Eq. rewrite Eq, Hm in Hr.
      rewrite Q2R_m1 in Hr.
      assert (H1 : Q2R 0.1 = 1 / 10) by (unfold Q2R; simpl; lra). lra.
  - repeat split. left. split; reflexivity.
  - repeat split. left. split; reflexivity.
Qed.

Lemma channel_step_cache (c : Channel R) (ev : channel_event R) :
  svf_cache_ok (ch_filt c) -> svf_cache_ok (ch_filt (channel_step c ev)).
Proof.
  intro Hok. destruct ev as [g | p | cutoff | type cutoff q | mono];
    try exact Hok.
  cbn [channel_step]. unfold channel_stereo.
  destruct (svf_process (ch_filt c) mono) as [y filt'] eqn:Hp.
  cbn [fst ch_filt].
  unfold svf_process in Hp.
  destruct (f_type (ch_filt c) =? F_OFF)%Z.
  { injection Hp as _ <-. exact Hok. }
  destruct (svf_update_coeffs_fresh _ Hok) as (_ & _ & Hok').
  assert (Hf : svf_cache_ok
                 {| f_type := f_type (svf_update_coeffs (ch_filt c));
                    f_cutoff := f_cutoff (svf_update_coeffs (ch_filt c));
                    f_q := f_q (svf_update_coeffs (ch_filt c));
                    f_ic1eq := (flit 2 * svf_v1 (svf_update_coeffs (ch_filt c)) mono
                                - f_ic1eq (svf_update_coeffs (ch_filt c)))%flt;
                    f_ic2eq := (flit 2 * svf_v2 (svf_update_coeffs (ch_filt c)) mono
                                - f_ic2eq (svf_update_coeffs (ch_filt c)))%flt;
                    f_g := f_g (svf_update_coeffs (ch_filt c));
                    f_k := f_k (svf_update_coeffs (ch_filt c));
                    f_sr := f_sr (svf_update_coeffs (ch_filt c));
                    f_prev_cutoff := f_prev_cutoff (svf_update_coeffs (ch_filt c));
                    f_prev_q := f_prev_q (svf_update_coeffs (ch_filt c)) |})
    by exact Hok'.
  repeat match type of Hp with
         | (if ?b then _ else _) = _ => destruct b
         end; injection Hp as _ <-; exact Hf.
Qed.


End Exact_Voice_And_Filter.

(** ** Buffer safety across commands, OSC messages and render periods *)

Section Safety_Properties.

Context {F : Type} {ops : FloatOps F} {lm : Libm F}.
Variable h : Host F.
Local Arguments reply : simpl never.
Local Arguments event_line : simpl never.
Local Arguments fmt_d : simpl never.
Local Arguments atoi : simpl never.
Local Open Scope string_scope.
Local Open Scope Z_scope.

Lemma wrap_u32_range (z : Z) : 0 <= wrap_u32 z < 2 ^ 32.
Proof. unfold wrap_u32. apply Z.mod_pos_bound. lia. Qed.

Lemma slot_sound_safe (s : SampleSlot F) : slot_sound s -> slot_safe s.
Proof.
  intros [Hwf Hne]. split; [exact Hwf |].
  intro Hlen. destruct (s_data s) as [data |] eqn:Hd; [| right; reflexivity].
  exfalso. apply (Hne data eq_refl).
  destruct Hwf as (_ & _ & Hbuf). specialize (Hbuf data Hd).
  destruct data; [reflexivity | cbn [List.length] in Hbuf; lia].
Qed.

Lemma slot_tick_sound (s : SampleSlot F) :
  slot_sound s -> exists x s', slot_tick s = Some (x, s') /\ slot_sound s'.
Proof.
  intro Hs.
  destruct (slot_tick_safe s (slot_sound_safe s Hs)) as (x & s' & Ht & [Hwf _]).
  exists x, s'. split; [exact Ht |]. split; [exact Hwf |].
  pose proof (slot_tick_params _ _ _ Ht) as Hp. unfold slot_params in Hp.
  injection Hp as _ _ _ _ Hd _. rewrite Hd. exact (proj2 Hs).
Qed.

Lemma tick_slots_sound (slots : list (SampleSlot F)) (mono : list F) :
  Forall slot_sound slots ->
  exists slots' mono',
    tick_slots slots mono = Some (slots', mono')
    /\ Forall slot_sound slots'.
Proof.
  intro Hall. revert mono. induction Hall as [| s rest Hs Hrest IH]; intro mono.
  - eexists _, _. split; [reflexivity | constructor].
  - cbn [tick_slots]. destruct (truthy (s_playing s)).
    + destruct (slot_tick_sound s Hs) as (x & s' & Ht & Hs').
      rewrite Ht.
      destruct (IH (upd (Z.to_nat (clampi (s_assignedCh s) 0 (NUM_CHANNELS - 1)))
                        (fun a => (a + x)%flt) mono))
        as (rest' & mono' & Hr & Hsafe).
      rewrite Hr. eexists _, _. split; [reflexivity |].
      constructor; assumption.
    + destruct (IH mono) as (rest' & mono' & Hr & Hsafe).
      rewrite Hr. eexists _, _. split; [reflexivity |].
      constructor; assumption.
Qed.

Lemma data_cb_sound (E : Engine F) (n : nat) :
  Forall slot_sound (E_slots E) ->
  exists E' out,
    data_cb E n = Some (E', out) /\ Forall slot_sound (E_slots E').
Proof.
  revert E. induction n as [| n IH]; intros E Hsafe; cbn [data_cb].
  - eexists _, _. split; [reflexivity | exact Hsafe].
  - assert (Hf : exists E1 o, data_cb_frame E = Some (E1, o)
                              /\ Forall slot_sound (E_slots E1)).
    { unfold data_cb_frame.
      destruct (tick_slots_sound (E_slots E)
                  (repeat (flit 0) (Z.to_nat NUM_CHANNELS)) Hsafe)
        as (slots' & mono1 & Hs & Hsafe').
      rewrite Hs.
      destruct (tick_voices (E_voices E) mono1) as [voices' mono2].
      destruct (mix_channels (E_ch E) mono2 (flit 0, flit 0)) as [chs' [L R]].
      eexists _, _. split; [reflexivity | exact Hsafe']. }
    destruct Hf as (E1 & o & Hf & Hsafe1). rewrite Hf.
    destruct (IH E1 Hsafe1) as (E2 & outs & Hr & Hsafe2). rewrite Hr.
    eexists _, _. split; [reflexivity | exact Hsafe2].
Qed.

Lemma Forall_upd {A : Type} (P : A -> Prop) (i : nat) (f : A -> A)
  (l : list A) :
  Forall P l ->
  (forall x, nth_error l i = Some x -> P x -> P (f x)) ->
  Forall P (upd i f l).
Proof.
  intro Hall. revert i. induction Hall as [| x r Hx Hr IH]; intros i Hf.
  - destruct i; constructor.
  - destruct i as [| j]; cbn [upd].
    + constructor; [apply Hf; [reflexivity | exact Hx] | exact Hr].
    + constructor; [exact Hx |]. apply IH. intros y Hy. apply Hf. exact Hy.
Qed.

Lemma slot_load_path_sound (s : SampleSlot F) (d : decoder_env F) :
  slot_sound s -> decoder_sound d -> slot_sound (snd (slot_load_path s d)).
Proof.
  intros [(Hpos & Hlen & Hbuf) Hne] Hd. unfold slot_load_path, slot_free.
  destruct (negb (dec_init_ok d)).
  { cbn. split; [split; [exact Hpos | split; [exact Hlen | discriminate]]
                | discriminate]. }
  destruct (dec_frames d) as [frames |] eqn:Hfr.
  2:{ cbn. split; [split; [exact Hpos | split; [exact Hlen | discriminate]]
                  | discriminate]. }
  destruct (negb (dec_malloc_tmp_ok d)).
  { cbn. split; [split; [exact Hpos | split; [exact Hlen | discriminate]]
                | discriminate]. }
  destruct (Hd frames Hfr) as [Hrange Hpcm].
  remember (firstn (Z.to_nat frames) (dec_pcm d)) as tmp eqn:Etmp.
  assert (Htmp : (0 < List.length tmp <= Z.to_nat frames)%nat).
  { rewrite Etmp, length_firstn. destruct (dec_pcm d); [contradiction |].
    cbn [List.length]. lia. }
  assert (Hw : wrap_u32 (Z.of_nat (List.length tmp)) = Z.of_nat (List.length tmp)).
  { apply wrap_u32_small. lia. }
  destruct (negb (dec_malloc_data_ok d)).
  { cbn -[wrap_u32 Z.pow]. rewrite Hw. cbn -[Z.pow].
    split; [split; [exact Hpos | split; [cbn -[Z.pow]; lia | discriminate]]
           | discriminate]. }
  cbn -[wrap_u32 Z.pow]. rewrite Hw, Nat2Z.id.
  rewrite firstn_all.
  split.
  - split; [cbn -[Z.pow]; lia |]. split; [cbn -[Z.pow]; lia |]. cbn.
    intros data Hdata. injection Hdata as <-. rewrite length_map. reflexivity.
  - cbn. intros data Hdata. injection Hdata as <-.
    destruct tmp; [cbn in Htmp; lia | discriminate].
Qed.

(** X22: a file that decodes to no frame loads with code 0 into an empty
    buffer; when the slot's loop flag is set, the first tick after a trigger
    reads [data[0]], which is outside that buffer. *)
Theorem empty_looping_sample_reads_outside_buffer (s : SampleSlot F)
  (d : decoder_env F) (frames : Z) :
  dec_init_ok d = true ->
  dec_frames d = Some frames ->
  dec_malloc_tmp_ok d = true ->
  dec_malloc_data_ok d = true ->
  frames <= 0 \/ dec_pcm d = [] ->
  s_loop s <> 0 ->
  fst (slot_load_path s d) = 0
  /\ s_data (snd (slot_load_path s d)) = Some []
  /\ slot_tick (store_s_playing_pos 1 0 (snd (slot_load_path s d))) = None.
Proof.
  intros Hinit Hfr Htmp Hdata Hempty Hloop.
  assert (Hnone : firstn (Z.to_nat frames) (dec_pcm d) = []).
  { destruct Hempty as [Hle | Hnil].
    - replace (Z.to_nat frames) with 0%nat by lia. reflexivity.
    - rewrite Hnil. apply firstn_nil. }
  unfold slot_load_path. rewrite Hinit, Hfr, Htmp, Hdata, Hnone.
  cbn [negb fst snd List.length Z.of_nat firstn map s_data].
  split; [reflexivity |]. split; [reflexivity |].
  unfold slot_tick, store_s_playing_pos, slot_free.
  cbn [s_playing s_loaded s_data s_pos s_length s_loop truthy Z.eqb negb orb
       nth_error Z.to_nat].
  change (wrap_u32 0) with 0. cbn [Z.geb Z.compare].
  unfold truthy. destruct (Z.eqb_spec (s_loop s) 0) as [E | _];
    [contradiction | reflexivity].
Qed.

Hypothesis to_uint32_range : forall x : F, 0 <= to_uint32 x < 2 ^ 32.
Hypothesis decoders_sound :
  forall path sr, decoder_sound (decode_file h path sr).

Ltac slots_kept :=
  cbn [snd]; rewrite ?srv_broadcast_G;
  unfold with_G, on_ch, on_voice, on_slot, set_masterGain;
  cbn [G E_slots]; try assumption.

Lemma process_SAMPLE_sound (tokens : list string) (w : World F) :
  Forall slot_sound (E_slots (G w)) ->
  Forall slot_sound (E_slots (G (snd (process_SAMPLE h tokens w)))).
Proof.
  intro Hw. unfold process_SAMPLE.
  repeat match goal with
         | |- context [if ?b then _ else _] => destruct b eqn:?
         | |- context [match join_path ?a ?b ?c with _ => _ end] =>
           destruct (join_path a b c)
         | |- context [let '(_, _) := ?p in _] => destruct p eqn:?
         end;
    slots_kept.
  all: apply Forall_upd; [assumption |]; intros x Hx Px.
  all: unfold the_slot in *; rewrite ?(nth_error_nth _ _ slot_init Hx) in *.
  all: try match goal with
           | E : slot_load_path ?S ?d = (?r, ?S') |- slot_sound ?S' =>
             replace S' with (snd (slot_load_path S d))
               by (rewrite E; reflexivity);
             apply slot_load_path_sound; [exact Px | apply decoders_sound]
           end.
  all: destruct Px as [(Hpos & Hlen & Hbuf) Hne].
  all: split; [| exact Hne]; unfold slot_wf; cbn -[Z.pow].
  all: repeat split; try assumption; try lia.
  all: pose proof (to_uint32_range
         (fmaxf (flit 0) (atof h (tok tokens 3)) * of_int (E_sr (G w)))%flt).
  all: destruct (Z.gtb_spec (s_length x) 0); lia.
Qed.

Lemma process_command_sound (cmd : string) (w : World F) :
  Forall slot_sound (E_slots (G w)) ->
  Forall slot_sound (E_slots (G (snd (process_command h cmd w)))).
Proof.
  intro Hw. unfold process_command, process_tokens.
  repeat match goal with
         | |- context [if ?b then _ else _] => destruct b eqn:?
         end;
    try (apply process_SAMPLE_sound; exact Hw);
    try (unfold process_CH; split_ifs; slots_kept);
    try (unfold process_VOICE; split_ifs; slots_kept);
    slots_kept.
Qed.

Lemma trigger_sound (i : nat) (slots : list (SampleSlot F)) :
  Forall slot_sound slots ->
  Forall slot_sound (upd i (store_s_playing_pos 1 0) slots).
Proof.
  intro Hw. apply Forall_upd; [exact Hw |].
  intros x _ [(Hpos & Hlen & Hbuf) Hne].
  split; [| exact Hne]. unfold slot_wf; cbn -[Z.pow].
  repeat split; try assumption; lia.
Qed.

Lemma engine_step_sound (op : engine_op F) (w : World F) :
  Forall slot_sound (E_slots (G w)) ->
  exists w', engine_step h w op = Some w'
             /\ Forall slot_sound (E_slots (G w')).
Proof.
  intro Hw. destruct op as [cmd | path value | path value | path vel | n];
    cbn [engine_step].
  - eexists. split; [reflexivity |]. apply process_command_sound. exact Hw.
  - eexists. split; [reflexivity |]. unfold osc_handle_mapped.
    destruct (sscanf_mapped path) as [[variant semantic] |]; [| exact Hw].
    split_ifs; slots_kept.
  - eexists. split; [reflexivity |]. unfold osc_handle_raw_cc.
    destruct (sscanf_two_ints _ path) as [[a b] |]; [| exact Hw].
    split_ifs; slots_kept.
  - eexists. split; [reflexivity |]. unfold osc_handle_raw_note.
    destruct (sscanf_two_ints _ path) as [[a b] |]; [| exact Hw].
    split_ifs; slots_kept; apply trigger_sound; exact Hw.
  - destruct (data_cb_sound (G w) n Hw) as (E' & out & Hr & Hs).
    rewrite Hr. eexists. split; [reflexivity | exact Hs].
Qed.

(** X21: when the float-to-uint32 conversion yields uint32 values and every
    file that decodes holds between 1 and 2^32-1 frames, then from a state
    whose slot buffers are non-empty and of the recorded length, no sequence
    of whole commands, OSC messages and render periods makes the render
    callback read outside a sample buffer. *)
Theorem engine_never_reads_outside_a_buffer (history : list (engine_op F))
  (w : World F) :
  Forall slot_sound (E_slots (G w)) ->
  exists w', engine_run h history w = Some w'
             /\ Forall slot_sound (E_slots (G w')).
Proof.
  revert w. induction history as [| op rest IH]; intros w Hw; cbn [engine_run].
  - exists w. split; [reflexivity | exact Hw].
  - destruct (engine_step_sound op w Hw) as (w1 & Hs & Hw1). rewrite Hs.
    apply IH. exact Hw1.
Qed.

End Safety_Properties.

(** ** Ranges of stored values in binary32 *)

Section Binary32_Ranges.

Import Binary32.
Variable h : Host float32.
Local Arguments reply : simpl never.
Local Arguments event_line : simpl never.
Local Arguments fmt_d : simpl never.
Local Arguments atoi : simpl never.
Local Open Scope string_scope.
Local Open Scope Z_scope.

(** X23: in binary32, for a valid voice index and any argument text, VOICE n
    FREQ stores a frequency of at least 1, VOICE n TAU stores two time
    constants of at least 1e-4 (so never a NaN), and VOICE n GAIN stores a gain
    in [0, 2] unless the argument reads as a NaN. *)
Theorem voice_parameters_are_floored (w : World float32) (tn tv tv2 : string)
  (v : Voice float32) :
  1 <= atoi tn <= NUM_VOICES ->
  nth_error (E_voices (G w)) (Z.to_nat (atoi tn - 1)) = Some v ->
  let voice cmd :=
    nth_error (E_voices (G (snd (process_tokens h cmd w))))
              (Z.to_nat (atoi tn - 1)) in
  (exists f, voice ["VOICE"; tn; "FREQ"; tv] = Some (store_v_freq f v)
             /\ SFleb (lit 1) f = true)
  /\ (exists ta tb,
        voice ["VOICE"; tn; "TAU"; tv; tv2] = Some (store_v_tau ta tb v)
        /\ SFleb (lit 1e-4) ta = true /\ SFleb (lit 1e-4) tb = true)
  /\ (exists g, voice ["VOICE"; tn; "GAIN"; tv] = Some (store_v_gain g v)
                /\ (is_nan (atof h tv) = false ->
                    SFleb (lit 0) g = true /\ SFleb g (lit 2) = true)).
Proof.
  intros Hidx Hv. cbv zeta. unfold process_tokens, process_VOICE, tok.
  cbn [List.length Nat.eqb Nat.ltb Nat.leb nth String.eqb Ascii.eqb
       Bool.eqb].
  rewrite (index_test _ _ _ Hidx). cbn [snd with_G G on_voice E_voices].
  split; [| split].
  - eexists. split; [exact (nth_error_upd _ _ _ v Hv) |].
    apply maxf_floor. reflexivity.
  - eexists _, _. split; [exact (nth_error_upd _ _ _ v Hv) |].
    split; apply maxf_floor; reflexivity.
  - eexists. split; [exact (nth_error_upd _ _ _ v Hv) |].
    intro Hnan. apply clampf_bounds; try reflexivity. exact Hnan.
Qed.

(** X24: in binary32, controller 7 on channel 1 with a value in 0..127 sets
    the master gain to value/127, which lies in [0, 1], and changes nothing
    else. *)
Theorem raw_cc_master_gain_in_unit_range (w : World float32) (path : string)
  (value : Z) :
  sscanf_two_ints "/midi/raw/cc/" path = Some (1, 7) ->
  0 <= value <= 127 ->
  let w' := snd (osc_handle_raw_cc path value w) in
  w' = with_G w (set_masterGain (G w) (of_Z value / lit 127)%flt)
  /\ SFleb (lit 0) (E_masterGain (G w')) = true
  /\ SFleb (E_masterGain (G w')) (lit 1) = true.
Proof.
  intros Hpath Hrange. cbv zeta. unfold osc_handle_raw_cc. rewrite Hpath.
  cbn [Z.eqb Pos.eqb andb snd with_G G set_masterGain E_masterGain].
  split; [reflexivity |].
  assert (Hall : forallb (fun n => SFleb (lit 0) (of_Z (Z.of_nat n) / lit 127)%flt
                                   && SFleb (of_Z (Z.of_nat n) / lit 127)%flt (lit 1))
                         (seq 0 128) = true) by (vm_compute; reflexivity).
  rewrite forallb_forall in Hall.
  specialize (Hall (Z.to_nat value)).
  rewrite Z2Nat.id in Hall by lia.
  apply andb_prop. apply Hall. apply in_seq. lia.
Qed.

End Binary32_Ranges.

(** ** Silence, the pan law, seeking and shutdown *)

Section Idle_Properties.

Context {F : Type} {ops : FloatOps F} {lm : Libm F}.
Local Open Scope Z_scope.

Lemma tick_slots_idle (slots : list (SampleSlot F)) (mono : list F) :
  Forall (fun s => s_playing s = 0) slots ->
  tick_slots slots mono = Some (slots, mono).
Proof.
  induction 1 as [| s rest Hs Hrest IH]; cbn [tick_slots]; [reflexivity |].
  rewrite Hs. cbn [truthy Z.eqb negb]. rewrite IH. reflexivity.
Qed.

Lemma tick_voices_idle (voices : list (Voice F)) (mono : list F) :
  Forall (fun v => v_on v = 0) voices ->
  tick_voices voices mono = (voices, mono).
Proof.
  induction 1 as [| v rest Hv Hrest IH]; cbn [tick_voices]; [reflexivity |].
  rewrite Hv. cbn [truthy Z.eqb negb]. rewrite IH. reflexivity.
Qed.

End Idle_Properties.

Section Silence_And_Power.

Import Exact.
Local Open Scope Z_scope.
Local Open Scope R_scope.

Lemma mix_channels_silent (chs : list (Channel R)) (mono : list R) (L R0 : R) :
  Forall (fun c => f_type (ch_filt c) = F_OFF) chs ->
  Forall (fun m => m = 0) mono ->
  mix_channels chs mono (L, R0) = (chs, (L, R0)).
Proof.
  intro Hoff. revert mono.
  induction Hoff as [| c chs Hc Hchs IH]; intros mono Hmono.
  - destruct mono; reflexivity.
  - destruct Hmono as [| m mono Hm Hmono]; [reflexivity |].
    cbn [mix_channels]. rewrite channel_stereo_unfold.
    unfold svf_process. rewrite Hc. cbn [Z.eqb F_OFF fst snd].
    subst m. cbn [fmul fadd ops].
    replace (L + 0 * ch_gain c * _) with L by ring.
    replace (R0 + 0 * ch_gain c * _) with R0 by ring.
    rewrite (IH mono Hmono). destruct c as [g p f]. reflexivity.
Qed.



End Silence_And_Power.

Section Seek_And_Quit.

Context {F : Type} {ops : FloatOps F}.
Variable h : Host F.
Local Arguments reply : simpl never.
Local Arguments event_line : simpl never.
Local Arguments fmt_d : simpl never.
Local Arguments atoi : simpl never.
Local Open Scope string_scope.
Local Open Scope Z_scope.

(** X27: for a loaded slot with a non-empty buffer and any argument text,
    SAMPLE n SEEK answers OK and stores a cursor below the buffer length,
    changing nothing else of the slot. *)
Theorem seek_stays_inside_buffer (w : World F) (tn tv : string)
  (s : SampleSlot F) :
  1 <= atoi tn <= NUM_SLOTS ->
  nth_error (E_slots (G w)) (Z.to_nat (atoi tn - 1)) = Some s ->
  s_loaded s <> 0 ->
  0 < s_length s ->
  let r := process_tokens h ["SAMPLE"; tn; "SEEK"; tv] w in
  prefix "OK" (fst r) = true
  /\ exists pos,
       nth_error (E_slots (G (snd r))) (Z.to_nat (atoi tn - 1))
       = Some (store_s_pos pos s)
       /\ pos < s_length s.
Proof.
  intros Hidx Hs Hl Hlen. cbv zeta.
  unfold process_tokens, process_SAMPLE, tok, the_slot.
  cbn [List.length Nat.eqb Nat.ltb Nat.leb nth String.eqb Ascii.eqb
       Bool.eqb].
  rewrite (index_test _ _ _ Hidx).
  rewrite (nth_error_nth _ _ slot_init Hs).
  unfold truthy. destruct (Z.eqb_spec (s_loaded s) 0) as [E | _];
    [contradiction |].
  cbn [negb fst snd with_G G on_slot E_slots].
  split.
  - cbn [append]. apply (proj1 (reply_OK _)).
  - eexists. split; [exact (nth_error_upd _ _ _ s Hs) |].
    destruct (Z.geb_spec
                (to_uint32 (fmaxf (flit 0) (atof h tv) * of_int (E_sr (G w)))%flt)
                (s_length s)) as [Hge | Hlt].
    + destruct (Z.gtb_spec (s_length s) 0); lia.
    + exact Hlt.
Qed.

(** X28: a datagram whose first token is QUIT is answered OK Shutting down,
    clears [g_srv.running] and nothing else, and ends the loop of the
    datagram thread: no later datagram is consumed. *)
Theorem quit_stops_the_datagram_thread (payload : string)
  (more : list string) (client : sockaddr_un) (rest : list recv_result)
  (w : World F) (replies : list datagram) :
  srv_running (g_srv w) <> 0 ->
  tokenize (substring 0 4095 payload) = "QUIT" :: more ->
  dgram_thread h (Recv payload client true :: rest) w replies
  = ({| G := G w;
        g_srv := {| srv_running := 0;
                    srv_subscribers := srv_subscribers (g_srv w) |};
        net_log := net_log w |},
     (replies ++ [(client, ("OK Shutting down" ++ NL)%string)])%list,
     rest).
Proof.
  intros Hrun Htok. cbn [dgram_thread].
  unfold truthy. destruct (Z.eqb_spec (srv_running (g_srv w)) 0) as [E | _];
    [contradiction |].
  cbn [negb].
  destruct (String.length (substring 0 4095 payload) =? 0)%nat eqn:Elen.
  { apply Nat.eqb_eq in Elen.
    destruct (substring 0 4095 payload); [discriminate Htok | discriminate Elen]. }
  unfold process_command. rewrite Htok.
  cbn [process_tokens List.length Nat.eqb tok nth String.eqb Ascii.eqb Bool.eqb].
  destruct rest as [| r rest']; cbn [dgram_thread g_srv srv_running truthy
                                     Z.eqb negb]; reflexivity.
Qed.

End Seek_And_Quit.

(** ** Further runs *)

Section Further_Runs.

Import Binary32 Exact.
Local Existing Instance Demo.libm32.
Local Open Scope string_scope.
Local Open Scope Z_scope.

Lemma to_u32_range (x : float32) : 0 <= to_u32 x < 2 ^ 32.
Proof.
  destruct x as [s | s | | s m e]; cbn [to_u32]; try lia.
  destruct s; [lia | apply wrap_u32_range].
Qed.

Lemma engine_init_sound {F : Type} {ops : FloatOps F} (sr frames : Z) :
  Forall slot_sound (E_slots (engine_init (F := F) sr frames)).
Proof.
  cbn [engine_init E_slots]. apply Forall_forall. intros s Hs.
  apply repeat_spec in Hs. subst s.
  split; [| discriminate].
  unfold slot_wf, slot_init. cbn -[Z.pow]. repeat split; try lia.
  discriminate.
Qed.

Lemma slot2_sound : slot_sound Demo.slot2.
Proof.
  split.
  - unfold slot_wf. cbn -[Z.pow]. repeat split; try lia.
    intros data Hd. injection Hd as <-. reflexivity.
  - intros data Hd. injection Hd as <-. discriminate.
Qed.

Lemma world_loaded_sound : Forall slot_sound (E_slots (G Demo.world_loaded)).
Proof.
  unfold Demo.world_loaded, with_G, on_slot. cbn [G E_slots].
  apply Forall_upd; [apply engine_init_sound |].
  intros x _ _. exact slot2_sound.
Qed.

Lemma one_shot_playback_witness :
  let s := Demo.slot2 in
  let buf := [lit 0.5; lit 0.25] in
  let out := map (fun x => (x * s_gain s)%flt) in
  ((1 <= List.length buf)%nat ->
   slot_run 1 (store_s_playing_pos 1 0 s)
   = Some (out (firstn 1 buf), store_s_playing_pos 1 (Z.of_nat 1) s))
  /\ slot_run (List.length buf + 2) (store_s_playing_pos 1 0 s)
     = Some ((out buf ++ repeat (flit 0) 2)%list,
             store_s_playing_pos 0 0 s).
Proof.
  apply (one_shot_playback Demo.slot2 [lit 0.5; lit 0.25] 1);
    [reflexivity | reflexivity | reflexivity | discriminate | reflexivity].
Defined.

Lemma loop_playback_is_periodic_witness :
  let s := Fixtures.slot2_loop in
  let buf := [lit 0.5; lit 0.25] in
  slot_run (3 * List.length buf) (store_s_playing_pos 1 0 s)
  = Some (List.concat (repeat (map (fun x => (x * s_gain s)%flt) buf) 3),
          store_s_playing_pos 1 (s_length s) s).
Proof.
  apply (loop_playback_is_periodic Fixtures.slot2_loop [lit 0.5; lit 0.25] 2);
    [reflexivity | reflexivity | reflexivity | discriminate | discriminate
     | reflexivity].
Defined.

Lemma render_keeps_published_parameters_witness :
  match data_cb (G Demo.world_loaded) 2 with
  | Some (E', out) =>
    engine_params E' = engine_params (G Demo.world_loaded)
    /\ List.length out = 2%nat
  | None => False
  end.
Proof.
  destruct (data_cb (G Demo.world_loaded) 2) as [[E' out] |] eqn:H.
  - exact (render_keeps_published_parameters _ _ _ _ H).
  - vm_compute in H. discriminate H.
Defined.

Lemma render_stays_inside_buffers_witness :
  exists E' out,
    data_cb (G Demo.world_loaded) 3 = Some (E', out)
    /\ Forall slot_safe (E_slots E').
Proof.
  apply render_stays_inside_buffers.
  apply (Forall_impl _ slot_sound_safe). exact world_loaded_sound.
Defined.

Lemma error_replies_change_nothing_witness :
  snd (process_command Demo.host "SAMPLE 1 TRIG" Demo.world0) = Demo.world0.
Proof.
  apply error_replies_change_nothing; reflexivity.
Defined.

Lemma subscriber_list_stays_within_capacity_witness :
  sub_count
    (g_srv (snd (process_command Demo.host "SUBSCRIBE /tmp/new"
                                 Demo.world_full)))
  <= MAX_SUBSCRIBERS.
Proof.
  apply subscriber_list_stays_within_capacity.
  vm_compute. discriminate.
Defined.

Lemma note_events_trigger_only_loaded_slots_witness :
  let w' :=
    snd (osc_handle_raw_note "/midi/raw/note/1/36" 100 Demo.world_loaded) in
  nth_error (E_slots (G w')) 0 = Some Demo.slot2
  \/ (100 > 0 /\ s_loaded Demo.slot2 <> 0 /\ (0 = 0 \/ 0 = 1)%nat
      /\ nth_error (E_slots (G w')) 0
         = Some (store_s_playing_pos 1 0 Demo.slot2)).
Proof.
  apply (note_events_trigger_only_loaded_slots
           "/midi/raw/note/1/36" 100 Demo.world_loaded 0 Demo.slot2).
  reflexivity.
Defined.

Lemma new_subscriber_receives_next_event_witness :
  let h := Demo.host in
  let w := Demo.world0 in
  let p := "/tmp/a.sock" in
  let tv := "0.5" in
  let w1 := snd (process_tokens h ["SUBSCRIBE"; p] w) in
  let gain := clampf (atof h tv) (flit 0) (flit 10) in
  let event := event_line ("EVENT MASTER " ++ fmt_f h 3 gain ++ NL) in
  let w2 := snd (process_tokens h ["MASTER"; tv] w1) in
  In {| sun_path := p |} (srv_subscribers (g_srv w1))
  /\ exists sent,
       net_log w2 = (net_log w ++ sent)%list
       /\ In ({| sun_path := p |}, event) sent
       /\ Forall (fun d => snd d = event) sent.
Proof.
  apply (new_subscriber_receives_next_event Demo.host Demo.world0
           "/tmp/a.sock" "0.5").
  - apply Nat.leb_le. reflexivity.
  - reflexivity.
Defined.

Lemma tokenize_inverts_joining_witness :
  tokenize (String.concat " " ["CH"; "1"; "GAIN"; "0.5"])
  = ["CH"; "1"; "GAIN"; "0.5"].
Proof.
  apply tokenize_inverts_joining.
  - repeat constructor; try discriminate.
  - apply Nat.leb_le. reflexivity.
  - apply Nat.leb_le. reflexivity.
Defined.

Lemma mapped_address_round_trip_witness :
  sscanf_mapped ("/midi/mapped/" ++ "a" ++ "/" ++ "VOLUME_1")
  = Some ("a", "VOLUME_1").
Proof.
  apply mapped_address_round_trip.
  - discriminate.
  - apply Nat.leb_le. reflexivity.
  - reflexivity.
  - discriminate.
  - apply Nat.leb_le. reflexivity.
  - reflexivity.
Defined.


Lemma engine_never_reads_outside_a_buffer_witness :
  exists w',
    engine_run Fixtures.host_wav Fixtures.session Demo.world0 = Some w'
    /\ Forall slot_sound (E_slots (G w')).
Proof.
  apply engine_never_reads_outside_a_buffer.
  - exact to_u32_range.
  - intros path sr frames Hf. injection Hf as <-.
    split; [lia | discriminate].
  - apply engine_init_sound.
Defined.

Lemma empty_looping_sample_reads_outside_buffer_witness :
  fst (slot_load_path Fixtures.slot2_loop Fixtures.empty_file) = 0
  /\ s_data (snd (slot_load_path Fixtures.slot2_loop Fixtures.empty_file))
     = Some []
  /\ slot_tick
       (store_s_playing_pos 1 0
          (snd (slot_load_path Fixtures.slot2_loop Fixtures.empty_file)))
     = None.
Proof.
  apply (empty_looping_sample_reads_outside_buffer
           Fixtures.slot2_loop Fixtures.empty_file 0);
    [reflexivity | reflexivity | reflexivity | reflexivity | left; lia
     | discriminate].
Defined.

Lemma voice_parameters_are_floored_witness :
  let h := Demo.host in
  let w := Demo.world0 in
  let tn := "1" in
  let v := Demo.voice0 in
  let voice cmd :=
    nth_error (E_voices (G (snd (process_tokens h cmd w))))
              (Z.to_nat (atoi tn - 1)) in
  (exists f, voice ["VOICE"; tn; "FREQ"; "0.5"] = Some (store_v_freq f v)
             /\ SFleb (lit 1) f = true)
  /\ (exists ta tb,
        voice ["VOICE"; tn; "TAU"; "0.5"; "0.001"]
        = Some (store_v_tau ta tb v)
        /\ SFleb (lit 1e-4) ta = true /\ SFleb (lit 1e-4) tb = true)
  /\ (exists g, voice ["VOICE"; tn; "GAIN"; "0.5"] = Some (store_v_gain g v)
                /\ (is_nan (atof h "0.5") = false ->
                    SFleb (lit 0) g = true /\ SFleb g (lit 2) = true)).
Proof.
  apply (voice_parameters_are_floored Demo.host Demo.world0 "1" "0.5" "0.001"
           Demo.voice0).
  - vm_compute. split; discriminate.
  - reflexivity.
Defined.

Lemma raw_cc_master_gain_in_unit_range_witness :
  let w' := snd (osc_handle_raw_cc "/midi/raw/cc/1/7" 64 Demo.world0) in
  w' = with_G Demo.world0
              (set_masterGain (G Demo.world0) (of_Z 64 / lit 127)%flt)
  /\ SFleb (lit 0) (E_masterGain (G w')) = true
  /\ SFleb (E_masterGain (G w')) (lit 1) = true.
Proof.
  apply (raw_cc_master_gain_in_unit_range Demo.world0 "/midi/raw/cc/1/7" 64).
  - reflexivity.
  - lia.
Defined.


Lemma seek_stays_inside_buffer_witness :
  let r := process_tokens Demo.host ["SAMPLE"; "1"; "SEEK"; "0.00001"]
                          Demo.world_loaded in
  prefix "OK" (fst r) = true
  /\ exists pos,
       nth_error (E_slots (G (snd r))) (Z.to_nat (atoi "1" - 1))
       = Some (store_s_pos pos Demo.slot2)
       /\ pos < s_length Demo.slot2.
Proof.
  apply (seek_stays_inside_buffer Demo.host Demo.world_loaded "1" "0.00001"
           Demo.slot2).
  - vm_compute. split; discriminate.
  - reflexivity.
  - discriminate.
  - reflexivity.
Defined.

Lemma quit_stops_the_datagram_thread_witness :
  dgram_thread Demo.host
    [Recv "QUIT now" {| sun_path := "/tmp/c.sock" |} true; RecvErr]
    Demo.world0 []
  = ({| G := G Demo.world0;
        g_srv := {| srv_running := 0;
                    srv_subscribers := srv_subscribers (g_srv Demo.world0) |};
        net_log := net_log Demo.world0 |},
     ([] ++ [({| sun_path := "/tmp/c.sock" |},
              ("OK Shutting down" ++ NL)%string)])%list,
     [RecvErr]).
Proof.
  apply (quit_stops_the_datagram_thread Demo.host "QUIT now" ["now"]).
  - discriminate.
  - reflexivity.
Defined.

End Further_Runs.
